(** * autotest: the HTML capture pipeline and its text filters

    A shallow embedding of [src/test-generatior.ts], [src/tester.ts] and of the
    [sanitizeHTML] / [filterHTML] helpers of [playwrite_test_auto-1.md].

    JavaScript strings are modelled by Rocq strings, one character per code
    unit; code units above 255 are outside the model.  Inside the matcher a
    string is the list of its characters. *)

From Stdlib Require Import Ascii String List Arith Lia Bool.
From Stdlib Require QArith.
From stdpp Require Import gmap strings list.

Local Open Scope char_scope.

(** ** Characters *)

Abbreviation chars := (list ascii).

Definition chars_of (s : string) : chars := list_ascii_of_string s.
Definition string_of (l : chars) : string := string_of_list_ascii l.

Definition code (c : ascii) : nat := nat_of_ascii c.

Definition in_range (lo hi c : ascii) : bool :=
  Nat.leb (code lo) (code c) && Nat.leb (code c) (code hi).

(** The double quote, written by its code so that no literal has to double it. *)
Definition dquote : ascii := "034".
Definition squote : ascii := "'".
Definition newline : ascii := "010".

(** [\w] of a pattern without the [u] flag: [A-Za-z0-9_]. *)
Definition is_word_char (c : ascii) : bool :=
  in_range "a" "z" c || in_range "A" "Z" c || in_range "0" "9" c
  || Ascii.eqb c "_".

(** Canonicalize of the [i] flag.  The patterns of this program contain ASCII
    letters only, and no character above 127 canonicalizes to an ASCII one, so
    folding [a-z] onto [A-Z] decides every comparison they make. *)
Definition canonicalize (c : ascii) : ascii :=
  if in_range "a" "z" c then ascii_of_nat (code c - 32) else c.

(** ** Regular expressions

    The constructs the five literals of the program use: character classes,
    sequence, alternation, greedy and lazy repetition of a class, capture
    groups and the word-boundary assertion. *)

Inductive cls :=
| CChar (c : ascii)            (* a pattern character *)
| CNot (c : ascii)             (* [^c] *)
| CAny                         (* [\s\S] *)
| CWord                        (* \w *)
| CRange (lo hi : ascii)       (* [lo-hi] *)
| COneOf (cs : chars).         (* [c1c2...] *)

Inductive regex :=
| Eps
| Chr (c : cls)
| Seq (r1 r2 : regex)
| Alt (r1 r2 : regex)
| Star (greedy : bool) (c : cls)
| Group (n : nat) (r : regex)
| WordB.

Definition cls_match (ic : bool) (c : cls) (a : ascii) : bool :=
  let cn := fun x => if ic then canonicalize x else x in
  match c with
  | CChar p => Ascii.eqb (cn a) (cn p)
  | CNot p => negb (Ascii.eqb (cn a) (cn p))
  | CAny => true
  | CWord => is_word_char a
  | CRange lo hi => in_range lo hi a
  | COneOf cs => existsb (fun p => Ascii.eqb (cn a) (cn p)) cs
  end.

(** A position of the matcher: the characters already passed (last one first),
    the characters still ahead, and the captures made so far. *)
Record mstate := MState {
  seen : chars;
  rest : chars;
  caps : list (nat * chars)
}.

Definition advance (a : ascii) (t : chars) (x : mstate) : mstate :=
  MState (a :: seen x) t (caps x).

(** The text between position [x] and a later position [y]. *)
Definition span (x y : mstate) : chars :=
  rev (firstn (length (seen y) - length (seen x)) (seen y)).

Definition set_cap (n : nat) (x y : mstate) : mstate :=
  MState (seen y) (rest y) ((n, span x y) :: caps y).

Fixpoint get_cap (n : nat) (cs : list (nat * chars)) : option chars :=
  match cs with
  | [] => None
  | (i, v) :: cs' => if Nat.eqb i n then Some v else get_cap n cs'
  end.

Definition head_is_word (l : chars) : bool :=
  match l with
  | a :: _ => is_word_char a
  | [] => false
  end.

Definition at_boundary (x : mstate) : bool :=
  xorb (head_is_word (seen x)) (head_is_word (rest x)).

Definition cont := mstate -> option mstate.

(** Repetition of a class, by recursion on the text ahead.  Greedy: one more
    character first, the continuation on failure; lazy: the other way round. *)
Fixpoint star (ic greedy : bool) (c : cls) (k : cont) (l : chars) (x : mstate)
  : option mstate :=
  match l with
  | a :: t =>
      if cls_match ic c a then
        if greedy then
          match star ic greedy c k t (advance a t x) with
          | Some y => Some y
          | None => k x
          end
        else
          match k x with
          | Some y => Some y
          | None => star ic greedy c k t (advance a t x)
          end
      else k x
  | [] => k x
  end.

(** The backtracking matcher, in continuation-passing style as in the
    language definition: [m r k x] matches [r] at [x] and hands every way of
    doing so to [k], in priority order, until [k] accepts one. *)
Fixpoint m (ic : bool) (r : regex) (k : cont) (x : mstate) : option mstate :=
  match r with
  | Eps => k x
  | Chr c =>
      match rest x with
      | a :: t => if cls_match ic c a then k (advance a t x) else None
      | [] => None
      end
  | Seq r1 r2 => m ic r1 (m ic r2 k) x
  | Alt r1 r2 =>
      match m ic r1 k x with
      | Some y => Some y
      | None => m ic r2 k x
      end
  | Star greedy c => star ic greedy c k (rest x) x
  | Group n r1 => m ic r1 (fun y => k (set_cap n x y)) x
  | WordB => if at_boundary x then k x else None
  end.

(** A pattern literal, character by character. *)
Fixpoint lit_chars (l : chars) : regex :=
  match l with
  | [] => Eps
  | [a] => Chr (CChar a)
  | a :: t => Seq (Chr (CChar a)) (lit_chars t)
  end.

Definition lit (s : string) : regex := lit_chars (chars_of s).

Definition opt (r : regex) : regex := Alt r Eps.
Definition plus (c : cls) : regex := Seq (Chr c) (Star true c).

Fixpoint seqs (rs : list regex) : regex :=
  match rs with
  | [] => Eps
  | [r] => r
  | r :: rs' => Seq r (seqs rs')
  end.

Fixpoint alts (rs : list regex) : regex :=
  match rs with
  | [] => Eps
  | [r] => r
  | r :: rs' => Alt r (alts rs')
  end.

(** Matching at one position: the end position and captures, if any. *)
Definition match_at (ic : bool) (r : regex) (sn rs : chars) : option mstate :=
  m ic r Some (MState sn rs []).

(** The leftmost match at or after the current position. *)
Fixpoint search (ic : bool) (r : regex) (sn rs : chars) : option (nat * mstate) :=
  match match_at ic r sn rs with
  | Some y => Some (length sn, y)
  | None =>
      match rs with
      | a :: t => search ic r (a :: sn) t
      | [] => None
      end
  end.

(** ** RegExp objects

    A RegExp object carries its flags and the mutable [lastIndex]. *)
Record RegExp := mkRegExp {
  source : regex;
  global : bool;
  ignoreCase : bool;
  lastIndex : nat
}.

Definition set_lastIndex (i : nat) (R : RegExp) : RegExp :=
  mkRegExp (source R) (global R) (ignoreCase R) i.

(** A match result: index, matched text, end index and captures. *)
Record match_result := mkMatch {
  m_index : nat;
  m_text : chars;
  m_end : nat;
  m_caps : list (nat * chars)
}.

(** RegExpBuiltinExec: start at [lastIndex] when the pattern is global, at 0
    otherwise; a failure resets [lastIndex], a success of a global pattern
    moves it to the end of the match. *)
Definition exec (R : RegExp) (s : chars) : option match_result * RegExp :=
  let i := if global R then lastIndex R else 0 in
  if Nat.ltb (length s) i then (None, if global R then set_lastIndex 0 R else R)
  else
    match search (ignoreCase R) (source R) (rev (firstn i s)) (skipn i s) with
    | None => (None, if global R then set_lastIndex 0 R else R)
    | Some (j, y) =>
        let e := length (seen y) in
        (Some (mkMatch j (firstn (e - j) (skipn j s)) e (caps y)),
         if global R then set_lastIndex e R else R)
    end.

(** RegExp.prototype.test *)
Definition test (R : RegExp) (s : chars) : bool * RegExp :=
  let '(r, R') := exec R s in
  (match r with Some _ => true | None => false end, R').

(** [s.replace(R, '')] for a global [R]: the leftmost matches, none
    overlapping an earlier one, are deleted; after an empty match the scan
    moves on by one character.  [skip] counts the characters of the current
    match that are still to be dropped. *)
Fixpoint remove_matches (ic : bool) (r : regex) (skip : nat) (sn rs : chars)
  : chars :=
  match rs with
  | [] => []
  | a :: t =>
      match skip with
      | S n => remove_matches ic r n (a :: sn) t
      | 0 =>
          match match_at ic r sn rs with
          | Some y =>
              match length (seen y) - length sn with
              | S n => remove_matches ic r n (a :: sn) t
              | 0 => a :: remove_matches ic r 0 (a :: sn) t
              end
          | None => a :: remove_matches ic r 0 (a :: sn) t
          end
      end
  end.

Definition replace_all (R : RegExp) (s : chars) : chars :=
  remove_matches (ignoreCase R) (source R) 0 [] s.

(** ** [sanitizeHTML] (playwrite_test_auto-1.md) *)

Definition not_gt : cls := CNot ">".

(** [/<script[^>]*>[\s\S]*?<\/script>/gi] *)
Definition re_script : RegExp :=
  mkRegExp (seqs [lit "<script"; Star true not_gt; Chr (CChar ">");
                  Star false CAny; lit "</script>"]) true true 0.

(** [/<style[^>]*>[\s\S]*?<\/style>/gi] *)
Definition re_style : RegExp :=
  mkRegExp (seqs [lit "<style"; Star true not_gt; Chr (CChar ">");
                  Star false CAny; lit "</style>"]) true true 0.

(** [/<link[^>]*rel=["']stylesheet["'][^>]*>/gi] *)
Definition re_link : RegExp :=
  mkRegExp (seqs [lit "<link"; Star true not_gt; lit "rel=";
                  Chr (COneOf [dquote; squote]); lit "stylesheet";
                  Chr (COneOf [dquote; squote]); Star true not_gt;
                  Chr (CChar ">")]) true true 0.

(** [/<svg[^>]*>[\s\S]*?<\/svg>/gi] *)
Definition re_svg : RegExp :=
  mkRegExp (seqs [lit "<svg"; Star true not_gt; Chr (CChar ">");
                  Star false CAny; lit "</svg>"]) true true 0.

(** [/<meta[^>]*>/gi] *)
Definition re_meta : RegExp :=
  mkRegExp (seqs [lit "<meta"; Star true not_gt; Chr (CChar ">")]) true true 0.

Definition removal_patterns : list RegExp :=
  [re_script; re_style; re_link; re_svg; re_meta].

Definition sanitize_chars (html : chars) : chars :=
  replace_all re_meta
    (replace_all re_svg
      (replace_all re_link
        (replace_all re_style
          (replace_all re_script html)))).

Definition sanitizeHTML (html : string) : string :=
  string_of (sanitize_chars (chars_of html)).

(** ** [filterHTML] (playwrite_test_auto-1.md) *)

(** [/<(input|button|select|textarea|a|form|div|span|label|h[1-6])\b[^>]*>/gi] *)
Definition re_default_criterion : RegExp :=
  mkRegExp
    (seqs [Chr (CChar "<");
           Group 1 (alts [lit "input"; lit "button"; lit "select";
                          lit "textarea"; lit "a"; lit "form"; lit "div";
                          lit "span"; lit "label";
                          Seq (Chr (CChar "h")) (Chr (CRange "1" "6"))]);
           WordB; Star true not_gt; Chr (CChar ">")])
    true true 0.

(** [/<(\/?)(\w+)(A)>/gi], where the third group [A] is [[^>]] starred. *)
Definition re_tag : RegExp :=
  mkRegExp
    (seqs [Chr (CChar "<"); Group 1 (opt (Chr (CChar "/")));
           Group 2 (plus CWord); Group 3 (Star true not_gt);
           Chr (CChar ">")])
    true true 0.

(** A capture inside a template literal: a group that did not take part is
    [undefined] and prints as such. *)
Definition interpolate (o : option chars) : chars :=
  match o with
  | Some v => v
  | None => chars_of "undefined"
  end.

(** [criteria.some(criterion => criterion.test(s))]: the criteria are tried in
    order up to the first success, and every [test] made leaves its
    [lastIndex] in the criterion it was made on. *)
Fixpoint some_test (criteria : list RegExp) (s : chars) : bool * list RegExp :=
  match criteria with
  | [] => (false, [])
  | c :: cs =>
      let '(b, c') := test c s in
      if b then (true, c' :: cs)
      else let '(b', cs') := some_test cs s in (b', c' :: cs')
  end.

(** The [while ((match = regex.exec(html)) !== null)] loop.  [None] stands for
    a loop that is still running when the fuel is gone. *)
Fixpoint filter_loop (fuel : nat) (criteria : list RegExp) (regex : RegExp)
    (html : chars) (filteredParts : list chars) : option (list chars) :=
  match fuel with
  | 0 => None
  | S fuel' =>
      match exec regex html with
      | (None, _) => Some filteredParts
      | (Some mt, regex') =>
          let closingSlash := interpolate (get_cap 1 (m_caps mt)) in
          let tagName := interpolate (get_cap 2 (m_caps mt)) in
          let attributes := interpolate (get_cap 3 (m_caps mt)) in
          let tag := "<" :: closingSlash ++ tagName ++ attributes ++ [">"] in
          let '(isRelevant, criteria') :=
            some_test criteria ("<" :: closingSlash ++ tagName) in
          filter_loop fuel' criteria' regex' html
            (if isRelevant then filteredParts ++ [tag] else filteredParts)
      end
  end.

(** [parts.join(sep)] *)
Fixpoint join (sep : chars) (parts : list chars) : chars :=
  match parts with
  | [] => []
  | [p] => p
  | p :: ps => p ++ sep ++ join sep ps
  end.

Definition filter_chars (html : chars) (criteria : list RegExp)
  : option chars :=
  let criteria :=
    if Nat.eqb (length criteria) 0 then [re_default_criterion] else criteria in
  match filter_loop (S (length html)) criteria re_tag html [] with
  | Some parts => Some (join [newline] parts)
  | None => None
  end.

Definition filterHTML (html : string) (criteria : list RegExp)
  : option string :=
  option_map string_of (filter_chars (chars_of html) criteria).

(** ** Declarative reading of the matcher *)

(** What one way of matching [r] does to a position. *)
Fixpoint reach (ic : bool) (r : regex) (x y : mstate) : Prop :=
  match r with
  | Eps => y = x
  | Chr c =>
      exists a t, rest x = a :: t /\ cls_match ic c a = true /\ y = advance a t x
  | Seq r1 r2 => exists z, reach ic r1 x z /\ reach ic r2 z y
  | Alt r1 r2 => reach ic r1 x y \/ reach ic r2 x y
  | Star _ c =>
      exists w, Forall (fun a => cls_match ic c a = true) w /\
                rest x = w ++ rest y /\ seen y = rev w ++ seen x /\
                caps y = caps x
  | Group n r1 => exists z, reach ic r1 x z /\ y = set_cap n x z
  | WordB => y = x /\ at_boundary x = true
  end.

(** The least number of characters a match of [r] takes. *)
Fixpoint min_len (r : regex) : nat :=
  match r with
  | Eps | Star _ _ | WordB => 0
  | Chr _ => 1
  | Seq r1 r2 => min_len r1 + min_len r2
  | Alt r1 r2 => Nat.min (min_len r1) (min_len r2)
  | Group _ r1 => min_len r1
  end.

(** [R.test(s)] on a fresh [R]: some substring of [s] matches the pattern. *)
Definition contains_match (R : RegExp) (s : chars) : bool :=
  match search (ignoreCase R) (source R) [] s with
  | Some _ => true
  | None => false
  end.

(** A text without [>]. *)
Definition no_gt (l : chars) : Prop := ~ In ">"%char l.

Local Close Scope char_scope.

(** * The page and its capture ([page.evaluate] in both scripts)

    The document the callback runs on is a tree of elements, text and
    comments.  An element carries the identity by which the NodeLists of the
    callback refer to it; template contents and shadow trees are not part of
    the model.  Tag and attribute names are the local names the parser
    produced (lower case for HTML). *)

#[local] Unset Elimination Schemes.
Inductive node :=
| Element (id : nat) (tag : string) (attrs : list (string * string))
          (children : list node)
| Text (data : string)
| Comment (data : string).
#[local] Set Elimination Schemes.

(** Induction over a tree, children included. *)
Fixpoint node_ind' (P : node -> Prop)
    (HE : forall i t a ch, Forall P ch -> P (Element i t a ch))
    (HT : forall d, P (Text d)) (HC : forall d, P (Comment d))
    (n : node) : P n :=
  match n with
  | Element i t a ch =>
      HE i t a ch
         ((fix go (l : list node) : Forall P l :=
             match l with
             | [] => List.Forall_nil P
             | c :: l' =>
                 List.Forall_cons P c l' (node_ind' P HE HT HC c) (go l')
             end) ch)
  | Text d => HT d
  | Comment d => HC d
  end.

Definition children_of (n : node) : list node :=
  match n with
  | Element _ _ _ ch => ch
  | _ => []
  end.

Definition has_id (i : nat) (n : node) : bool :=
  match n with
  | Element j _ _ _ => Nat.eqb j i
  | _ => false
  end.

Definition has_tag (names : list string) (n : node) : bool :=
  match n with
  | Element _ t _ _ => existsb (String.eqb t) names
  | _ => false
  end.

(** The elements of a subtree in tree order, its root first. *)
Fixpoint elements (n : node) : list node :=
  match n with
  | Element _ _ _ ch => n :: flat_map elements ch
  | _ => []
  end.

Definition descendants (n : node) : list node :=
  flat_map elements (children_of n).

Definition eid (n : node) : nat :=
  match n with
  | Element i _ _ _ => i
  | _ => 0
  end.

Definition ids (n : node) : list nat := map eid (elements n).

(** [document.querySelectorAll('*')]: a static list of every element. *)
Definition querySelectorAll_star (doc : node) : list nat := ids doc.

(** [e.querySelectorAll('t1, t2, ...')]: a static list of the descendants of
    [e] whose name is one of the type selectors, in tree order. *)
Definition querySelectorAll (selectors : list string) (e : node) : list nat :=
  map eid (List.filter (has_tag selectors) (descendants e)).

(** Rewriting the attribute lists of a tree. *)
Fixpoint map_attrs (f : nat -> list (string * string) -> list (string * string))
    (n : node) : node :=
  match n with
  | Element i t a ch => Element i t (f i a) (map (map_attrs f) ch)
  | _ => n
  end.

(** The first attribute of that name goes. *)
Fixpoint remove_attr (name : string) (a : list (string * string))
  : list (string * string) :=
  match a with
  | [] => []
  | (k, v) :: a' =>
      if String.eqb k name then a' else (k, v) :: remove_attr name a'
  end.

(** [element.removeAttribute(name)], on the element a NodeList entry names. *)
Definition removeAttribute (name : string) (element : nat) (doc : node) : node :=
  map_attrs (fun i a => if Nat.eqb i element then remove_attr name a else a) doc.

(** Detaching child nodes from a tree. *)
Fixpoint drop (dead : node -> bool) (n : node) : node :=
  match n with
  | Element i t a ch =>
      Element i t a
        ((fix drop_children (l : list node) : list node :=
            match l with
            | [] => []
            | c :: l' =>
                if dead c then drop_children l'
                else drop dead c :: drop_children l'
            end) ch)
  | _ => n
  end.

(** [el.remove()]: the element leaves its parent; one that sits in an already
    detached subtree is no longer found in the document, which stays as it is. *)
Definition remove (el : nat) (doc : node) : node := drop (has_id el) doc.

(** [document.body]: the first [body] or [frameset] child of the [html] root. *)
Definition is_body (n : node) : bool := has_tag ["body"; "frameset"] n.

Definition document_body (doc : node) : option node :=
  match doc with
  | Element _ t _ ch => if String.eqb t "html" then List.find is_body ch else None
  | _ => None
  end.

(** ** Serialization ([innerHTML]) *)

Definition amp : ascii := "&"%char.
Definition nbsp : ascii := "160"%char.

Fixpoint escape (attribute_mode : bool) (l : chars) : chars :=
  match l with
  | [] => []
  | c :: t =>
      (if Ascii.eqb c amp then chars_of "&amp;"
       else if Ascii.eqb c nbsp then chars_of "&nbsp;"
       else if attribute_mode then
         (if Ascii.eqb c dquote then chars_of "&quot;" else [c])
       else if Ascii.eqb c "<"%char then chars_of "&lt;"
       else if Ascii.eqb c ">"%char then chars_of "&gt;"
       else [c]) ++ escape attribute_mode t
  end.

Definition escape_string (attribute_mode : bool) (s : string) : string :=
  string_of (escape attribute_mode (chars_of s)).

Definition void_elements : list string :=
  ["area"; "base"; "basefont"; "bgsound"; "br"; "col"; "embed"; "frame"; "hr";
   "img"; "input"; "keygen"; "link"; "meta"; "param"; "source"; "track"; "wbr"].

(** Elements whose text children are written out as they are (scripting is
    on in the page, so [noscript] is one of them). *)
Definition raw_text_elements : list string :=
  ["style"; "script"; "xmp"; "iframe"; "noembed"; "noframes"; "plaintext";
   "noscript"].

Definition in_names (t : string) (names : list string) : bool :=
  existsb (String.eqb t) names.

Definition dq : string := String dquote EmptyString.

Fixpoint serialize_attrs (a : list (string * string)) : string :=
  match a with
  | [] => ""
  | (k, v) :: a' =>
      " " +:+ k +:+ "=" +:+ dq +:+ escape_string true v +:+ dq
      +:+ serialize_attrs a'
  end.

Definition concat_strings (l : list string) : string :=
  fold_right String.append "" l.

(** The fragment serialization of one node; [raw] tells whether its parent
    is a raw text element. *)
Fixpoint serialize (raw : bool) (n : node) : string :=
  match n with
  | Text d => if raw then d else escape_string false d
  | Comment d => "<!--" +:+ d +:+ "-->"
  | Element _ t a ch =>
      "<" +:+ t +:+ serialize_attrs a +:+ ">" +:+
      (if in_names t void_elements then ""
       else concat_strings (map (serialize (in_names t raw_text_elements)) ch)
            +:+ "</" +:+ t +:+ ">")
  end.

(** [e.innerHTML] *)
Definition innerHTML (e : node) : string :=
  match e with
  | Element _ t _ ch =>
      concat_strings (map (serialize (in_names t raw_text_elements)) ch)
  | _ => ""
  end.

(** * Values, errors and [JSON.parse] *)

(** What a [throw] carries: an instance of [Error] with its three fields, or
    any other value.  The stack text of an error the engine raises itself is
    not modelled and left empty. *)
Inductive thrown :=
| ErrorObject (name message stack : string)
| NonError (value : string).

Inductive result (A : Type) :=
| Ok (a : A)
| Throw (e : thrown).

Arguments Ok {A} a.
Arguments Throw {A} e.

Definition TypeError (message : string) : thrown :=
  ErrorObject "TypeError" message "".

Definition SyntaxError (message : string) : thrown :=
  ErrorObject "SyntaxError" message "".

(** A value that is a string or [undefined]. *)
Inductive value :=
| VString (s : string)
| VUndefined.

(** [String(v)], also what a template literal prints. *)
Definition to_string (v : value) : string :=
  match v with
  | VString s => s
  | VUndefined => "undefined"
  end.

(** ** JSON texts

    A parsed value keeps each number and each string as it was written (the
    digits, the escapes): what they denote is a function of that. *)
#[local] Unset Elimination Schemes.
Inductive json :=
| JNull
| JBool (b : bool)
| JNumber (lexeme : string)
| JString (raw : string)
| JArray (items : list json)
| JObject (members : list (string * json)).
#[local] Set Elimination Schemes.

Inductive token :=
| TLBrace | TRBrace | TLBracket | TRBracket | TColon | TComma
| TString (raw : chars)
| TNumber (lexeme : chars)
| TTrue | TFalse | TNull.

(** Where the scanner stands inside a number: an optional minus, then 0 or a
    digit run that does not start with 0, then an optional fraction (a dot and
    digits) and an optional exponent (e or E, an optional sign, digits). *)
Inductive num_state :=
| NMinus | NZero | NInt | NDot | NFrac | NExp | NExpSign | NExpDigits.

Inductive lex_mode :=
| LStart
| LString (acc : chars)
| LEscape (acc : chars)
| LUnicode (acc : chars) (n : nat)
| LNumber (acc : chars) (st : num_state)
| LLiteral (expect : chars) (tok : token).

Definition is_digit (c : ascii) : bool := in_range "0" "9" c.

Definition is_hex (c : ascii) : bool :=
  is_digit c || in_range "a" "f" c || in_range "A" "F" c.

Definition is_json_space (c : ascii) : bool :=
  match code c with
  | 9 | 10 | 13 | 32 => true
  | _ => false
  end.

Definition is_char (c : ascii) (s : string) : bool :=
  String.eqb (String c EmptyString) s.

Definition num_accepting (st : num_state) : bool :=
  match st with
  | NZero | NInt | NFrac | NExpDigits => true
  | _ => false
  end.

Definition num_step (st : num_state) (c : ascii) : option num_state :=
  match st with
  | NMinus =>
      if is_char c "0" then Some NZero
      else if is_digit c then Some NInt else None
  | NZero =>
      if is_char c "." then Some NDot
      else if is_char c "e" || is_char c "E" then Some NExp else None
  | NInt =>
      if is_digit c then Some NInt
      else if is_char c "." then Some NDot
      else if is_char c "e" || is_char c "E" then Some NExp else None
  | NDot => if is_digit c then Some NFrac else None
  | NFrac =>
      if is_digit c then Some NFrac
      else if is_char c "e" || is_char c "E" then Some NExp else None
  | NExp =>
      if is_char c "+" || is_char c "-" then Some NExpSign
      else if is_digit c then Some NExpDigits else None
  | NExpSign => if is_digit c then Some NExpDigits else None
  | NExpDigits => if is_digit c then Some NExpDigits else None
  end.

(** A character met between two tokens. *)
Definition lex_start (c : ascii) : option (lex_mode * list token) :=
  if is_json_space c then Some (LStart, [])
  else if is_char c "{" then Some (LStart, [TLBrace])
  else if is_char c "}" then Some (LStart, [TRBrace])
  else if is_char c "[" then Some (LStart, [TLBracket])
  else if is_char c "]" then Some (LStart, [TRBracket])
  else if is_char c ":" then Some (LStart, [TColon])
  else if is_char c "," then Some (LStart, [TComma])
  else if Ascii.eqb c dquote then Some (LString [], [])
  else if is_char c "-" then Some (LNumber [c] NMinus, [])
  else if is_char c "0" then Some (LNumber [c] NZero, [])
  else if is_digit c then Some (LNumber [c] NInt, [])
  else if is_char c "t" then Some (LLiteral (chars_of "rue") TTrue, [])
  else if is_char c "f" then Some (LLiteral (chars_of "alse") TFalse, [])
  else if is_char c "n" then Some (LLiteral (chars_of "ull") TNull, [])
  else None.

Definition lex_step (mode : lex_mode) (c : ascii)
  : option (lex_mode * list token) :=
  match mode with
  | LStart => lex_start c
  | LString acc =>
      if Ascii.eqb c dquote then Some (LStart, [TString (rev acc)])
      else if is_char c "\" then Some (LEscape (c :: acc), [])
      else if Nat.ltb (code c) 32 then None
      else Some (LString (c :: acc), [])
  | LEscape acc =>
      if Ascii.eqb c dquote || is_char c "\" || is_char c "/" || is_char c "b"
         || is_char c "f" || is_char c "n" || is_char c "r" || is_char c "t"
      then Some (LString (c :: acc), [])
      else if is_char c "u" then Some (LUnicode (c :: acc) 4, [])
      else None
  | LUnicode acc n =>
      if is_hex c then
        match n with
        | 0 | 1 => Some (LString (c :: acc), [])
        | S n' => Some (LUnicode (c :: acc) n', [])
        end
      else None
  | LNumber acc st =>
      match num_step st c with
      | Some st' => Some (LNumber (c :: acc) st', [])
      | None =>
          if num_accepting st then
            match lex_start c with
            | Some (mode', toks) => Some (mode', TNumber (rev acc) :: toks)
            | None => None
            end
          else None
      end
  | LLiteral expect tok =>
      match expect with
      | [e] => if Ascii.eqb c e then Some (LStart, [tok]) else None
      | e :: es => if Ascii.eqb c e then Some (LLiteral es tok, []) else None
      | [] => None
      end
  end.

Fixpoint lex (mode : lex_mode) (l : chars) : option (list token) :=
  match l with
  | [] =>
      match mode with
      | LStart => Some []
      | LNumber acc st =>
          if num_accepting st then Some [TNumber (rev acc)] else None
      | _ => None
      end
  | c :: t =>
      match lex_step mode c with
      | Some (mode', toks) =>
          match lex mode' t with
          | Some more => Some (toks ++ more)
          | None => None
          end
      | None => None
      end
  end.

(** The containers that are open while a text is read. *)
Inductive frame :=
| InArray (items : list json)
| InObject (members : list (string * json)) (key : option string).

Inductive parse_mode :=
| ExpectValue
| ExpectValueOrEnd
| ExpectKeyOrEnd
| ExpectKey
| ExpectColon
| ExpectCommaOrEnd
| Finished (v : json).

Definition push_value (v : json) (stack : list frame)
  : option (parse_mode * list frame) :=
  match stack with
  | [] => Some (Finished v, [])
  | InArray items :: st => Some (ExpectCommaOrEnd, InArray (v :: items) :: st)
  | InObject members (Some k) :: st =>
      Some (ExpectCommaOrEnd, InObject ((k, v) :: members) None :: st)
  | InObject _ None :: _ => None
  end.

Definition parse_value_token (tok : token) (stack : list frame)
  : option (parse_mode * list frame) :=
  match tok with
  | TNull => push_value JNull stack
  | TTrue => push_value (JBool true) stack
  | TFalse => push_value (JBool false) stack
  | TNumber n => push_value (JNumber (string_of n)) stack
  | TString s => push_value (JString (string_of s)) stack
  | TLBracket => Some (ExpectValueOrEnd, InArray [] :: stack)
  | TLBrace => Some (ExpectKeyOrEnd, InObject [] None :: stack)
  | _ => None
  end.

Definition close_array (stack : list frame) : option (parse_mode * list frame) :=
  match stack with
  | InArray items :: st => push_value (JArray (rev items)) st
  | _ => None
  end.

Definition close_object (stack : list frame) : option (parse_mode * list frame) :=
  match stack with
  | InObject members None :: st => push_value (JObject (rev members)) st
  | _ => None
  end.

Definition set_key (k : string) (stack : list frame)
  : option (parse_mode * list frame) :=
  match stack with
  | InObject members None :: st =>
      Some (ExpectColon, InObject members (Some k) :: st)
  | _ => None
  end.

Definition parse_step (mode : parse_mode) (stack : list frame) (tok : token)
  : option (parse_mode * list frame) :=
  match mode with
  | ExpectValue => parse_value_token tok stack
  | ExpectValueOrEnd =>
      match tok with
      | TRBracket => close_array stack
      | _ => parse_value_token tok stack
      end
  | ExpectKeyOrEnd =>
      match tok with
      | TRBrace => close_object stack
      | TString k => set_key (string_of k) stack
      | _ => None
      end
  | ExpectKey =>
      match tok with
      | TString k => set_key (string_of k) stack
      | _ => None
      end
  | ExpectColon =>
      match tok with
      | TColon => Some (ExpectValue, stack)
      | _ => None
      end
  | ExpectCommaOrEnd =>
      match tok, stack with
      | TComma, InArray _ :: _ => Some (ExpectValue, stack)
      | TComma, InObject _ None :: _ => Some (ExpectKey, stack)
      | TRBracket, _ => close_array stack
      | TRBrace, _ => close_object stack
      | _, _ => None
      end
  | Finished _ => None
  end.

Fixpoint parse_tokens (mode : parse_mode) (stack : list frame)
    (toks : list token) : option json :=
  match toks with
  | [] =>
      match mode with
      | Finished v => Some v
      | _ => None
      end
  | tok :: toks' =>
      match parse_step mode stack tok with
      | Some (mode', stack') => parse_tokens mode' stack' toks'
      | None => None
      end
  end.

(** [JSON.parse(text)] without a reviver: the value, or [None] where the
    engine throws a SyntaxError. *)
Definition JSON_parse (text : string) : option json :=
  match lex LStart (chars_of text) with
  | Some toks => parse_tokens ExpectValue [] toks
  | None => None
  end.

(** * The capture callback of [page.evaluate] *)

(** The callback both scripts hand to [page.evaluate]; they differ in the
    selector list only.  It returns what the script gets back and the
    document as the callback leaves it. *)
Definition capture (selectors : list string) (document : node)
  : result string * node :=
  let elements := querySelectorAll_star document in
  let document :=
    fold_left (fun d element => removeAttribute "style" element d)
              elements document in
  match document_body document with
  | None =>
      (Throw (TypeError
                "Cannot read properties of null (reading 'querySelectorAll')"),
       document)
  | Some body =>
      let headElements := querySelectorAll selectors body in
      let document :=
        fold_left (fun d el => remove el d) headElements document in
      match document_body document with
      | None =>
          (Throw (TypeError
                    "Cannot read properties of null (reading 'innerHTML')"),
           document)
      | Some body => (Ok (innerHTML body), document)
      end
  end.

(** What the claim about the capture says, in its own words: the style
    attribute gone from every element, every element of the listed names gone
    from below the body, and the body serialized. *)
Definition strip_styles (n : node) : node :=
  map_attrs (fun _ a => remove_attr "style" a) n.

Definition prune (names : list string) (n : node) : node :=
  drop (has_tag names) n.

Definition stripped_body_html (names : list string) (document : node)
  : option string :=
  match document_body document with
  | Some body => Some (innerHTML (prune names (strip_styles body)))
  | None => None
  end.

(** * One run and its world *)

Definition nl : string := String newline EmptyString.

(** [String.prototype.trim]: white space and line terminators leave both
    ends (those of the modelled range: TAB, LF, VT, FF, CR, SP, NBSP). *)
Definition is_js_space (c : ascii) : bool :=
  match code c with
  | 9 | 10 | 11 | 12 | 13 | 32 | 160 => true
  | _ => false
  end.

Fixpoint trim_start (l : chars) : chars :=
  match l with
  | c :: t => if is_js_space c then trim_start t else l
  | [] => []
  end.

Definition trim (s : string) : string :=
  string_of (rev (trim_start (rev (trim_start (chars_of s))))).

(** QuoteJSONString, which is [JSON.stringify] on a string. *)
Definition hex_digit (n : nat) : ascii :=
  ascii_of_nat (if Nat.ltb n 10 then 48 + n else 87 + n).

Definition quote_char (c : ascii) : chars :=
  if Ascii.eqb c dquote then chars_of "\" ++ [dquote]
  else match code c with
       | 92 => chars_of "\\"
       | 8 => chars_of "\b"
       | 9 => chars_of "\t"
       | 10 => chars_of "\n"
       | 12 => chars_of "\f"
       | 13 => chars_of "\r"
       | n =>
           if Nat.ltb n 32
           then chars_of "\u00" ++ [hex_digit (n / 16); hex_digit (n mod 16)]
           else [c]
       end.

Definition quote_json_string (s : string) : string :=
  string_of (dquote :: flat_map quote_char (chars_of s) ++ [dquote]).

(** The body of a [messages.create] call. *)
Record request := mkRequest {
  model : string;
  max_tokens : nat;
  temperature : QArith_base.Q;
  messages : list (string * string)   (* role, content *)
}.

(** The response: its content blocks, each with the [text] it may have. *)
Record message := mkMessage {
  content : list value
}.

(** The second argument of [console.error] in the handler. *)
Inductive logged :=
| LoggedFields (name message stack : string)
| LoggedValue (v : string).

(** What a run does to the outside, call by call, each with its outcome. *)
Inductive event :=
| Launch (r : result unit)                               (* chromium.launch *)
| NewPage (r : result unit)                              (* browser.newPage *)
| Goto (url : string) (r : result unit)                  (* page.goto *)
| Evaluate (document : result node) (r : result string)  (* page.evaluate *)
| ConsoleLog (args : list value)
| ConsoleError (label : string) (payload : logged)
| Create (req : request) (r : result message)            (* messages.create *)
| WriteFileSync (path : string) (data : value) (r : result unit)
| PageClose (r : result unit)
| BrowserClose (r : result unit).

(** How a write may end: done, or failed with the file left untouched
    ([None]) or holding something else. *)
Inductive write_outcome :=
| Written
| WriteFailed (e : thrown) (residue : option string).

(** The collaborators.  Each answer may depend on everything that has
    happened in the run so far. *)
Record world := mkWorld {
  launch_result : list event -> result unit;
  newPage_result : list event -> result unit;
  goto_result : list event -> string -> result unit;
  page_document : list event -> result node;
  create_result : list event -> request -> result message;
  write_result : list event -> string -> string -> write_outcome;
  page_close_result : list event -> result unit;
  browser_close_result : list event -> result unit
}.

Inductive Browser := TheBrowser.
Inductive Page := ThePage.

(** The state a run threads: what has happened, the files, and the two
    variables [runTest] declares before its [try]. *)
Record state := mkState {
  trace : list event;
  files : gmap string string;
  browser : option Browser;
  page : option Page
}.

Definition M (A : Type) : Type := state -> result A * state.

Definition ret {A} (a : A) : M A := fun s => (Ok a, s).

Definition throw {A} (e : thrown) : M A := fun s => (Throw e, s).

Definition bind {A B} (c : M A) (k : A -> M B) : M B :=
  fun s =>
    match c s with
    | (Ok a, s') => k a s'
    | (Throw e, s') => (Throw e, s')
    end.

Notation "x <- c ;; k" := (bind c (fun x => k))
  (at level 100, c at next level, right associativity).
Notation "c ;; k" := (bind c (fun _ => k))
  (at level 100, right associativity).

(** [try { body } catch (error) { handler } finally { cleanup }] *)
Definition try_catch_finally {A} (body : M A) (handler : thrown -> M A)
    (cleanup : M unit) : M A :=
  fun s =>
    let '(r, s1) := body s in
    let '(r', s2) :=
      match r with
      | Ok a => (Ok a, s1)
      | Throw e => handler e s1
      end in
    match cleanup s2 with
    | (Ok _, s3) => (r', s3)
    | (Throw e, s3) => (Throw e, s3)
    end.

Definition record (e : event) (s : state) : state :=
  mkState (trace s ++ [e]) (files s) (browser s) (page s).

(** An awaited call on a collaborator. *)
Definition call {A} (answer : list event -> result A)
    (ev : result A -> event) : M A :=
  fun s => let r := answer (trace s) in (r, record (ev r) s).

Definition emit (e : event) : M unit := fun s => (Ok tt, record e s).

Definition set_browser (b : option Browser) : M unit :=
  fun s => (Ok tt, mkState (trace s) (files s) b (page s)).

Definition set_page (p : option Page) : M unit :=
  fun s => (Ok tt, mkState (trace s) (files s) (browser s) p).

Definition get_browser : M (option Browser) := fun s => (Ok (browser s), s).
Definition get_page : M (option Page) := fun s => (Ok (page s), s).

Definition chromium_launch (w : world) : M Browser :=
  call (launch_result w) Launch ;; ret TheBrowser.

Definition browser_newPage (w : world) : M Page :=
  call (newPage_result w) NewPage ;; ret ThePage.

Definition page_goto (w : world) (url : string) : M unit :=
  call (fun h => goto_result w h url) (Goto url).

(** What the script sees of an error thrown inside the page: an [Error]
    whose message names the call and the error. *)
Definition evaluation_error (e : thrown) : thrown :=
  match e with
  | ErrorObject name message stack =>
      ErrorObject "Error" ("page.evaluate: " +:+ name +:+ ": " +:+ message) stack
  | NonError v => ErrorObject "Error" ("page.evaluate: " +:+ v) ""
  end.

Definition returned_to_script (r : result string) : result string :=
  match r with
  | Ok v => Ok v
  | Throw e => Throw (evaluation_error e)
  end.

(** [page.evaluate(callback)]: the callback runs on the document the page
    holds; what it returns or throws comes back to the script. *)
Definition page_evaluate (w : world) (callback : node -> result string * node)
  : M string :=
  fun s =>
    let d := page_document w (trace s) in
    let r := match d with
             | Ok document => returned_to_script (fst (callback document))
             | Throw e => Throw e
             end in
    (r, record (Evaluate d r) s).

Definition page_close (w : world) : M unit :=
  call (page_close_result w) PageClose.

Definition browser_close (w : world) : M unit :=
  call (browser_close_result w) BrowserClose.

Definition console_log (args : list value) : M unit := emit (ConsoleLog args).

Definition console_error (label : string) (payload : logged) : M unit :=
  emit (ConsoleError label payload).

Definition messages_create (w : world) (req : request) : M message :=
  call (fun h => create_result w h req) (Create req).

Definition invalid_data_message : string :=
  "The " +:+ dq +:+ "data" +:+ dq +:+ " argument must be of type string or an "
  +:+ "instance of Buffer, TypedArray, or DataView. Received undefined".

(** [fs.writeFileSync(path, data, 'utf8')]: data that is no string is refused
    before the file is touched. *)
Definition writeFileSync (w : world) (path : string) (data : value) : M unit :=
  fun s =>
    match data with
    | VUndefined =>
        let e := TypeError invalid_data_message in
        (Throw e, record (WriteFileSync path data (Throw e)) s)
    | VString d =>
        match write_result w (trace s) path d with
        | Written =>
            (Ok tt,
             mkState (trace s ++ [WriteFileSync path data (Ok tt)])
                     (<[path := d]> (files s)) (browser s) (page s))
        | WriteFailed e residue =>
            (Throw e,
             mkState (trace s ++ [WriteFileSync path data (Throw e)])
                     (match residue with
                      | Some c => <[path := c]> (files s)
                      | None => files s
                      end) (browser s) (page s))
        end
    end.

(** [msg.content[0].text] *)
Definition content_0_text (msg : message) : M value :=
  match content msg with
  | [] => throw (TypeError "Cannot read properties of undefined (reading 'text')")
  | block :: _ => ret block
  end.

(** The handler both scripts have in their [catch]. *)
Definition log_failure (error : thrown) : M unit :=
  match error with
  | ErrorObject name message stack =>
      console_error "Test failed:" (LoggedFields name message stack)
  | NonError v => console_error "Test failed:" (LoggedValue v)
  end.

(** The [finally] both scripts have. *)
Definition cleanup (w : world) : M unit :=
  p <- get_page ;;
  (match p with Some _ => page_close w | None => ret tt end) ;;
  b <- get_browser ;;
  match b with Some _ => browser_close w | None => ret tt end.

Definition initial_state (fs : gmap string string) : state :=
  mkState [] fs None None.

(** * src/test-generatior.ts *)
Module TestGenerator.

Definition model_id : string := "claude-3-5-sonnet-20240620".

(** The template literal of the first request (test-generatior.ts, lines 46-81). *)
Definition extract_prompt (html testName : string) : string :=
  concat_strings [
    "Extract the html tags (<p> <input<button>, <div>, <form>, <label";
      ">, <textarea>, <select>, <a>, <img>, <span>, <h1>, <h2>, <h3>, <";
      "h4>, <h5>, <h6> ...etc) with its identifiers (e.g. id, test-id, ";
      "class name, role, value, placeholder, text, name) for testing pu";
      "rposes with playwright automation testing for the {test-senario}";
      " on the following HTML. Strictly follow the {rules}. Make sure t";
      "he response is valid JSON, nothing else."; nl;
    "          html: "; html; ". "; nl;
    "          test-senario: "; testName; "."; nl;
    "          rules: "; nl;
    "            1. Only return the HTML tags and their identifiers t";
      "hat is needed for the playwright test. "; nl;
    "            2. Return the tags in the order they appear in the H";
      "TML. "; nl;
    "            3. Only return the required tags, nothing else."; nl;
    "            4. Return in JSON format. "; nl;
    nl;
    "          example output:"; nl;
    "          {"; nl;
    "            "; dq; "tags"; dq; ": ["; nl;
    "              {"; nl;
    "                "; dq; "test_step"; dq; ": "; dq;
      "search for the term "; dq; "AI in healthcare"; dq; dq; ","; nl;
    "                "; dq; "tag"; dq; ": "; dq; "input"; dq; ","; nl;
    "                "; dq; "id"; dq; ": "; dq; "search"; dq; ","; nl;
    "                "; dq; "class"; dq; ": "; dq; "form-control"; dq; ",";
      nl;
    "                "; dq; "required"; dq; ": true,"; nl;
    "                "; dq; "role"; dq; ": "; dq; "button"; dq; " || null,";
      nl;
    "                "; dq; "value"; dq; ": "; dq; "your search term"; dq;
      " || null,"; nl;
    "                "; dq; "text"; dq; ": "; dq; "your search term"; dq;
      " || null,"; nl;
    "                "; dq; "name"; dq; ": "; dq; "your search term"; dq;
      " || null"; nl;
    "              },"; nl;
    "              {"; nl;
    "                "; dq; "test_step"; dq; ": "; dq;
      "click the search button"; dq; ","; nl;
    "                "; dq; "tag"; dq; ": "; dq; "button"; dq; ","; nl;
    "                "; dq; "id"; dq; ": "; dq; "search-button"; dq; ","; nl;
    "                "; dq; "class"; dq; ": "; dq; "btn btn-primary"; dq;
      ","; nl;
    "                "; dq; "required"; dq; ": true,"; nl;
    "                "; dq; "role"; dq; ": "; dq; "button"; dq; " || null,";
      nl;
    "                "; dq; "value"; dq; ": "; dq; "search"; dq; " || null,";
      nl;
    "                "; dq; "text"; dq; ": "; dq; "Search"; dq; " || null,";
      nl;
    "                "; dq; "name"; dq; ": "; dq; "search"; dq; " || null";
      nl;
    "              }"; nl;
    "            ]"; nl;
    "          }"
  ].

(** The template literal of the second request (test-generatior.ts, lines 118-145). *)
Definition generate_prompt (testSenario data : string) : string :=
  concat_strings [
    "Generate Playwright test code based on the following {testingSen";
      "ario} and {testingData}. Strictly follow the {rules}. You can us";
      "e the {example output} as a reference."; nl;
    "        testing scenario: "; testSenario; nl;
    "        testing data: "; data; nl;
    "        rules: "; nl;
    "          1. only return the code, nothing else. "; nl;
    "          2. the code should be valid playwright code. "; nl;
    "          3. the code should be able to run without errors. "; nl;
    "          4.  return the playwright code in a function."; nl;
    "          5. Code should be returned as valid Playwright JavaScr";
      "ipt."; nl;
    "          6. Do not include any additional text, comments, or ex";
      "planations before or after the code (for example, do not include";
      " "; dq;
      "Here's the Playwright test code based on the provided testing sc";
      "enario and data:"; dq; " or any other introductory text)."; nl;
    "          7. The code must be in a function format."; nl;
    "          8. Ensure that the code runs without errors."; nl;
    "          9. code should have all the needed imports."; nl;
    "          10. code should have the export keyword."; nl;
    "          11. The function should be named test."; nl;
    "          12. The function should be async."; nl;
    "        example output:"; nl;
    "          "; dq; "import { chromium } from 'playwright';"; nl;
    "          export const test = async () => {"; nl;
    "            const browser = await chromium.launch();"; nl;
    "            const page = await browser.newPage();"; nl;
    "            await page.goto('https://www.facebook.com');"; nl;
    nl;
    "            await page.fill('#email', 'your_email@example.com');"; nl;
    "            await page.fill('#pass', 'your_password');"; nl;
    "            await page.click('#u_0_5_9v');"; nl;
    "          };"; dq; nl;
    "        "
  ].


Definition request_of (prompt : string) : request :=
  mkRequest model_id 1000 (QArith_base.Qmake 1 2) [("user", prompt)].

(** [JSON.stringify(parsedData)] printed by the template: the argument is
    the text of the first response, a string or [undefined]. *)
Definition stringify_data (parsedData : value) : string :=
  match parsedData with
  | VString s => quote_json_string s
  | VUndefined => "undefined"
  end.

Definition generatePlaywrightCode (w : world) (parsedData : value)
    (testSenario : string) : M unit :=
  msg <- messages_create w
           (request_of (generate_prompt testSenario (stringify_data parsedData))) ;;
  playwrightCode <- content_0_text msg ;;
  console_log [VString "playwrightCode"; playwrightCode] ;;
  writeFileSync w "src/test.ts" playwrightCode ;;
  console_log [VString "Playwright code saved to test.ts"].

Definition selectors : list string := ["link"; "script"; "style"; "svg"; "meta"].

(** The [try] block of [runTest]. *)
Definition runTest_try (w : world) (url testName : string) : M unit :=
  b <- chromium_launch w ;;
  set_browser (Some b) ;;
  p <- browser_newPage w ;;
  set_page (Some p) ;;
  page_goto w url ;;
  bodyHtml <- page_evaluate w (capture selectors) ;;
  console_log [VString "bodyHtml"; VString bodyHtml] ;;
  msg <- messages_create w
           (request_of (extract_prompt (trim bodyHtml) testName)) ;;
  contentText <- content_0_text msg ;;
  generatePlaywrightCode w contentText testName.

Definition runTest (w : world) (url testName : string) : M unit :=
  set_browser None ;;
  set_page None ;;
  try_catch_finally (runTest_try w url testName) log_failure (cleanup w).

(** The call at the end of the file. *)
Definition url : string := "https://www.youtube.com/".
Definition testName : string :=
  "search for " +:+ dq +:+ "AI in healthcare" +:+ dq.

Definition main (w : world) : M unit := runTest w url testName.

End TestGenerator.

(** * src/tester.ts *)
Module Tester.

Definition model_id : string := "claude-3-haiku-20240307".

(** The template literal of the first request (tester.ts, lines 46-73). *)
Definition extract_prompt (html testName : string) : string :=
  concat_strings [
    "Extract the html tags (<p> <input<button>, <div>, <form>, <label";
      ">, <textarea>, <select>, <a>, <img>, <span>, <h1>, <h2>, <h3>, <";
      "h4>, <h5>, <h6> ...etc) with its identifiers (like ids, test ids";
      ", class names, roles, values, placeholders or whatever is needed";
      ") for testing purposes with playwright automation testing for th";
      "e {test-senario} on the following HTML. Strictly follow the {rul";
      "es}. Make sure the response is valid JSON, nothing else."; nl;
    "          html: "; html; ". "; nl;
    "          test-senario: "; testName; "."; nl;
    "          rules: 1. Only return the HTML tags and their identifi";
      "ers that is needed for the test. 2. Return in JSON format. 3. Re";
      "turn the tags in the order they appear in the HTML. 3. flag the ";
      "tags that are required for the test to pass. 4. only return the ";
      "required tages, nothing else."; nl;
    "          example output:"; nl;
    "          {"; nl;
    "            "; dq; "tags"; dq; ": ["; nl;
    "              {"; nl;
    "                "; dq; "test_step"; dq; ": "; dq; "step 1"; dq; ","; nl;
    "                "; dq; "tag"; dq; ": "; dq; "input"; dq; ","; nl;
    "                "; dq; "id"; dq; ": "; dq; "username"; dq; ","; nl;
    "                "; dq; "class"; dq; ": "; dq; "form-control"; dq; ",";
      nl;
    "                "; dq; "required"; dq; ": true"; nl;
    "                "; dq; "role"; dq; ": "; dq; "input"; dq; " || null,";
      nl;
    "                "; dq; "value"; dq; ": "; dq; "username"; dq;
      " || null,"; nl;
    "                "; dq; "placeholder"; dq; ": "; dq;
      "Enter your username"; dq; " || null"; nl;
    "              },"; nl;
    "              {"; nl;
    "                "; dq; "test_step"; dq; ": "; dq; "step 2"; dq; ","; nl;
    "                "; dq; "tag"; dq; ": "; dq; "button"; dq; ","; nl;
    "                "; dq; "id"; dq; ": "; dq; "submit"; dq; ","; nl;
    "                "; dq; "class"; dq; ": "; dq; "btn btn-primary"; dq;
      ","; nl;
    "                "; dq; "required"; dq; ": true"; nl;
    "                "; dq; "role"; dq; ": "; dq; "button"; dq; " || null,";
      nl;
    "                "; dq; "value"; dq; ": "; dq; "Submit"; dq; " || null,";
      nl;
    "              }"; nl;
    "            ]"; nl;
    "          }"
  ].

(** The template literal of the second request (tester.ts, lines 115-131). *)
Definition generate_prompt (testSenario data : string) : string :=
  concat_strings [
    "Generate Playwright test code based on the following {testingSen";
      "ario} and {testingData}. Strictly follow the {rules}."; nl;
    "        testing scenario: "; testSenario; nl;
    "        testing data: "; data; nl;
    "        rules: 1. only return the code, nothing else. 2. the cod";
      "e should be valid playwright code. 3. the code should be able to";
      " run without errors. 4.  return the playwright code in a functio";
      "n."; nl;
    "        You should generate Playwright test code strictly follow";
      "ing these rules:"; nl;
    "        - Code should be returned as valid Playwright JavaScript"; ".";
      nl;
    "        - Do not include any additional text, comments, or expla";
      "nations before or after the code (for example, do not include "; dq;
      "Here's the Playwright test code based on the provided testing sc";
      "enario and data:"; dq; " or any other introductory text)."; nl;
    "        - The code must be in a function format."; nl;
    "        - Ensure that the code runs without errors."; nl;
    "        example output:"; nl;
    "        const test = async () => {"; nl;
    "          export const test = async () => {"; nl;
    "            const page = await browser.newPage();"; nl;
    "            ...more code"; nl;
    "          }"; nl;
    "        }"; nl;
    "        "
  ].


Definition request_of (prompt : string) : request :=
  mkRequest model_id 1000 (QArith_base.Qmake 1 2) [("user", prompt)].

Definition selectors : list string := ["link"; "script"; "style"].

(** [JSON.parse(contentText)]: the argument is turned into a string first. *)
Definition JSON_parse_value (contentText : value) : M json :=
  match JSON_parse (to_string contentText) with
  | Some v => ret v
  | None => throw (SyntaxError "Unexpected token in JSON")
  end.

Section Runtime.

(** [JSON.stringify] on a parsed value: the engine prints numbers through
    its floating-point formatting, which this development takes as given. *)
Variable JSON_stringify : json -> string.

Definition generatePlaywrightCode (w : world) (parsedData : json)
    (testSenario : string) : M unit :=
  msg <- messages_create w
           (request_of (generate_prompt testSenario (JSON_stringify parsedData))) ;;
  playwrightCode <- content_0_text msg ;;
  console_log [VString "playwrightCode"; playwrightCode] ;;
  writeFileSync w "src/test.ts" playwrightCode ;;
  console_log [VString "Playwright code saved to test.ts"].

(** The [try] block of [runTest]. *)
Definition runTest_try (w : world) (url testName : string) : M unit :=
  b <- chromium_launch w ;;
  set_browser (Some b) ;;
  p <- browser_newPage w ;;
  set_page (Some p) ;;
  page_goto w url ;;
  bodyHtml <- page_evaluate w (capture selectors) ;;
  console_log [VString "bodyHtml"; VString bodyHtml] ;;
  response <- messages_create w (request_of (extract_prompt bodyHtml testName)) ;;
  contentText <- content_0_text response ;;
  parsedData <- JSON_parse_value contentText ;;
  generatePlaywrightCode w parsedData testName.

Definition runTest (w : world) (url testName : string) : M unit :=
  set_browser None ;;
  set_page None ;;
  try_catch_finally (runTest_try w url testName) log_failure (cleanup w).

(** The call at the end of the file. *)
Definition main (w : world) : M unit :=
  runTest w "https://www.facebook.com" "login to facebook".

End Runtime.

End Tester.

(** * The two scripts side by side *)

Inductive script := test_generatior_ts | tester_ts.

Section Scripts.

Variable JSON_stringify : json -> string.

Definition selectors_of (sc : script) : list string :=
  match sc with
  | test_generatior_ts => TestGenerator.selectors
  | tester_ts => Tester.selectors
  end.

Definition try_of (sc : script) (w : world) (url testName : string) : M unit :=
  match sc with
  | test_generatior_ts => TestGenerator.runTest_try w url testName
  | tester_ts => Tester.runTest_try JSON_stringify w url testName
  end.

Definition runTest_of (sc : script) (w : world) (url testName : string)
  : M unit :=
  match sc with
  | test_generatior_ts => TestGenerator.runTest w url testName
  | tester_ts => Tester.runTest JSON_stringify w url testName
  end.

(** A run from a fresh state over the files [fs]. *)
Definition run (sc : script) (w : world) (url testName : string)
    (fs : gmap string string) : result unit * state :=
  runTest_of sc w url testName (initial_state fs).

(** The first request of a script for a captured text. *)
Definition extract_request (sc : script) (bodyHtml testName : string)
  : request :=
  match sc with
  | test_generatior_ts =>
      TestGenerator.request_of
        (TestGenerator.extract_prompt (trim bodyHtml) testName)
  | tester_ts => Tester.request_of (Tester.extract_prompt bodyHtml testName)
  end.

(** The second request of a script for the text of the first response;
    [None] where the script stops before it. *)
Definition generate_request (sc : script) (contentText : value)
    (testName : string) : option request :=
  match sc with
  | test_generatior_ts =>
      Some (TestGenerator.request_of
              (TestGenerator.generate_prompt testName
                 (TestGenerator.stringify_data contentText)))
  | tester_ts =>
      match JSON_parse (to_string contentText) with
      | Some parsedData =>
          Some (Tester.request_of
                  (Tester.generate_prompt testName
                     (JSON_stringify parsedData)))
      | None => None
      end
  end.

End Scripts.

(** * Reading a trace *)

Definition output_path : string := "src/test.ts".

(** The [messages.create] calls of a trace, in order. *)
Fixpoint creates (t : list event) : list (request * result message) :=
  match t with
  | [] => []
  | Create q r :: t' => (q, r) :: creates t'
  | _ :: t' => creates t'
  end.

(** The documents the capture ran on and the texts it returned. *)
Fixpoint captures (t : list event) : list (result node * result string) :=
  match t with
  | [] => []
  | Evaluate d r :: t' => (d, r) :: captures t'
  | _ :: t' => captures t'
  end.

Fixpoint writes (t : list event) : list (string * value * result unit) :=
  match t with
  | [] => []
  | WriteFileSync p d r :: t' => (p, d, r) :: writes t'
  | _ :: t' => writes t'
  end.

Fixpoint logged_failures (t : list event) : list logged :=
  match t with
  | [] => []
  | ConsoleError _ l :: t' => l :: logged_failures t'
  | _ :: t' => logged_failures t'
  end.

(** What the handler prints for a thrown value. *)
Definition payload_of (e : thrown) : logged :=
  match e with
  | ErrorObject name message stack => LoggedFields name message stack
  | NonError v => LoggedValue v
  end.

Definition is_close (e : event) : bool :=
  match e with
  | PageClose _ | BrowserClose _ => true
  | _ => false
  end.

(** An awaited call that threw. *)
Definition failed (e : event) : bool :=
  match e with
  | Launch (Throw _) | NewPage (Throw _) | Goto _ (Throw _)
  | Evaluate _ (Throw _) | Create _ (Throw _) | WriteFileSync _ _ (Throw _)
  | PageClose (Throw _) | BrowserClose (Throw _) => true
  | _ => false
  end.

(** What follows an error: the handler's line and the cleanup. *)
Definition is_aftermath (e : event) : bool :=
  match e with
  | ConsoleError _ _ | PageClose _ | BrowserClose _ => true
  | _ => false
  end.

Definition count_events (P : event -> bool) (t : list event) : nat :=
  length (List.filter P t).

Definition is_launch (e : event) : bool :=
  match e with Launch _ => true | _ => false end.
Definition is_newPage (e : event) : bool :=
  match e with NewPage _ => true | _ => false end.
Definition is_goto (e : event) : bool :=
  match e with Goto _ _ => true | _ => false end.
Definition is_evaluate (e : event) : bool :=
  match e with Evaluate _ _ => true | _ => false end.
Definition is_create (e : event) : bool :=
  match e with Create _ _ => true | _ => false end.
Definition is_write (e : event) : bool :=
  match e with WriteFileSync _ _ _ => true | _ => false end.
Definition is_page_close (e : event) : bool :=
  match e with PageClose _ => true | _ => false end.
Definition is_browser_close (e : event) : bool :=
  match e with BrowserClose _ => true | _ => false end.

(** Which of the two resources a trace leaves open: a successful launch or
    [newPage] opens, a successful close closes, and closing the browser
    closes its page. *)
Record resources := mkResources {
  browser_open : bool;
  page_open : bool
}.

Definition after_event (o : resources) (e : event) : resources :=
  match e with
  | Launch (Ok _) => mkResources true (page_open o)
  | NewPage (Ok _) => mkResources (browser_open o) true
  | PageClose (Ok _) => mkResources (browser_open o) false
  | BrowserClose (Ok _) => mkResources false false
  | _ => o
  end.

Definition left_open (t : list event) : resources :=
  fold_left after_event t (mkResources false false).

Arguments TestGenerator.extract_prompt : simpl never.
Arguments TestGenerator.generate_prompt : simpl never.
Arguments Tester.extract_prompt : simpl never.
Arguments Tester.generate_prompt : simpl never.
Arguments TestGenerator.stringify_data : simpl never.
Arguments capture : simpl never.
Arguments trim : simpl never.
Arguments JSON_parse : simpl never.
Arguments to_string : simpl never.

Definition is_launch_ok (e : event) : bool :=
  match e with Launch (Ok _) => true | _ => false end.
Definition is_newPage_ok (e : event) : bool :=
  match e with NewPage (Ok _) => true | _ => false end.

(** A close that did not throw, or any other event. *)
Definition close_ok (e : event) : bool := negb (is_close e && failed e).

(** A run whose [try] block came to its end: the handler printed nothing. *)
Definition succeeded (t : list event) : Prop := logged_failures t = [].

Definition is_goto_ok (e : event) : bool :=
  match e with Goto _ (Ok _) => true | _ => false end.
Definition is_evaluate_ok (e : event) : bool :=
  match e with Evaluate _ (Ok _) => true | _ => false end.
Definition is_create_ok (e : event) : bool :=
  match e with Create _ (Ok _) => true | _ => false end.
Definition is_page_close_ok (e : event) : bool :=
  match e with PageClose (Ok _) => true | _ => false end.

(** ** Checks that run along a trace *)

(** [ok before e] holds at every event [e], [before] being what came first. *)
Fixpoint each_step (ok : list event -> event -> bool) (before t : list event)
  : bool :=
  match t with
  | [] => true
  | e :: t' => ok before e && each_step ok (before ++ [e]) t'
  end.

(** The order of the pipeline: what must have returned before a call. *)
Definition step_allowed (before : list event) (e : event) : bool :=
  match e with
  | NewPage _ => existsb is_launch_ok before
  | Goto _ _ => existsb is_newPage_ok before
  | Evaluate _ _ => existsb is_goto_ok before
  | Create _ _ =>
      existsb is_evaluate_ok before &&
      Nat.eqb (count_events is_create before)
              (count_events is_create_ok before)
  | WriteFileSync _ _ _ => Nat.eqb (count_events is_create_ok before) 2
  | _ => true
  end.

(** Once a call has thrown, only the handler's line and the cleanup follow. *)
Definition stops_after_failure (before : list event) (e : event) : bool :=
  implb (existsb failed before) (is_aftermath e).

(** The close calls are the last events of a trace. *)
Fixpoint closes_last (t : list event) : bool :=
  match t with
  | [] => true
  | e :: t' => if is_close e then forallb is_close t' else closes_last t'
  end.

(** No call site is visited twice. *)
Definition once_each (t : list event) : bool :=
  Nat.leb (count_events is_launch t) 1 &&
  Nat.leb (count_events is_newPage t) 1 &&
  Nat.leb (count_events is_goto t) 1 &&
  Nat.leb (count_events is_evaluate t) 1 &&
  Nat.leb (count_events is_create t) 2 &&
  Nat.leb (count_events is_write t) 1 &&
  Nat.leb (count_events is_page_close t) 1 &&
  Nat.leb (count_events is_browser_close t) 1.

Definition nothing_open (o : resources) : bool :=
  negb (browser_open o) && negb (page_open o).

(** What is opened is closed, as far as the close calls return. *)
Definition resource_check (t : list event) : bool :=
  Nat.leb (count_events is_launch_ok t) 1 &&
  Nat.leb (count_events is_newPage_ok t) 1 &&
  implb (existsb is_newPage_ok t) (existsb is_page_close t) &&
  implb (existsb is_launch_ok t &&
         implb (existsb is_newPage_ok t) (existsb is_page_close_ok t))
        (existsb is_browser_close t) &&
  implb (forallb close_ok t) (nothing_open (left_open t)).

Definition write_path_ok (x : string * value * result unit) : bool :=
  String.eqb (fst (fst x)) output_path.

Definition trace_ok (t : list event) : bool :=
  each_step step_allowed [] t &&
  each_step stops_after_failure [] t &&
  closes_last t && once_each t && resource_check t &&
  forallb write_path_ok (writes t).

(** * Test points: a page and some worlds *)

(** A printer for parsed values that writes numbers and strings as they were
    read; it stands for [JSON.stringify] where an example needs one. *)
Fixpoint compact (v : json) : string :=
  match v with
  | JNull => "null"
  | JBool true => "true"
  | JBool false => "false"
  | JNumber n => n
  | JString s => dq +:+ s +:+ dq
  | JArray items =>
      "[" +:+
      (fix go (first : bool) (l : list json) : string :=
         match l with
         | [] => ""
         | x :: l' => (if first then "" else ",") +:+ compact x +:+ go false l'
         end) true items
      +:+ "]"
  | JObject members =>
      "{" +:+
      (fix go (first : bool) (l : list (string * json)) : string :=
         match l with
         | [] => ""
         | (k, x) :: l' =>
             (if first then "" else ",") +:+ dq +:+ k +:+ dq +:+ ":"
             +:+ compact x +:+ go false l'
         end) true members
      +:+ "}"
  end.

(** A page with a styled body, an inline drawing, a script and a style
    sheet link. *)
Definition sample_page : node :=
  Element 0 "html" []
    [Element 1 "head" [] [Element 2 "meta" [("charset", "utf-8")] []];
     Element 3 "body" [("style", "margin:0")]
       [Element 4 "div" [("id", "m"); ("style", "color:red")]
          [Element 5 "svg" [] [Element 6 "style" [] [Text "a>b"]];
           Element 7 "script" [] [Text "1 < 2"];
           Element 8 "input" [("name", "q")] []];
        Element 9 "link" [("rel", "stylesheet")] []]].

(** A page whose body holds one drawing. *)
Definition drawing_page : node :=
  Element 0 "html" [] [Element 1 "body" [] [Element 2 "svg" [] []]].

(** Every call succeeds; the first response carries [text1], every later one
    [text2]. *)
Definition world_ok (document : node) (text1 text2 : value) : world :=
  mkWorld (fun _ => Ok tt) (fun _ => Ok tt) (fun _ _ => Ok tt)
          (fun _ => Ok document)
          (fun h _ => match creates h with
                      | [] => Ok (mkMessage [text1])
                      | _ => Ok (mkMessage [text2])
                      end)
          (fun _ _ _ => Written) (fun _ => Ok tt) (fun _ => Ok tt).

Definition net_error : thrown :=
  ErrorObject "Error" "page.goto: net::ERR_NAME_NOT_RESOLVED" "".

Definition close_error : thrown :=
  ErrorObject "Error" "page.close: Protocol error" "".

Definition launch_error : thrown :=
  ErrorObject "Error" "browserType.launch: Executable doesn't exist" "".

(** The browser cannot be started. *)
Definition world_no_browser : world :=
  mkWorld (fun _ => Throw launch_error) (fun _ => Ok tt) (fun _ _ => Ok tt)
          (fun _ => Ok sample_page)
          (fun _ _ => Ok (mkMessage []))
          (fun _ _ _ => Written) (fun _ => Ok tt) (fun _ => Ok tt).

(** The navigation fails. *)
Definition world_no_route : world :=
  mkWorld (fun _ => Ok tt) (fun _ => Ok tt) (fun _ _ => Throw net_error)
          (fun _ => Ok sample_page)
          (fun _ _ => Ok (mkMessage []))
          (fun _ _ _ => Written) (fun _ => Ok tt) (fun _ => Ok tt).

(** The navigation fails, and then closing the page fails too. *)
Definition world_no_route_no_close : world :=
  mkWorld (fun _ => Ok tt) (fun _ => Ok tt) (fun _ _ => Throw net_error)
          (fun _ => Ok sample_page)
          (fun _ _ => Ok (mkMessage []))
          (fun _ _ _ => Written) (fun _ => Throw close_error) (fun _ => Ok tt).

(** As [world_ok], but the model tells its first call from the later ones by
    how much has happened before. *)
Definition world_by_length (document : node) (text1 text2 : value) : world :=
  mkWorld (fun _ => Ok tt) (fun _ => Ok tt) (fun _ _ => Ok tt)
          (fun _ => Ok document)
          (fun h _ => if Nat.ltb (length h) 6 then Ok (mkMessage [text1])
                      else Ok (mkMessage [text2]))
          (fun _ _ _ => Written) (fun _ => Ok tt) (fun _ => Ok tt).

Definition disk_error : thrown :=
  ErrorObject "Error" "ENOSPC: no space left on device, write" "".

(** As [world_ok], but the disk is full: the write fails and leaves no
    file. *)
Definition world_disk_full (document : node) (text1 text2 : value) : world :=
  mkWorld (fun _ => Ok tt) (fun _ => Ok tt) (fun _ _ => Ok tt)
          (fun _ => Ok document)
          (fun h _ => match creates h with
                      | [] => Ok (mkMessage [text1])
                      | _ => Ok (mkMessage [text2])
                      end)
          (fun _ _ _ => WriteFailed disk_error None)
          (fun _ => Ok tt) (fun _ => Ok tt).

(** The arguments the two files call [runTest] with. *)
Definition youtube : string := TestGenerator.url.
Definition search_scenario : string := TestGenerator.testName.
Definition facebook : string := "https://www.facebook.com".
Definition login_scenario : string := "login to facebook".

(** The answers of a model that does as it is asked, and of one that does not. *)
Definition json_answer : value := VString ("{" +:+ dq +:+ "tags" +:+ dq +:+ ": []}").
Definition prose_answer : value := VString "Here are the tags you asked for".
Definition code_answer : value := VString "export const test = async () => {};".

(** * More readings of a trace *)

(** The lines [console.log] printed, in order. *)
Fixpoint logs (t : list event) : list (list value) :=
  match t with
  | [] => []
  | ConsoleLog args :: t' => args :: logs t'
  | _ :: t' => logs t'
  end.

(** The urls the page was sent to. *)
Fixpoint gotos (t : list event) : list string :=
  match t with
  | [] => []
  | Goto u _ :: t' => u :: gotos t'
  | _ :: t' => gotos t'
  end.

(** The last line of [generatePlaywrightCode]. *)
Definition saved_line : list value :=
  [VString "Playwright code saved to test.ts"].

Definition model_of (sc : script) : string :=
  match sc with
  | test_generatior_ts => TestGenerator.model_id
  | tester_ts => Tester.model_id
  end.

(** What reading [.text] of the first block of an empty [content] throws. *)
Definition no_block_error : thrown :=
  TypeError "Cannot read properties of undefined (reading 'text')".

(** The output tokens a trace asked the model for. *)
Definition tokens_asked (t : list event) : nat :=
  list_sum (map (fun c => max_tokens (fst c)) (creates t)).

(** Every call succeeds; the model answers with [m1] first and with [m2]
    afterwards. *)
Definition world_replies (document : node) (m1 m2 : message) : world :=
  mkWorld (fun _ => Ok tt) (fun _ => Ok tt) (fun _ _ => Ok tt)
          (fun _ => Ok document)
          (fun h _ => match creates h with
                      | [] => Ok m1
                      | _ => Ok m2
                      end)
          (fun _ _ _ => Written) (fun _ => Ok tt) (fun _ => Ok tt).

(** ** Pages as a browser builds them *)

Definition attrs_of (n : node) : list (string * string) :=
  match n with
  | Element _ _ a _ => a
  | _ => []
  end.

(** No element carries two attributes of the same name. *)
Definition unique_attrs (doc : node) : Prop :=
  Forall (fun c => NoDup (map fst (attrs_of c))) (elements doc).

(** What the callback throws on a page without a body. *)
Definition no_body_error : thrown :=
  TypeError "Cannot read properties of null (reading 'querySelectorAll')".

(** * More of playwrite_test_auto-1.md *)

(** ** Classes and criteria *)

(** All code units of the model. *)
Definition all_chars : chars := map ascii_of_nat (seq 0 256).

(** A negated class whose characters are no letters, written as
    the class of all other code units (which the [i] flag leaves as it is,
    no letter being left out). *)
Definition none_of (cs : chars) : cls :=
  COneOf (List.filter (fun a => negb (existsb (Ascii.eqb a) cs)) all_chars).

(** The class of the two quote characters, and its complement. *)
Definition quote : cls := COneOf [dquote; squote].
Definition not_quote : cls := none_of [dquote; squote].

(** An attribute with a quoted value that is not empty: the name, [=], a
    quote of either kind, one or more characters that are no quotes, and
    again a quote of either kind. *)
Definition quoted_attribute (name : string) : list regex :=
  [lit (name +:+ "="); Chr quote; plus not_quote; Chr quote].

(** The [filterCriteria] of the document's [src/main.ts], all with the
    flags [gi]: an [input] tag with a quoted [data-testid], a [button] tag
    with one, any [form] tag, and a [div] tag whose [id] is [modal] in quotes;
    each reads the tag name, a word boundary, characters other than [>] and
    at last the [>]. *)
Definition re_input_testid : RegExp :=
  mkRegExp (seqs ([lit "<input"; WordB; Star true not_gt]
                  ++ quoted_attribute "data-testid"
                  ++ [Star true not_gt; Chr (CChar ">"%char)])) true true 0.

Definition re_button_testid : RegExp :=
  mkRegExp (seqs ([lit "<button"; WordB; Star true not_gt]
                  ++ quoted_attribute "data-testid"
                  ++ [Star true not_gt; Chr (CChar ">"%char)])) true true 0.

Definition re_form : RegExp :=
  mkRegExp (seqs [lit "<form"; WordB; Star true not_gt; Chr (CChar ">"%char)])
           true true 0.

Definition re_div_modal : RegExp :=
  mkRegExp (seqs [lit "<div"; WordB; Star true not_gt; lit "id=";
                  Chr quote; lit "modal"; Chr quote; Star true not_gt;
                  Chr (CChar ">"%char)]) true true 0.

Definition main_ts_filterCriteria : list RegExp :=
  [re_input_testid; re_button_testid; re_form; re_div_modal].

(** A pattern every match of which contains a [>]: read off its syntax. *)
Fixpoint needs_gt (r : regex) : bool :=
  match r with
  | Chr (CChar c) => Ascii.eqb c ">"%char
  | Seq r1 r2 => needs_gt r1 || needs_gt r2
  | Alt r1 r2 => needs_gt r1 && needs_gt r2
  | Group _ r1 => needs_gt r1
  | _ => false
  end.

(** A text without [<]. *)
Definition no_lt (l : chars) : Prop := ~ In "<"%char l.


(** ** Patterns that do not look around *)

(** No word boundary in the pattern: whether it matches at a position then
    depends on the text ahead only. *)
Fixpoint no_wordb (r : regex) : bool :=
  match r with
  | Eps | Chr _ | Star _ _ => true
  | Seq r1 r2 | Alt r1 r2 => no_wordb r1 && no_wordb r2
  | Group _ r1 => no_wordb r1
  | WordB => false
  end.

(** The same position with the text [d] in front of what was passed. *)
Definition shift (d : chars) (x : mstate) : mstate :=
  MState (seen x ++ d) (rest x) (caps x).

(** The same position with the text [l] behind what is ahead. *)
Definition extend (l : chars) (x : mstate) : mstate :=
  MState (seen x) (rest x ++ l) (caps x).

(** * The workflow of playwrite_test_auto-1.md

    [src/htmlProcessor.ts], [src/testGenerator.ts] and [src/main.ts] as the
    document gives them, over a world of their own: the page is clicked,
    filled and read as a text here. *)

(** [s.includes(search)] *)
Fixpoint starts_with (p l : chars) : bool :=
  match p, l with
  | [], _ => true
  | a :: p', b :: l' => Ascii.eqb a b && starts_with p' l'
  | _ :: _, [] => false
  end.

Fixpoint includes_chars (l search : chars) : bool :=
  starts_with search l ||
  match l with
  | [] => false
  | _ :: t => includes_chars t search
  end.

Definition includes (s search : string) : bool :=
  includes_chars (chars_of s) (chars_of search).

(** [new Error(message)] *)
Definition Error (message : string) : thrown := ErrorObject "Error" message "".

(** [criteria.some(criterion => criterion.test(s))] again, for its answer. *)
Definition some_matches (criteria : list RegExp) (s : string) : bool :=
  fst (some_test criteria (chars_of s)).

(** [filterHTML] as a function of its arguments: its loop always ends. *)
Definition filterHTML_value (html : string) (criteria : list RegExp) : string :=
  match filterHTML html criteria with
  | Some out => out
  | None => ""
  end.

(** ** [isElementRelevant] *)

(** The four patterns, each a quoted attribute under the flag [i]. *)
Definition relevanceCriteria : list RegExp :=
  map (fun name => mkRegExp (seqs (quoted_attribute name)) false true 0)
      ["data-testid"; "name"; "id"; "placeholder"].

Definition isElementRelevant (tagName attributes : string) : bool :=
  some_matches relevanceCriteria attributes.

Module Workflow.

(** [.] of a pattern without the [s] flag: any code unit but a line
    terminator (LF and CR here, the two others being above 255). *)
Definition dot : cls := none_of [newline; "013"%char].

(** [clickRegex]: [Click the], a quote of either kind, a first group of one
    or more characters, again a quote, and [button]; flag [i]. *)
Definition clickRegex : RegExp :=
  mkRegExp (seqs [lit "Click the "; Chr quote; Group 1 (plus dot); Chr quote;
                  lit " button"]) false true 0.

(** [fillRegex]: [Fill the], a quoted first group, [input with] and a
    quoted second group; flag [i]. *)
Definition fillRegex : RegExp :=
  mkRegExp (seqs [lit "Fill the "; Chr quote; Group 1 (plus dot); Chr quote;
                  lit " input with "; Chr quote; Group 2 (plus dot);
                  Chr quote]) false true 0.

(** What the workflow does to the outside, call by call. *)
Inductive event :=
| Launch (r : result unit)
| NewPage (r : result unit)
| Goto (url : string) (r : result unit)
| Click (selector : string) (r : result unit)
| Fill (selector value : string) (r : result unit)
| WaitForTimeout (ms : nat) (r : result unit)
| Content (r : result string)
| WriteFileSync (path data : string) (r : result unit)
| ConsoleLog (line : string)
| ConsoleError (label : string) (error : thrown)
| Create (req : request) (r : result message)
| PageClose (r : result unit)
| BrowserClose (r : result unit).

(** The collaborators, each answering from what has happened so far. *)
Record world := mkWorld {
  launch_result : list event -> result unit;
  newPage_result : list event -> result unit;
  goto_result : list event -> string -> result unit;
  click_result : list event -> string -> result unit;
  fill_result : list event -> string -> string -> result unit;
  wait_result : list event -> nat -> result unit;
  content_result : list event -> result string;
  write_result : list event -> string -> string -> write_outcome;
  create_result : list event -> request -> result message;
  page_close_result : list event -> result unit;
  browser_close_result : list event -> result unit
}.

Record state := mkState {
  trace : list event;
  files : gmap string string;
  browser : option Browser;
  page : option Page
}.

Definition M (A : Type) : Type := state -> result A * state.

Definition ret {A} (a : A) : M A := fun s => (Ok a, s).

Definition throw {A} (e : thrown) : M A := fun s => (Throw e, s).

Definition bind {A B} (c : M A) (k : A -> M B) : M B :=
  fun s =>
    match c s with
    | (Ok a, s') => k a s'
    | (Throw e, s') => (Throw e, s')
    end.

#[local] Notation "x <-- c ;;; k" := (bind c (fun x => k))
  (at level 100, c at next level, right associativity).
#[local] Notation "c ;;; k" := (bind c (fun _ => k))
  (at level 100, right associativity).

(** [try { body } catch (error) { handler }] *)
Definition try_catch {A} (body : M A) (handler : thrown -> M A) : M A :=
  fun s =>
    match body s with
    | (Ok a, s1) => (Ok a, s1)
    | (Throw e, s1) => handler e s1
    end.

(** [try { body } catch (error) { handler } finally { cleanup }] *)
Definition try_catch_finally {A} (body : M A) (handler : thrown -> M A)
    (cleanup : M unit) : M A :=
  fun s =>
    let '(r, s2) := try_catch body handler s in
    match cleanup s2 with
    | (Ok _, s3) => (r, s3)
    | (Throw e, s3) => (Throw e, s3)
    end.

(** [for (const x of l) await body(x)] *)
Fixpoint for_each {A} (body : A -> M unit) (l : list A) : M unit :=
  match l with
  | [] => ret tt
  | x :: l' => body x ;;; for_each body l'
  end.

Definition record (e : event) (s : state) : state :=
  mkState (trace s ++ [e]) (files s) (browser s) (page s).

Definition call {A} (answer : list event -> result A)
    (ev : result A -> event) : M A :=
  fun s => let r := answer (trace s) in (r, record (ev r) s).

Definition emit (e : event) : M unit := fun s => (Ok tt, record e s).

Definition set_browser (b : option Browser) : M unit :=
  fun s => (Ok tt, mkState (trace s) (files s) b (page s)).

Definition set_page (p : option Page) : M unit :=
  fun s => (Ok tt, mkState (trace s) (files s) (browser s) p).

Definition get_browser : M (option Browser) := fun s => (Ok (browser s), s).
Definition get_page : M (option Page) := fun s => (Ok (page s), s).

Definition chromium_launch (w : world) : M Browser :=
  call (launch_result w) Launch ;;; ret TheBrowser.

Definition browser_newPage (w : world) : M Page :=
  call (newPage_result w) NewPage ;;; ret ThePage.

Definition page_goto (w : world) (url : string) : M unit :=
  call (fun h => goto_result w h url) (Goto url).

Definition page_click (w : world) (selector : string) : M unit :=
  call (fun h => click_result w h selector) (Click selector).

Definition page_fill (w : world) (selector value : string) : M unit :=
  call (fun h => fill_result w h selector value) (Fill selector value).

Definition page_waitForTimeout (w : world) (ms : nat) : M unit :=
  call (fun h => wait_result w h ms) (WaitForTimeout ms).

Definition page_content (w : world) : M string :=
  call (content_result w) Content.

Definition page_close (w : world) : M unit :=
  call (page_close_result w) PageClose.

Definition browser_close (w : world) : M unit :=
  call (browser_close_result w) BrowserClose.

Definition console_log (line : string) : M unit := emit (ConsoleLog line).

Definition console_error (label : string) (error : thrown) : M unit :=
  emit (ConsoleError label error).

Definition messages_create (w : world) (req : request) : M message :=
  call (fun h => create_result w h req) (Create req).

(** [fs.writeFileSync(path, data, 'utf8')] with a string. *)
Definition writeFileSync (w : world) (path data : string) : M unit :=
  fun s =>
    match write_result w (trace s) path data with
    | Written =>
        (Ok tt,
         mkState (trace s ++ [WriteFileSync path data (Ok tt)])
                 (<[path := data]> (files s)) (browser s) (page s))
    | WriteFailed e residue =>
        (Throw e,
         mkState (trace s ++ [WriteFileSync path data (Throw e)])
                 (match residue with
                  | Some c => <[path := c]> (files s)
                  | None => files s
                  end) (browser s) (page s))
    end.

Definition initial_state (fs : gmap string string) : state :=
  mkState [] fs None None.

(** ** src/htmlProcessor.ts *)

(** The text of a capture group in a template literal. *)
Definition group (n : nat) (mt : match_result) : string :=
  string_of (interpolate (get_cap n (m_caps mt))).

Definition performInteraction (w : world) (step : string) : M unit :=
  if fst (test clickRegex (chars_of step)) then
    match fst (exec clickRegex (chars_of step)) with
    | Some mt =>
        let buttonText := group 1 mt in
        page_click w ("button:text(" +:+ dq +:+ buttonText +:+ dq +:+ ")") ;;;
        console_log ("Clicked button with text: " +:+ buttonText)
    | None => ret tt
    end
  else if fst (test fillRegex (chars_of step)) then
    match fst (exec fillRegex (chars_of step)) with
    | Some mt =>
        let inputLabel := group 1 mt in
        let inputValue := group 2 mt in
        let inputSelector :=
          "label:text(" +:+ dq +:+ inputLabel +:+ dq +:+ ") + input" in
        page_fill w inputSelector inputValue ;;;
        console_log ("Filled input '" +:+ inputLabel +:+ "' with value: "
                     +:+ inputValue)
    | None => ret tt
    end
  else ret tt.

(** The [try] block of [extractSanitizedHTML]. *)
Definition extractSanitizedHTML_try (w : world) (url : string)
    (interactionSteps : list string) (filterCriteria : list RegExp)
  : M string :=
  b <-- chromium_launch w ;;;
  set_browser (Some b) ;;;
  p <-- browser_newPage w ;;;
  set_page (Some p) ;;;
  page_goto w url ;;;
  for_each (performInteraction w) interactionSteps ;;;
  page_waitForTimeout w 1000 ;;;
  rawHTML <-- page_content w ;;;
  let sanitizedHTML := sanitizeHTML rawHTML in
  let sanitizedHTML := filterHTML_value sanitizedHTML filterCriteria in
  writeFileSync w "sanitized.html" sanitizedHTML ;;;
  console_log "Sanitized HTML extracted successfully." ;;;
  ret sanitizedHTML.

Definition cleanup (w : world) : M unit :=
  p <-- get_page ;;;
  (match p with Some _ => page_close w | None => ret tt end) ;;;
  b <-- get_browser ;;;
  match b with Some _ => browser_close w | None => ret tt end.

Definition extractSanitizedHTML (w : world) (url : string)
    (interactionSteps : list string) (filterCriteria : list RegExp)
  : M string :=
  set_browser None ;;;
  set_page None ;;;
  try_catch_finally
    (extractSanitizedHTML_try w url interactionSteps filterCriteria)
    (fun error =>
       console_error "Error during HTML extraction:" error ;;; throw error)
    (cleanup w).

(** ** src/testGenerator.ts *)

(** The example the prompt gives the model (lines 300-314). *)
Definition example_output : string :=
  concat_strings [
    "import { chromium } from 'playwright';"; nl;
    nl;
    "export const test = async () => {"; nl;
    "  const browser = await chromium.launch();"; nl;
    "  const page = await browser.newPage();"; nl;
    "  await page.goto('https://www.example.com');"; nl;
    nl;
    "  await page.click('button:text("; dq; "Open Modal"; dq; ")');"; nl;
    "  await page.waitForSelector('#modal');"; nl;
    nl;
    "  await page.fill('#modal-input', 'Test Input');"; nl;
    "  await page.click('#modal-submit-button');"; nl;
    nl;
    "  await browser.close();"; nl;
    "};"
  ].

(** The template literal of [generatePlaywrightTest] (lines 278-316). *)
Definition prompt_of (html testScenario : string) : string :=
  concat_strings [
    nl;
    "Generate a Playwright test script based on the following test sc";
      "enario and sanitized HTML. Adhere strictly to the rules provided";
      "."; nl;
    nl;
    "**Test Scenario**: "; testScenario; nl;
    nl;
    "**Sanitized HTML**:"; nl;
    "```html"; nl;
    html; nl;
    "```"; nl;
    nl;
    "**Rules**:"; nl;
    "1. Return only valid Playwright JavaScript code without any addi";
      "tional text."; nl;
    "2. Ensure the code is free of syntax errors and can run successf";
      "ully."; nl;
    "3. The code must be encapsulated within an async function named ";
      "'test'."; nl;
    "4. Include all necessary imports."; nl;
    "5. Use the 'export' keyword for the test function."; nl;
    "6. Follow best practices for Playwright scripting."; nl;
    "7. Handle asynchronous actions appropriately (e.g., waiting for ";
      "modals to appear)."; nl;
    "8. Include error handling for each interaction step."; nl;
    nl;
    "**Example Output**:"; nl;
    "```javascript"; nl;
    example_output; nl;
    "```"; nl
  ].


Definition request_of (prompt : string) : request :=
  mkRequest "claude-3-5-sonnet-20240620" 1500 (QArith_base.Qmake 1 2)
            [("user", prompt)].

(** [msg.content[0].text] *)
Definition content_0_text (msg : message) : M value :=
  match content msg with
  | [] => throw (TypeError "Cannot read properties of undefined (reading 'text')")
  | block :: _ => ret block
  end.

(** The validation of the generated code. *)
Definition validate (playwrightCode : value) : M string :=
  match playwrightCode with
  | VString code =>
      if includes code "async function test" then ret code
      else throw (Error "Generated code is invalid or incomplete.")
  | VUndefined =>
      throw (TypeError
               "Cannot read properties of undefined (reading 'includes')")
  end.

Definition generatePlaywrightTest (w : world) (html testScenario : string)
  : M unit :=
  let prompt := prompt_of html testScenario in
  try_catch
    (msg <-- messages_create w (request_of prompt) ;;;
     playwrightCode <-- content_0_text msg ;;;
     code <-- validate playwrightCode ;;;
     writeFileSync w "src/generatedTest.ts" code ;;;
     console_log
       "Playwright test code generated and saved to generatedTest.ts")
    (fun error => console_error "Error generating Playwright test:" error).

(** ** src/main.ts *)

Definition url : string := "https://www.example.com".

Definition testScenario : string :=
  "Test opening a modal and submitting the form within it.".

Definition interactionSteps : list string :=
  ["Click the " +:+ dq +:+ "Open Modal" +:+ dq +:+ " button."].

Definition filterCriteria : list RegExp := main_ts_filterCriteria.

Definition main (w : world) : M unit :=
  try_catch
    (sanitizedHTML <-- extractSanitizedHTML w url interactionSteps
                         filterCriteria ;;;
     generatePlaywrightTest w sanitizedHTML testScenario)
    (fun error => console_error "Error in test generation workflow:" error).

(** ** Reading a trace of the workflow *)

Fixpoint creates (t : list event) : list (request * result message) :=
  match t with
  | [] => []
  | Create q r :: t' => (q, r) :: creates t'
  | _ :: t' => creates t'
  end.

Fixpoint writes (t : list event) : list (string * string * result unit) :=
  match t with
  | [] => []
  | WriteFileSync p d r :: t' => (p, d, r) :: writes t'
  | _ :: t' => writes t'
  end.

Fixpoint contents (t : list event) : list (result string) :=
  match t with
  | [] => []
  | Content r :: t' => r :: contents t'
  | _ :: t' => contents t'
  end.

Fixpoint errors (t : list event) : list (string * thrown) :=
  match t with
  | [] => []
  | ConsoleError l e :: t' => (l, e) :: errors t'
  | _ :: t' => errors t'
  end.

(** ** Sample worlds *)

(** Every call returns: the navigation with [route], the page with the text
    [raw], the model with [answer]. *)
Definition sample_world (route : result unit) (raw : string)
    (answer : value) : world :=
  mkWorld (fun _ => Ok tt) (fun _ => Ok tt) (fun _ _ => route)
          (fun _ _ => Ok tt) (fun _ _ _ => Ok tt) (fun _ _ => Ok tt)
          (fun _ => Ok raw) (fun _ _ _ => Written)
          (fun _ _ => Ok (mkMessage [answer]))
          (fun _ => Ok tt) (fun _ => Ok tt).

Definition modal_page : string :=
  concat_strings
    ["<html><head><script>var a = 1;</script></head><body>";
     "<form id=f><button data-testid="; dq; "open"; dq;
     ">Open Modal</button></form></body></html>"].

Definition test_answer : value :=
  VString "export async function test() {}".

Definition no_route : thrown :=
  ErrorObject "Error" "net::ERR_NAME_NOT_RESOLVED" "".

End Workflow.

Definition is_quote (a : ascii) : bool :=
  Ascii.eqb a dquote || Ascii.eqb a squote.

Definition is_line_end (a : ascii) : bool :=
  Ascii.eqb a newline || Ascii.eqb a "013"%char.

Definition is_letter (a : ascii) : bool :=
  in_range "a" "z" a || in_range "A" "Z" a.

(** A text without quotes. *)
Definition no_quote (l : chars) : Prop :=
  forallb (fun a => negb (is_quote a)) l = true.

Definition count_quotes (l : chars) : nat := length (List.filter is_quote l).

(** Events of the interaction steps: clicks, fills and the lines printed
    about them. *)
Definition of_interaction (e : Workflow.event) : bool :=
  match e with
  | Workflow.Click _ _ | Workflow.Fill _ _ _ | Workflow.ConsoleLog _ => true
  | _ => false
  end.

Definition extraction_label : string := "Error during HTML extraction:".
Definition generation_label : string := "Error generating Playwright test:".
Definition workflow_label : string := "Error in test generation workflow:".
(** * Properties of the matcher *)



Lemma star_reach ic g c k l x z :
  star ic g c k l x = Some z -> l = rest x ->
  exists y, reach ic (Star g c) x y /\ k y = Some z.
Proof.
  revert x. induction l as [|a t IH]; intros x Hs Hl; simpl in Hs.
  - exists x. split; [|done]. exists []. by rewrite <- Hl.
  - assert (Hstop : k x = Some z ->
                    exists y, reach ic (Star g c) x y /\ k y = Some z).
    { intros Hk. exists x. split; [|done]. exists []. simpl. by rewrite <- Hl. }
    destruct (cls_match ic c a) eqn:Hc; [|by apply Hstop].
    assert (Hgo : star ic g c k t (advance a t x) = Some z ->
                  exists y, reach ic (Star g c) x y /\ k y = Some z).
    { intros Hr. destruct (IH _ Hr eq_refl) as (y & (w & Hw & Hrest & Hseen & Hcaps) & Hk).
      exists y. split; [|done]. exists (a :: w). simpl in *.
      repeat split.
      - by constructor.
      - by rewrite <- Hl, Hrest.
      - by rewrite Hseen, <- app_assoc.
      - done. }
    destruct g.
    + destruct (star ic true c k t (advance a t x)) eqn:Hr; [by apply Hgo|by apply Hstop].
    + destruct (k x) eqn:Hk; [by apply Hstop|by apply Hgo].
Qed.

(** Soundness of the matcher: a result comes from a way of matching [r]
    that the continuation accepted. *)
Lemma m_reach ic r : forall k x z,
  m ic r k x = Some z -> exists y, reach ic r x y /\ k y = Some z.
Proof.
  induction r as [|c|r1 IH1 r2 IH2|r1 IH1 r2 IH2|g c|n r1 IH1|];
    intros k x z Hm; simpl in Hm.
  - by exists x.
  - destruct (rest x) as [|a t] eqn:Hr; [done|].
    destruct (cls_match ic c a) eqn:Hc; [|done].
    exists (advance a t x). split; [|done]. by exists a, t.
  - destruct (IH1 _ _ _ Hm) as (y1 & H1 & Hm2).
    destruct (IH2 _ _ _ Hm2) as (y & H2 & Hk).
    exists y. split; [|done]. by exists y1.
  - destruct (m ic r1 k x) eqn:H1.
    + destruct (IH1 _ _ _ H1) as (y & Hy & Hk). exists y. simplify_eq. by split; [left|].
    + destruct (IH2 _ _ _ Hm) as (y & Hy & Hk). exists y. by split; [right|].
  - by eapply star_reach.
  - destruct (IH1 _ _ _ Hm) as (y & Hy & Hk).
    exists (set_cap n x y). split; [|done]. by exists y.
  - destruct (at_boundary x) eqn:Hb; [|done]. by exists x.
Qed.

(** A match only moves forward in the same text, by at least [min_len]. *)
Lemma reach_text ic r : forall x y,
  reach ic r x y ->
  exists w, rest x = w ++ rest y /\ seen y = rev w ++ seen x /\
            min_len r <= length w.
Proof.
  induction r as [|c|r1 IH1 r2 IH2|r1 IH1 r2 IH2|g c|n r1 IH1|];
    intros x y Hr; simpl in Hr.
  - subst. exists []. simpl. auto with lia.
  - destruct Hr as (a & t & Hx & _ & ->). exists [a]. simpl. auto with lia.
  - destruct Hr as (z & H1 & H2).
    destruct (IH1 _ _ H1) as (w1 & Hr1 & Hs1 & Hl1).
    destruct (IH2 _ _ H2) as (w2 & Hr2 & Hs2 & Hl2).
    exists (w1 ++ w2). rewrite Hr1, Hr2, Hs2, Hs1, rev_app_distr, !length_app.
    simpl. rewrite <- !app_assoc. auto with lia.
  - destruct Hr as [H|H]; [destruct (IH1 _ _ H) as (w & ? & ? & ?)
                          |destruct (IH2 _ _ H) as (w & ? & ? & ?)];
      exists w; simpl; auto with lia.
  - destruct Hr as (w & _ & ? & ? & _). exists w. simpl. auto with lia.
  - destruct Hr as (z & H & ->). destruct (IH1 _ _ H) as (w & ? & ? & ?).
    exists w. simpl. auto.
  - destruct Hr as [-> _]. exists []. simpl. auto with lia.
Qed.

Lemma span_app x y w : seen y = rev w ++ seen x -> span x y = w.
Proof.
  intros H. unfold span. rewrite H, length_app, length_rev.
  replace (length w + length (seen x) - length (seen x)) with (length (rev w) + 0)
    by (rewrite length_rev; lia).
  rewrite firstn_app_2. simpl. by rewrite app_nil_r, rev_involutive.
Qed.

(** A continuation that fails wherever a property of the text ahead holds is
    never satisfied, if that property passes to suffixes and holds at the
    start. *)
Lemma star_none (Q : chars -> Prop) ic g c k l x :
  (forall a t, Q (a :: t) -> Q t) ->
  (forall y, Q (rest y) -> k y = None) ->
  l = rest x -> Q l -> star ic g c k l x = None.
Proof.
  intros Hsuf Hk. revert x. induction l as [|a t IH]; intros x Hl HQ; simpl.
  - apply Hk. by rewrite <- Hl.
  - assert (k x = None) as Hx by (apply Hk; by rewrite <- Hl).
    assert (star ic g c k t (advance a t x) = None) as Ht by (apply IH; eauto).
    destruct (cls_match ic c a); [|done].
    destruct g; by rewrite ?Ht, ?Hx.
Qed.

Lemma m_none (Q : chars -> Prop) ic r :
  (forall a t, Q (a :: t) -> Q t) ->
  forall k x, (forall y, Q (rest y) -> k y = None) -> Q (rest x) ->
              m ic r k x = None.
Proof.
  intros Hsuf.
  induction r as [|c|r1 IH1 r2 IH2|r1 IH1 r2 IH2|g c|n r1 IH1|];
    intros k x Hk HQ; simpl.
  - by apply Hk.
  - destruct (rest x) as [|a t] eqn:Hr; [done|].
    destruct (cls_match ic c a); [|done]. apply Hk. simpl. eauto.
  - apply IH1; [|done]. intros y Hy. by apply IH2.
  - rewrite IH1 by done. by apply IH2.
  - by eapply star_none.
  - apply IH1; [|done]. intros y Hy. by apply Hk.
  - destruct (at_boundary x); [by apply Hk|done].
Qed.

Lemma match_at_reach ic r sn rs y :
  match_at ic r sn rs = Some y -> reach ic r (MState sn rs []) y.
Proof.
  intros H. apply m_reach in H as (y' & Hy & [= ->]). done.
Qed.

(** A match stays inside the text and takes at least [min_len] characters. *)
Lemma match_at_text ic r sn rs y :
  match_at ic r sn rs = Some y ->
  exists w, rs = w ++ rest y /\ seen y = rev w ++ sn /\ min_len r <= length w.
Proof. intros H. by apply match_at_reach, reach_text in H. Qed.

Lemma search_Some ic r : forall rs sn j y,
  search ic r sn rs = Some (j, y) ->
  exists pre post, rs = pre ++ post /\ j = length sn + length pre /\
                   match_at ic r (rev pre ++ sn) post = Some y.
Proof.
  induction rs as [|a t IH]; intros sn j y Hs; simpl in Hs.
  - destruct (match_at ic r sn []) eqn:Hm; [|done]. simplify_eq.
    exists [], []. simpl. auto with lia.
  - destruct (match_at ic r sn (a :: t)) eqn:Hm.
    + simplify_eq. exists [], (a :: t). simpl. auto with lia.
    + destruct (IH _ _ _ Hs) as (pre & post & -> & -> & Hy).
      exists (a :: pre), post. simpl. rewrite <- app_assoc. simpl.
      auto with lia.
Qed.

Lemma search_None ic r : forall rs sn,
  search ic r sn rs = None ->
  match_at ic r sn rs = None /\
  match rs with a :: t => search ic r (a :: sn) t = None | [] => True end.
Proof.
  intros [|a t] sn Hs; simpl in Hs; destruct (match_at ic r sn _); done.
Qed.

Lemma search_none_Q (Q : chars -> Prop) ic r :
  (forall a t, Q (a :: t) -> Q t) ->
  (forall sn rs, Q rs -> match_at ic r sn rs = None) ->
  forall rs sn, Q rs -> search ic r sn rs = None.
Proof.
  intros Hsuf Hm. induction rs as [|a t IH]; intros sn HQ; simpl.
  - by rewrite Hm.
  - rewrite Hm by done. eauto.
Qed.

(** ** [exec] on a global pattern *)

Lemma exec_Some R s mt R' :
  global R = true -> lastIndex R <= length s ->
  exec R s = (Some mt, R') ->
  R' = set_lastIndex (m_end mt) R /\
  lastIndex R + min_len (source R) <= m_end mt <= length s /\
  exists pre post y,
    skipn (lastIndex R) s = pre ++ post /\
    match_at (ignoreCase R) (source R)
             (rev pre ++ rev (firstn (lastIndex R) s)) post = Some y /\
    m_caps mt = caps y.
Proof.
  intros Hg Hi. unfold exec. rewrite Hg.
  destruct (Nat.ltb_spec (length s) (lastIndex R)) as [?|_]; [lia|].
  destruct (search _ _ _ _) as [[j y]|] eqn:Hs; [|done].
  intros [= <- <-]. simpl. split; [done|].
  apply search_Some in Hs as (pre & post & Hsplit & -> & Hm).
  pose proof Hm as (w & Hw & Hseen & Hlen)%match_at_text.
  assert (length s = lastIndex R + length pre + length w + length (rest y)) as Hs.
  { rewrite <- (firstn_skipn (lastIndex R) s) at 1.
    rewrite Hsplit, Hw, !length_app, length_firstn. lia. }
  rewrite Hseen, !length_app, !length_rev, length_firstn.
  split; [lia|]. by exists pre, post, y.
Qed.

Lemma exec_None_lastIndex R s R' :
  global R = true -> exec R s = (None, R') -> R' = set_lastIndex 0 R.
Proof.
  intros Hg. unfold exec. rewrite Hg.
  destruct (Nat.ltb _ _); [by intros [= <-]|].
  destruct (search _ _ _ _) as [[j y]|]; [done|by intros [= <-]].
Qed.

(** ** The tag pattern of [filterHTML] *)

Lemma span_self x : span x x = [].
Proof. apply (span_app x x []). done. Qed.

Lemma span_advance a t x : span x (advance a t x) = [a].
Proof. apply (span_app x _ [a]). done. Qed.

Lemma cls_char_gt ic a : cls_match ic (CChar ">") a = true -> a = ">"%char.
Proof.
  destruct ic, a as [[] [] [] [] [] [] [] []]; vm_compute; congruence.
Qed.

Lemma word_not_gt a : is_word_char a = true -> a <> ">"%char.
Proof. intros H ->. vm_compute in H. done. Qed.

(** The first two captures of a tag match, the optional slash and the tag
    name, contain no [>]. *)
Lemma re_tag_caps sn rs y :
  match_at true (source re_tag) sn rs = Some y ->
  exists slash name attrs,
    caps y = [(3, attrs); (2, name); (1, slash)] /\
    ~ In ">"%char slash /\ ~ In ">"%char name.
Proof.
  intros H%match_at_reach.
  cbn [reach source re_tag seqs opt plus] in H.
  destruct H as (z & (a & t & Hrs & Ha & ->) & z0 & (z1 & Hslash & ->) &
                 z1' & (z2 & (z3 & (a2 & t2 & Hr2 & Ha2 & ->) &
                              w & Hw & Hrw & Hsw & Hcw) & ->) &
                 z2' & (z3' & (w3 & Hw3 & Hr3 & Hs3 & Hc3) & ->) &
                 a4 & t4 & Hr4 & Ha4 & ->).
  exists (span (advance a t (MState sn rs [])) z1), (a2 :: w),
         (span (set_cap 2 (set_cap 1 (advance a t (MState sn rs [])) z1) z2) z3').
  split; [|split].
  - simpl. rewrite Hc3. simpl. rewrite Hcw. simpl.
    rewrite (span_app _ z2 (a2 :: w)).
    + do 2 f_equal. f_equal.
      destruct Hslash as [(a1 & t1 & _ & _ & ->)| ->]; done.
    + rewrite Hsw. simpl. by rewrite <- app_assoc.
  - destruct Hslash as [(a1 & t1 & _ & Ha1 & ->)| ->].
    + rewrite span_advance. intros [->|[]]. vm_compute in Ha1. done.
    + rewrite span_self. simpl. tauto.
  - intros [->|Hin].
    + by apply word_not_gt in Ha2.
    + rewrite Forall_forall in Hw. apply list_elem_of_In, Hw in Hin.
      by apply word_not_gt in Hin.
Qed.

(** ** The default criterion never accepts a text without [>] *)


Lemma no_gt_tail a t : no_gt (a :: t) -> no_gt t.
Proof. unfold no_gt. simpl. tauto. Qed.

Lemma m_seq_none (Q : chars -> Prop) ic r1 r2 k :
  (forall a t, Q (a :: t) -> Q t) ->
  (forall y, Q (rest y) -> m ic r2 k y = None) ->
  forall x, Q (rest x) -> m ic (Seq r1 r2) k x = None.
Proof. intros Hsuf H2 x Hx. exact (m_none Q ic r1 Hsuf _ x H2 Hx). Qed.

Lemma m_gt_none ic k y : no_gt (rest y) -> m ic (Chr (CChar ">")) k y = None.
Proof.
  intros Hy. cbn [m]. destruct (rest y) as [|a t]; [done|].
  destruct (cls_match ic (CChar ">") a) eqn:Ha; [|done].
  apply cls_char_gt in Ha as ->. destruct Hy. simpl. by left.
Qed.

Lemma default_criterion_match_at sn rs :
  no_gt rs -> match_at true (source re_default_criterion) sn rs = None.
Proof.
  intros Hrs. unfold match_at. cbn [source re_default_criterion seqs].
  apply (m_seq_none no_gt); [apply no_gt_tail| |done]. intros y1 H1.
  apply (m_seq_none no_gt); [apply no_gt_tail| |done]. intros y2 H2.
  apply (m_seq_none no_gt); [apply no_gt_tail| |done]. intros y3 H3.
  apply (m_seq_none no_gt); [apply no_gt_tail| |done]. intros y4 H4.
  by apply m_gt_none.
Qed.

Lemma default_criterion_test s :
  no_gt s -> test re_default_criterion s = (false, re_default_criterion).
Proof.
  intros Hs. unfold test, exec. cbn [global lastIndex re_default_criterion].
  change (Nat.ltb (length s) 0) with false. cbn [firstn skipn rev].
  rewrite (search_none_Q no_gt); [done|apply no_gt_tail| |done].
  intros. by apply default_criterion_match_at.
Qed.

(** ** The loop of [filterHTML] *)

Lemma exec_re_tag i html mt R' :
  exec (set_lastIndex i re_tag) html = (Some mt, R') ->
  R' = set_lastIndex (m_end mt) re_tag /\ i < m_end mt <= length html /\
  exists slash name attrs,
    m_caps mt = [(3, attrs); (2, name); (1, slash)] /\
    ~ In ">"%char slash /\ ~ In ">"%char name.
Proof.
  intros He.
  destruct (le_lt_dec i (length html)) as [Hi|Hi].
  - apply exec_Some in He as (-> & Hend & pre & post & y & _ & Hm & ->);
      [|done|done].
    split; [done|]. split; [simpl in Hend; lia|].
    by apply re_tag_caps in Hm.
  - unfold exec in He. cbn [global lastIndex set_lastIndex re_tag] in He.
    destruct (Nat.ltb_spec (length html) i); [done|lia].
Qed.

(** The loop ends within [length html + 1] rounds, whatever the criteria. *)
Lemma filter_loop_total html : forall fuel criteria i parts,
  length html - i < fuel ->
  is_Some (filter_loop fuel criteria (set_lastIndex i re_tag) html parts).
Proof.
  induction fuel as [|fuel IH]; intros criteria i parts Hf; [lia|].
  cbn [filter_loop].
  destruct (exec (set_lastIndex i re_tag) html) as [[mt|] R'] eqn:He; [|done].
  apply exec_re_tag in He as (-> & Hend & _).
  destruct (some_test criteria _) as [b criteria'].
  apply IH. lia.
Qed.

(** With the default criterion nothing is ever kept. *)
Lemma filter_loop_default html : forall fuel i parts,
  length html - i < fuel ->
  filter_loop fuel [re_default_criterion] (set_lastIndex i re_tag) html parts
  = Some parts.
Proof.
  induction fuel as [|fuel IH]; intros i parts Hf; [lia|].
  cbn [filter_loop].
  destruct (exec (set_lastIndex i re_tag) html) as [[mt|] R'] eqn:He; [|done].
  apply exec_re_tag in He as (-> & Hend & slash & name & attrs & -> & Hs & Hn).
  cbn [get_cap Nat.eqb interpolate some_test].
  rewrite default_criterion_test.
  - apply IH. lia.
  - unfold no_gt. simpl. rewrite in_app_iff. intros [[=]|[?|?]]; done.
Qed.

Lemma string_of_chars_of s : string_of (chars_of s) = s.
Proof. apply string_of_list_ascii_of_string. Qed.

Lemma chars_of_string_of l : chars_of (string_of l) = l.
Proof. apply list_ascii_of_string_of_list_ascii. Qed.

Lemma filterHTML_total html criteria : is_Some (filterHTML html criteria).
Proof.
  unfold filterHTML, filter_chars.
  destruct (filter_loop_total (chars_of html) (S (length (chars_of html)))
              (if Nat.eqb (length criteria) 0 then [re_default_criterion]
               else criteria) 0 []) as [parts Hp]; [lia|].
  change (set_lastIndex 0 re_tag) with re_tag in Hp. by rewrite Hp.
Qed.

Lemma filterHTML_default html : filterHTML html [] = Some ""%string.
Proof.
  unfold filterHTML, filter_chars. cbn [length Nat.eqb].
  change re_tag with (set_lastIndex 0 re_tag).
  rewrite filter_loop_default by lia. done.
Qed.

(** ** Global replacement by the empty string *)


Lemma remove_length ic r : forall rs skip sn,
  length (remove_matches ic r skip sn rs) <= length rs - skip.
Proof.
  induction rs as [|a t IH]; intros skip sn; simpl; [lia|].
  destruct skip as [|n].
  - destruct (match_at ic r sn (a :: t)) as [y|].
    + destruct (length (seen y) - length sn) as [|n].
      * simpl. specialize (IH 0 (a :: sn)). lia.
      * specialize (IH n (a :: sn)). lia.
    + simpl. specialize (IH 0 (a :: sn)). lia.
  - apply IH.
Qed.

Lemma remove_no_match ic r : forall rs sn,
  search ic r sn rs = None -> remove_matches ic r 0 sn rs = rs.
Proof.
  induction rs as [|a t IH]; intros sn Hs; [done|].
  apply search_None in Hs as [Hm Ht]. simpl. rewrite Hm. f_equal. by apply IH.
Qed.

(** When every match takes a character, one match anywhere makes the text
    shorter. *)
Lemma remove_shorter ic r :
  1 <= min_len r ->
  forall rs sn, search ic r sn rs <> None ->
                length (remove_matches ic r 0 sn rs) < length rs.
Proof.
  intros Hmin. induction rs as [|a t IH]; intros sn Hs.
  - simpl in Hs. destruct (match_at ic r sn []) as [y|] eqn:Hm; [|done].
    apply match_at_text in Hm as (w & Hw & _ & Hl).
    destruct w; simpl in *; [lia|done].
  - simpl in *. destruct (match_at ic r sn (a :: t)) as [y|] eqn:Hm.
    + apply match_at_text in Hm as (w & Hw & Hseen & Hl).
      rewrite Hseen, length_app, length_rev.
      replace (length w + length sn - length sn) with (length w) by lia.
      destruct (length w) as [|n] eqn:Hn; [lia|].
      pose proof (remove_length ic r t n (a :: sn)). lia.
    + simpl. specialize (IH (a :: sn) Hs). lia.
Qed.

Lemma replace_all_fixed R s :
  1 <= min_len (source R) ->
  replace_all R s = s <-> contains_match R s = false.
Proof.
  intros Hmin. unfold replace_all, contains_match. split.
  - intros Heq. destruct (search _ _ [] s) eqn:Hs; [|done].
    pose proof (remove_shorter (ignoreCase R) _ Hmin s []) as Hlt.
    rewrite Hs, Heq in Hlt. specialize (Hlt ltac:(done)). lia.
  - destruct (search _ _ [] s) eqn:Hs; [done|]. intros _.
    by apply remove_no_match.
Qed.

Lemma replace_all_length R s : length (replace_all R s) <= length s.
Proof. unfold replace_all. pose proof (remove_length (ignoreCase R) (source R) s 0 []). lia. Qed.

(** A pass that keeps the length keeps the text. *)
Lemma replace_all_same_length R s :
  1 <= min_len (source R) ->
  length (replace_all R s) = length s -> replace_all R s = s.
Proof.
  intros Hmin Hl. apply replace_all_fixed; [done|].
  unfold contains_match. destruct (search _ _ [] s) eqn:Hs; [|done].
  pose proof (remove_shorter (ignoreCase R) _ Hmin s []) as Hlt.
  rewrite Hs in Hlt.
  specialize (Hlt ltac:(done)). unfold replace_all in Hl. lia.
Qed.

Lemma removal_patterns_min R :
  In R removal_patterns -> 1 <= min_len (source R).
Proof.
  intros [<-|[<-|[<-|[<-|[<-|[]]]]]]; vm_compute; lia.
Qed.

(** The fixed points of the sanitizer are the texts with no match of any of
    the five patterns. *)
Lemma sanitize_chars_fixed s :
  sanitize_chars s = s <->
  forall R, In R removal_patterns -> contains_match R s = false.
Proof.
  assert (1 <= min_len (source re_script)) as H1 by (vm_compute; lia).
  assert (1 <= min_len (source re_style)) as H2 by (vm_compute; lia).
  assert (1 <= min_len (source re_link)) as H3 by (vm_compute; lia).
  assert (1 <= min_len (source re_svg)) as H4 by (vm_compute; lia).
  assert (1 <= min_len (source re_meta)) as H5 by (vm_compute; lia).
  unfold sanitize_chars. split.
  - intros Heq.
    pose proof (replace_all_length re_script s) as L1.
    pose proof (replace_all_length re_style (replace_all re_script s)) as L2.
    pose proof (replace_all_length re_link
                  (replace_all re_style (replace_all re_script s))) as L3.
    pose proof (replace_all_length re_svg
                  (replace_all re_link
                     (replace_all re_style (replace_all re_script s)))) as L4.
    pose proof (replace_all_length re_meta
                  (replace_all re_svg
                     (replace_all re_link
                        (replace_all re_style (replace_all re_script s))))) as L5.
    rewrite Heq in L5.
    assert (replace_all re_script s = s) as E1
      by (apply replace_all_same_length; [done|lia]).
    rewrite E1 in *.
    assert (replace_all re_style s = s) as E2
      by (apply replace_all_same_length; [done|lia]).
    rewrite E2 in *.
    assert (replace_all re_link s = s) as E3
      by (apply replace_all_same_length; [done|lia]).
    rewrite E3 in *.
    assert (replace_all re_svg s = s) as E4
      by (apply replace_all_same_length; [done|lia]).
    rewrite E4 in *.
    intros R [<-|[<-|[<-|[<-|[<-|[]]]]]]; by apply replace_all_fixed.
  - intros Hno.
    rewrite (proj2 (replace_all_fixed re_script s H1)) by (apply Hno; cbn [In removal_patterns]; auto 6).
    rewrite (proj2 (replace_all_fixed re_style s H2)) by (apply Hno; cbn [In removal_patterns]; auto 6).
    rewrite (proj2 (replace_all_fixed re_link s H3)) by (apply Hno; cbn [In removal_patterns]; auto 6).
    rewrite (proj2 (replace_all_fixed re_svg s H4)) by (apply Hno; cbn [In removal_patterns]; auto 6).
    apply replace_all_fixed; [done|]. apply Hno; cbn [In removal_patterns]; auto 6.
Qed.

(** * The capture *)


Lemma drop_Element dead i t a ch :
  drop dead (Element i t a ch)
  = Element i t a (map (drop dead) (List.filter (fun c => negb (dead c)) ch)).
Proof.
  simpl. f_equal. induction ch as [|c ch IH]; [done|].
  simpl. destruct (dead c); simpl; by rewrite IH.
Qed.

Lemma ids_Element i t a ch :
  ids (Element i t a ch) = i :: flat_map ids ch.
Proof.
  unfold ids. simpl. f_equal. induction ch as [|c ch IH]; [done|].
  simpl. by rewrite map_app, IH.
Qed.

Lemma descendants_ids i t a ch :
  map eid (descendants (Element i t a ch)) = flat_map ids ch.
Proof.
  unfold descendants. simpl. induction ch as [|c ch IH]; [done|].
  simpl. by rewrite map_app, IH.
Qed.

Lemma elements_are_elements n c :
  In c (elements n) -> exists i t a ch, c = Element i t a ch.
Proof.
  revert c. induction n as [i t a ch IH| |] using node_ind'; intros c Hc;
    simpl in Hc; try done.
  destruct Hc as [<-|Hc]; [by eauto|].
  apply in_flat_map in Hc as (k & Hk & Hc).
  rewrite List.Forall_forall in IH. by apply (IH k).
Qed.

(** ** Attribute rewriting *)

Lemma map_attrs_compose f g n :
  map_attrs g (map_attrs f n) = map_attrs (fun i a => g i (f i a)) n.
Proof.
  induction n as [i t a ch IH| |] using node_ind'; simpl; try done.
  f_equal. rewrite map_map. apply map_ext_Forall. done.
Qed.

Lemma map_attrs_ext f g n :
  (forall i a, In i (ids n) -> f i a = g i a) ->
  map_attrs f n = map_attrs g n.
Proof.
  induction n as [i t a ch IH| |] using node_ind'; intros H; simpl; try done.
  rewrite ids_Element in H. f_equal.
  - apply H. by left.
  - apply map_ext_Forall. rewrite List.Forall_forall in *. intros c Hc.
    apply IH; [done|]. intros j b Hj. apply H. right.
    apply in_flat_map. eauto.
Qed.

Lemma ids_map_attrs f n : ids (map_attrs f n) = ids n.
Proof.
  induction n as [i t a ch IH| |] using node_ind'; try done.
  simpl map_attrs. rewrite !ids_Element. f_equal.
  induction IH as [|c ch Hc _ IHch]; [done|]. simpl. by rewrite Hc, IHch.
Qed.

Lemma map_attrs_id n : map_attrs (fun _ a => a) n = n.
Proof.
  induction n as [i t a ch IH| |] using node_ind'; simpl; try done.
  f_equal. induction IH as [|c ch Hc _ IHch]; simpl; [done|].
  by rewrite Hc, IHch.
Qed.

Lemma fold_removeAttribute name : forall L doc,
  NoDup L ->
  fold_left (fun d element => removeAttribute name element d) L doc
  = map_attrs (fun i a => if existsb (Nat.eqb i) L then remove_attr name a
                          else a) doc.
Proof.
  induction L as [|x L IH]; intros doc HL; simpl.
  - by rewrite map_attrs_id.
  - apply NoDup_cons in HL as [Hx HL]. rewrite IH by done.
    unfold removeAttribute. rewrite map_attrs_compose.
    apply map_attrs_ext. intros i a _.
    destruct (Nat.eqb_spec i x) as [->|Hne]; simpl; [|done].
    destruct (existsb (Nat.eqb x) L) eqn:Hex; [|done].
    apply existsb_exists in Hex as (y & Hy & ->%Nat.eqb_eq).
    by apply list_elem_of_In in Hy.
Qed.

(** Removing [style] element by element over the whole NodeList is one pass
    over the tree. *)
Lemma removeAttribute_all name doc :
  NoDup (ids doc) ->
  fold_left (fun d element => removeAttribute name element d)
            (querySelectorAll_star doc) doc
  = map_attrs (fun _ a => remove_attr name a) doc.
Proof.
  intros HN. unfold querySelectorAll_star. rewrite fold_removeAttribute by done.
  apply map_attrs_ext. intros i a Hi.
  destruct (existsb (Nat.eqb i) (ids doc)) eqn:Hex; [done|].
  assert (existsb (Nat.eqb i) (ids doc) = true); [|congruence].
  apply existsb_exists. exists i. split; [done|apply Nat.eqb_refl].
Qed.

(** ** Detaching *)

Lemma drop_ext (p q : node -> bool) n :
  (forall c, p c = q c) -> drop p n = drop q n.
Proof.
  intros H. induction n as [i t a ch IH| |] using node_ind'; try done.
  rewrite !drop_Element. f_equal.
  induction IH as [|c ch Hc _ IHch]; [done|].
  simpl. rewrite <- H. destruct (p c); simpl; [done|]. by rewrite Hc, IHch.
Qed.

(** Two rounds of detaching are one, when the second test does not look
    below the node it is asked about. *)
Lemma drop_compose (p q : node -> bool) n :
  (forall c, p (drop q c) = p c) ->
  drop p (drop q n) = drop (fun c => q c || p c) n.
Proof.
  intros Hp. induction n as [i t a ch IH| |] using node_ind'; try done.
  rewrite !drop_Element. f_equal.
  induction IH as [|c ch Hc _ IHch]; [done|].
  simpl. destruct (q c); simpl; [done|].
  rewrite Hp. destruct (p c); simpl; [done|]. by rewrite Hc, IHch.
Qed.

Lemma has_id_drop el q c : has_id el (drop q c) = has_id el c.
Proof. by destruct c. Qed.

Lemma has_tag_drop names q c : has_tag names (drop q c) = has_tag names c.
Proof. by destruct c. Qed.

Lemma drop_nothing n : drop (fun _ => false) n = n.
Proof.
  induction n as [i t a ch IH| |] using node_ind'; try done.
  rewrite drop_Element. f_equal.
  induction IH as [|c ch Hc _ IHch]; [done|]. simpl. f_equal; [exact Hc|exact IHch].
Qed.

Lemma fold_remove : forall L doc,
  fold_left (fun d el => remove el d) L doc
  = drop (fun c => existsb (fun el => has_id el c) L) doc.
Proof.
  induction L as [|x L IH]; intros doc; simpl.
  - by rewrite drop_nothing.
  - rewrite IH. unfold remove. rewrite drop_compose; [done|].
    intros c. by destruct c.
Qed.

(** Two tests that agree on every node below [n] detach the same nodes. *)
Lemma drop_agree (p q : node -> bool) n :
  (forall c, In c (descendants n) -> p c = q c) ->
  (forall d, p (Text d) = q (Text d)) ->
  (forall d, p (Comment d) = q (Comment d)) ->
  drop p n = drop q n.
Proof.
  intros H HT HC. induction n as [i t a ch IH| |] using node_ind'; try done.
  rewrite !drop_Element. f_equal.
  unfold descendants in H. simpl in H.
  induction IH as [|c ch Hc _ IHch]; [done|].
  assert (p c = q c) as Hpq.
  { destruct c; [|done..]. apply H. simpl. by left. }
  simpl. rewrite <- Hpq. destruct (p c); simpl.
  - apply IHch. intros k Hk. apply H. simpl. apply in_app_iff. by right.
  - f_equal.
    + apply Hc. intros k Hk. apply H. simpl. apply in_app_iff. left.
      destruct c; [|done..]. simpl. right. exact Hk.
    + apply IHch. intros k Hk. apply H. simpl. apply in_app_iff. by right.
Qed.

Lemma eid_inj_in (l : list node) c c' :
  NoDup (map eid l) -> In c l -> In c' l -> eid c = eid c' -> c = c'.
Proof.
  induction l as [|x l IH]; simpl; [done|].
  intros [Hx Hl]%NoDup_cons [<-|Hc] [<-|Hc'] Heq; try done.
  - destruct Hx. rewrite Heq. apply list_elem_of_In, in_map. done.
  - destruct Hx. rewrite <- Heq. apply list_elem_of_In, in_map. done.
  - by apply IH.
Qed.

(** With distinct identities, detaching the entries of the NodeList of a
    selector is detaching every element of the selected names. *)
Lemma remove_selected names b :
  NoDup (ids b) ->
  drop (fun c => existsb (fun el => has_id el c) (querySelectorAll names b)) b
  = drop (has_tag names) b.
Proof.
  intros HN. apply drop_agree;
    [|intros d; simpl; by induction (querySelectorAll names b)..].
  intros c Hc.
  assert (NoDup (map eid (descendants b))) as HD.
  { destruct b as [i t a ch| |]; [|constructor..].
    rewrite descendants_ids. rewrite ids_Element in HN.
    by apply NoDup_cons in HN as [_ ?]. }
  assert (exists i t a ch, c = Element i t a ch) as (i & t & a & ch & ->).
  { unfold descendants in Hc. apply in_flat_map in Hc as (k & _ & Hk).
    by apply elements_are_elements in Hk. }
  unfold querySelectorAll.
  destruct (has_tag names (Element i t a ch)) eqn:Htag.
  - apply existsb_exists. exists i. split; [|simpl; apply Nat.eqb_refl].
    change i with (eid (Element i t a ch)). apply in_map.
    apply filter_In. done.
  - destruct (existsb _ _) eqn:Hex; [|done].
    apply existsb_exists in Hex as (el & Hel & Hid).
    simpl in Hid. apply Nat.eqb_eq in Hid as <-.
    apply in_map_iff in Hel as (c' & Heq & [Hc' Htag']%filter_In).
    assert (c' = Element i t a ch) as -> by (by apply (eid_inj_in (descendants b))).
    congruence.
Qed.

(** ** [document.body] across the two passes *)

Lemma is_body_map_attrs f c : is_body (map_attrs f c) = is_body c.
Proof. by destruct c. Qed.

Lemma is_body_drop q c : is_body (drop q c) = is_body c.
Proof. by destruct c. Qed.

Lemma document_body_map_attrs f doc :
  document_body (map_attrs f doc) = option_map (map_attrs f) (document_body doc).
Proof.
  destruct doc as [i t a ch| |]; [|done..]. simpl.
  destruct (String.eqb t "html"); [|done].
  induction ch as [|c ch IH]; [done|]. simpl.
  rewrite is_body_map_attrs. by destruct (is_body c).
Qed.

Lemma document_body_drop q doc b :
  document_body doc = Some b -> q b = false ->
  document_body (drop q doc) = Some (drop q b).
Proof.
  destruct doc as [i t a ch| |]; [|done..]. rewrite drop_Element. simpl.
  destruct (String.eqb t "html"); [|done].
  induction ch as [|c ch IH]; [done|]. simpl. intros Hb Hq.
  destruct (is_body c) eqn:Hc.
  - simplify_eq. rewrite Hq. simpl. by rewrite is_body_drop, Hc.
  - destruct (q c); simpl; [by apply IH|].
    rewrite is_body_drop, Hc. by apply IH.
Qed.

Lemma document_body_child doc b :
  document_body doc = Some b -> In b (children_of doc).
Proof.
  destruct doc as [i t a ch| |]; [|done..]. simpl.
  destruct (String.eqb t "html"); [|done].
  intros H. by apply find_some in H as [? _].
Qed.

Lemma NoDup_ids_child n c :
  NoDup (ids n) -> In c (children_of n) -> NoDup (ids c).
Proof.
  destruct n as [i t a ch| |]; [|done..]. rewrite ids_Element. simpl.
  intros [_ HN]%NoDup_cons Hc.
  induction ch as [|k ch IH]; [done|]. simpl in HN.
  apply NoDup_app in HN as (Hk & _ & Hch).
  destruct Hc as [->|Hc]; [done|by apply IH].
Qed.

(** The NodeList of a selector never holds the element it was asked on. *)
Lemma querySelectorAll_not_self names b :
  NoDup (ids b) ->
  existsb (fun el => has_id el b) (querySelectorAll names b) = false.
Proof.
  intros HN. destruct (existsb _ _) eqn:Hex; [|done].
  apply existsb_exists in Hex as (el & Hel & Hid).
  destruct b as [i t a ch| |]; [|done..].
  simpl in Hid. apply Nat.eqb_eq in Hid as <-.
  rewrite ids_Element in HN. apply NoDup_cons in HN as [Hi _].
  destruct Hi. rewrite <- (descendants_ids i t a ch). apply list_elem_of_In.
  unfold querySelectorAll in Hel.
  apply in_map_iff in Hel as (c & <- & [Hc _]%filter_In). by apply in_map.
Qed.

(** The capture, in one equation: with distinct identities, what the
    callback returns is the serialized body after one stripping pass and one
    pruning pass, and a page without a body makes it throw. *)
Lemma capture_spec names doc :
  NoDup (ids doc) ->
  fst (capture names doc)
  = match stripped_body_html names doc with
    | Some html => Ok html
    | None =>
        Throw (TypeError
                 "Cannot read properties of null (reading 'querySelectorAll')")
    end.
Proof.
  intros HN. unfold capture, stripped_body_html.
  rewrite removeAttribute_all by done.
  rewrite document_body_map_attrs.
  destruct (document_body doc) as [b|] eqn:Hb; [|done]. simpl.
  fold (strip_styles b). fold (strip_styles doc).
  assert (NoDup (ids (strip_styles b))) as HNb.
  { unfold strip_styles. rewrite ids_map_attrs.
    eapply NoDup_ids_child; [done|]. by apply document_body_child. }
  rewrite fold_remove.
  rewrite (document_body_drop _ _ (strip_styles b)).
  - simpl. by rewrite remove_selected.
  - unfold strip_styles. by rewrite document_body_map_attrs, Hb.
  - by apply querySelectorAll_not_self.
Qed.

(** ** What the two transforms of the claim leave behind *)

Lemma elements_map_attrs f n :
  elements (map_attrs f n) = map (map_attrs f) (elements n).
Proof.
  induction n as [i t a ch IH| |] using node_ind'; try done.
  simpl. f_equal.
  induction IH as [|c ch Hc _ IHch]; [done|].
  simpl. by rewrite map_app, Hc, IHch.
Qed.

Lemma remove_attr_absent name a :
  NoDup (map fst a) -> ~ In name (map fst (remove_attr name a)).
Proof.
  induction a as [|[k v] a IH]; simpl; [by intros _ []|].
  intros [Hk Ha]%NoDup_cons.
  destruct (String.eqb k name) eqn:E.
  - apply String.eqb_eq in E as ->. by rewrite <- list_elem_of_In.
  - simpl. intros [->|H]; [by rewrite String.eqb_refl in E|by apply IH].
Qed.

(** After [strip_styles] no element carries a [style] attribute (attribute
    names are unique within an element). *)
Lemma strip_styles_spec n i t a ch :
  (forall j u b k, In (Element j u b k) (elements n) -> NoDup (map fst b)) ->
  In (Element i t a ch) (elements (strip_styles n)) ->
  ~ In "style"%string (map fst a).
Proof.
  intros Hu. unfold strip_styles. rewrite elements_map_attrs.
  intros ([j u b k| |] & Heq & Hin)%in_map_iff; simpl in Heq; try done.
  injection Heq as <- <- <- <-. eapply remove_attr_absent, Hu, Hin.
Qed.

(** After [prune] no element of the listed names is left below the root. *)
Lemma prune_spec names n c :
  In c (descendants (prune names n)) -> has_tag names c = false.
Proof.
  unfold prune. revert c.
  induction n as [i t a ch IH| |] using node_ind'; intros c; try done.
  rewrite drop_Element. unfold descendants. simpl.
  induction IH as [|k ch Hk _ IHch]; simpl; [done|].
  destruct (has_tag names k) eqn:E; simpl; [exact IHch|].
  rewrite in_app_iff. intros [Hc|Hc]; [|by apply IHch].
  destruct k as [j u b l| |]; try done.
  rewrite drop_Element in Hc, Hk. simpl in Hc. destruct Hc as [<-|Hc]; [done|].
  apply Hk. unfold descendants. simpl. exact Hc.
Qed.

(** * The runs *)

(** Symbolic execution of a run: every answer of the world is split into its
    cases, in the order the script asks for them. *)
Ltac exec_step :=
  match goal with
  | |- context [page_document ?w ?h] =>
      let E := fresh "Edoc" in
      destruct (page_document w h) as [?|?] eqn:E
  | |- context [fst (capture ?sel ?d)] =>
      let E := fresh "Ecapture" in
      destruct (fst (capture sel d)) as [?|?] eqn:E
  | |- context [browser_close_result ?w ?h] =>
      let E := fresh "Eclose" in
      destruct (browser_close_result w h) as [?|?] eqn:E
  | |- context [match ?x with Ok _ => _ | Throw _ => _ end] =>
      let E := fresh "E" in destruct x as [?|?] eqn:E
  | |- context [match content ?m with [] => _ | _ :: _ => _ end] =>
      let E := fresh "Econtent" in destruct (content m) as [|? ?] eqn:E
  | |- context [match JSON_parse ?x with Some _ => _ | None => _ end] =>
      let E := fresh "Eparse" in destruct (JSON_parse x) as [?|] eqn:E
  | |- context [match ?x with VString _ => _ | VUndefined => _ end] =>
      destruct x as [?|]
  | |- context [match ?x with Written => _ | WriteFailed _ _ => _ end] =>
      let E := fresh "Ewrite" in destruct x as [|? [?|]] eqn:E
  | |- context [match ?x with ErrorObject _ _ _ => _ | NonError _ => _ end] =>
      is_var x; destruct x as [? ? ?|?]
  | |- context [match ?x with ErrorObject _ _ _ => _ | NonError _ => _ end] =>
      destruct x as [? ? ?|?]
  | u : unit |- _ => destruct u
  end.

Ltac exec_run :=
  cbv [run runTest_of try_of initial_state
       TestGenerator.runTest Tester.runTest
       TestGenerator.runTest_try Tester.runTest_try
       TestGenerator.generatePlaywrightCode Tester.generatePlaywrightCode
       Tester.JSON_parse_value try_catch_finally log_failure cleanup
       bind ret throw call emit record chromium_launch browser_newPage page_goto
       page_evaluate returned_to_script evaluation_error page_close browser_close
       messages_create writeFileSync
       content_0_text console_log console_error set_browser set_page
       get_browser get_page TypeError SyntaxError trace files browser page];
  repeat (exec_step; cbv beta iota zeta);
  cbn [app fst snd trace files browser page].

Section Runs.

Variable JSON_stringify : json -> string.

Lemma run_try_catch_finally sc w url testName fs :
  run JSON_stringify sc w url testName fs
  = try_catch_finally (try_of JSON_stringify sc w url testName) log_failure
                      (cleanup w) (initial_state fs).
Proof. by destruct sc. Qed.

(** What the [finally] adds to a trace. *)
Lemma cleanup_closes w s :
  exists closes,
    trace (snd (cleanup w s)) = trace s ++ closes /\
    files (snd (cleanup w s)) = files s /\
    forallb is_close closes = true /\
    (fst (cleanup w s) = Ok tt \/
     exists e, fst (cleanup w s) = Throw e /\
               (In (PageClose (Throw e)) closes \/
                In (BrowserClose (Throw e)) closes)).
Proof.
  destruct s as [t fs [b|] [p|]];
    cbv [cleanup bind ret call record get_page get_browser page_close
         browser_close trace files browser page];
    repeat (exec_step; cbv beta iota zeta); cbn [fst snd trace files].
  all: first [ exists []; split; [by rewrite app_nil_r|]
          | eexists; split; [rewrite <- ?app_assoc; reflexivity|] ].
  all: (split; [reflexivity|]); (split; [reflexivity|]).
  all: first [by left | right; eexists; split; [reflexivity|]; cbn; eauto 6].
Qed.

End Runs.

(** Executing the one run a goal speaks of, once, however often the goal
    mentions it. *)
Ltac exec_the_run :=
  match goal with
  | |- context [run ?J ?sc ?w ?u ?n ?fs] =>
      let rs := fresh "rs" in
      let r := fresh "r" in
      let s := fresh "s" in
      let H := fresh "Hrun" in
      remember (run J sc w u n fs) as rs eqn:H;
      destruct rs as [r s]; symmetry in H; revert H;
      try (is_var sc; destruct sc);
      exec_run; intros [= <- <-];
      cbn [fst snd trace files browser page]
  end.

(** ** Checks along a trace *)

Lemma each_step_spec ok : forall t before,
  each_step ok before t = true ->
  forall i e, nth_error t i = Some e -> ok (before ++ firstn i t) e = true.
Proof.
  induction t as [|x t IH]; intros before H i e Hi; [by destruct i|].
  simpl in H. apply andb_prop in H as [Hx Ht].
  destruct i as [|i]; simpl in *.
  - simplify_eq. by rewrite app_nil_r.
  - specialize (IH _ Ht i e Hi). by rewrite <- app_assoc in IH.
Qed.

Section Checks.

Variable JSON_stringify : json -> string.

(** Every check holds of every run of either script. *)
Lemma run_trace_ok sc w url testName fs :
  trace_ok (trace (snd (run JSON_stringify sc w url testName fs))) = true.
Proof. exec_the_run; reflexivity. Qed.

End Checks.

(** * The shape of a run *)

Section Shapes.

Variable JSON_stringify : json -> string.

(** The [try] block prints no failure line itself. *)
Lemma try_logs_nothing sc w url testName fs :
  logged_failures
    (trace (snd (try_of JSON_stringify sc w url testName (initial_state fs))))
  = [].
Proof. destruct sc; exec_run; reflexivity. Qed.

(** The handler prints the thrown value and throws nothing. *)
Lemma log_failure_spec e s :
  log_failure e s
  = (Ok tt, record (ConsoleError "Test failed:" (payload_of e)) s).
Proof. by destruct e. Qed.

Lemma logged_failures_app t1 t2 :
  logged_failures (t1 ++ t2) = logged_failures t1 ++ logged_failures t2.
Proof.
  induction t1 as [|e t1 IH]; [done|]. destruct e; simpl; by rewrite IH.
Qed.

Lemma logged_failures_closes closes :
  forallb is_close closes = true -> logged_failures closes = [].
Proof.
  induction closes as [|e t IH]; [done|]. destruct e; simpl; try done; exact IH.
Qed.

(** A run that succeeded, step by step. *)
Lemma success_shape sc w url testName fs :
  succeeded (trace (snd (run JSON_stringify sc w url testName fs))) ->
  exists document html m1 text1 rest1 q2 m2 code rest2,
    captures (trace (snd (run JSON_stringify sc w url testName fs)))
      = [(Ok document, Ok html)] /\
    fst (capture (selectors_of sc) document) = Ok html /\
    creates (trace (snd (run JSON_stringify sc w url testName fs)))
      = [(extract_request sc html testName, Ok m1); (q2, Ok m2)] /\
    content m1 = text1 :: rest1 /\
    generate_request JSON_stringify sc text1 testName = Some q2 /\
    content m2 = VString code :: rest2 /\
    writes (trace (snd (run JSON_stringify sc w url testName fs)))
      = [(output_path, VString code, Ok tt)] /\
    files (snd (run JSON_stringify sc w url testName fs)) !! output_path
      = Some code.
Proof.
  unfold succeeded.
  exec_the_run; cbn [logged_failures]; intros Hs; try discriminate.
  all: do 9 eexists.
  all: cbn [captures creates writes selectors_of extract_request
            generate_request].
  all: rewrite ?lookup_insert_eq, ?Eparse.
  all: repeat split; try reflexivity; try eassumption.
Qed.

(** The calls to the model a run makes: none, the first alone, or the first,
    answered, and then the second, built from the first answer's text. *)
Lemma run_creates sc w url testName fs :
  let t := trace (snd (run JSON_stringify sc w url testName fs)) in
  creates t = [] \/
  (exists document html r1,
     captures t = [(document, Ok html)] /\
     creates t = [(extract_request sc html testName, r1)] /\
     forall m1 text1 more,
       r1 = Ok m1 -> content m1 = text1 :: more ->
       generate_request JSON_stringify sc text1 testName = None) \/
  (exists document html m1 text1 more q2 r2,
     captures t = [(document, Ok html)] /\
     creates t = [(extract_request sc html testName, Ok m1); (q2, r2)] /\
     content m1 = text1 :: more /\
     generate_request JSON_stringify sc text1 testName = Some q2).
Proof.
  exec_the_run;
    cbn [creates captures extract_request generate_request];
    first
      [ by left
      | right; left; eexists _, _, _; split; [reflexivity|];
        split; [reflexivity|]; intros; simplify_eq;
        first
          [ congruence
          | match goal with
            | H : content ?m = ?a :: _, H' : content ?m = ?b :: _ |- _ =>
                assert (a = b) as -> by congruence
            end; by rewrite Eparse ]
      | right; right; eexists _, _, _, _, _, _, _;
        rewrite ?Eparse; by repeat split ].
Qed.

(** What the capture step hands back is what the callback computed on the
    document of the page; a page that has no document to show makes the
    step throw what the page threw. *)
Lemma run_captures_shape sc w url testName fs :
  let t := trace (snd (run JSON_stringify sc w url testName fs)) in
  captures t = [] \/
  exists d,
    captures t
    = [(d, match d with
           | Ok document =>
               returned_to_script (fst (capture (selectors_of sc) document))
           | Throw e => Throw e
           end)].
Proof.
  exec_the_run; cbn [captures];
    first
      [ by left
      | right;
        match goal with
        | |- exists d, [(?x, _)] = _ => exists x
        end;
        cbn [selectors_of]; rewrite ?Ecapture; reflexivity ].
Qed.

Lemma run_captures sc w url testName fs document r :
  In (Ok document, r)
     (captures (trace (snd (run JSON_stringify sc w url testName fs)))) ->
  r = returned_to_script (fst (capture (selectors_of sc) document)).
Proof.
  destruct (run_captures_shape sc w url testName fs) as [->|[d ->]];
    [done|].
  by intros [[= -> <-]|[]].
Qed.

(** The files after a run: only the output path can differ, and it does only
    through a write; a write that returned left its data there; and when the
    [try] block failed, either no write was attempted or the write itself is
    what threw. *)
Lemma run_files sc w url testName fs :
  let s := snd (run JSON_stringify sc w url testName fs) in
  (forall p, p <> output_path -> files s !! p = fs !! p) /\
  (writes (trace s) = [] -> files s = fs) /\
  (forall p d, In (p, d, Ok tt) (writes (trace s)) ->
               exists code, d = VString code /\
                            files s !! output_path = Some code) /\
  (logged_failures (trace s) <> [] ->
   writes (trace s) = [] \/
   exists d e, writes (trace s) = [(output_path, d, Throw e)] /\
               logged_failures (trace s) = [payload_of e]).
Proof.
  exec_the_run; cbn [writes logged_failures In].
  all: split; [intros p Hp; unfold output_path in Hp;
               by rewrite ?lookup_insert_ne by done|].
  all: split; [by intros|].
  all: split;
    [intros p d H;
     first [ by destruct H
           | destruct H as [H|[]]; simplify_eq;
             eexists; split; [reflexivity|apply lookup_insert_eq]
           | by destruct H as [H|[]]; simplify_eq ]|].
  all: first [ intros _; by left
             | intros _; right; by eexists _, _
             | intros H; by destruct H ].
Qed.

(** tester.ts: a first answer whose text is no JSON ends the run at
    [JSON.parse]; the SyntaxError is what the handler prints, no second call
    and no write are made, and the files stay as they were. *)
Lemma tester_rejects_bad_json w url testName fs q m1 rest text1 more :
  let s := snd (run JSON_stringify tester_ts w url testName fs) in
  creates (trace s) = (q, Ok m1) :: rest ->
  content m1 = text1 :: more ->
  JSON_parse (to_string text1) = None ->
  rest = [] /\
  logged_failures (trace s)
    = [payload_of (SyntaxError "Unexpected token in JSON")] /\
  writes (trace s) = [] /\ files s = fs.
Proof.
  exec_the_run; cbn [creates writes logged_failures];
    intros Hc Hm Hp; simplify_eq; try congruence; done.
Qed.

End Shapes.

(** * The claims *)

Lemma trace_ok_parts t :
  trace_ok t = true ->
  each_step step_allowed [] t = true /\
  each_step stops_after_failure [] t = true /\
  closes_last t = true /\ once_each t = true /\ resource_check t = true /\
  forallb write_path_ok (writes t) = true.
Proof.
  unfold trace_ok. intros H.
  repeat (apply andb_prop in H as [H ?]). done.
Qed.

Lemma implb_elim a b : implb a b = true -> a = true -> b = true.
Proof. by destruct a, b. Qed.

Section Claims.

Variable JSON_stringify : json -> string.

(** C1, as amended: the text [page.evaluate] hands back for a page is the
    serialized body ([document.body.innerHTML]) after the [style] attribute
    has left every element and every element of the script's selector list
    has left the body: [link], [script], [style], [svg] and [meta] in
    test-generatior.ts, but [link], [script] and [style] only in tester.ts. A
    page without a body makes the callback throw. *)
Theorem captured_html_is_stripped_body sc w url testName fs document r :
  In (Ok document, r)
     (captures (trace (snd (run JSON_stringify sc w url testName fs)))) ->
  NoDup (ids document) ->
  r = match stripped_body_html (selectors_of sc) document with
      | Some html => Ok html
      | None =>
          Throw (evaluation_error
                   (TypeError
                      "Cannot read properties of null (reading 'querySelectorAll')"))
      end /\
  selectors_of test_generatior_ts = ["link"; "script"; "style"; "svg"; "meta"] /\
  selectors_of tester_ts = ["link"; "script"; "style"].
Proof.
  intros Hin HN. split; [|done].
  apply run_captures in Hin as ->. rewrite capture_spec by done.
  by destruct (stripped_body_html (selectors_of sc) document).
Qed.

(** C2, as amended: whatever the [try] block of [runTest] throws is caught
    by the one handler and printed by [console.error], once; after it only the
    two close calls follow, and the promise [runTest] returns is rejected only
    with what one of these close calls threw. *)
Theorem runTest_catches_try_errors sc w url testName fs e s1 :
  try_of JSON_stringify sc w url testName (initial_state fs) = (Throw e, s1) ->
  exists closes,
    trace (snd (run JSON_stringify sc w url testName fs))
      = trace s1 ++ ConsoleError "Test failed:" (payload_of e) :: closes /\
    logged_failures (trace (snd (run JSON_stringify sc w url testName fs)))
      = [payload_of e] /\
    forallb is_close closes = true /\
    (fst (run JSON_stringify sc w url testName fs) = Ok tt \/
     exists e', fst (run JSON_stringify sc w url testName fs) = Throw e' /\
                (In (PageClose (Throw e')) closes \/
                 In (BrowserClose (Throw e')) closes)).
Proof.
  intros Htry.
  pose proof (try_logs_nothing JSON_stringify sc w url testName fs) as Hlog.
  rewrite run_try_catch_finally. unfold try_catch_finally.
  rewrite Htry in *. rewrite log_failure_spec. simpl in Hlog.
  set (s2 := record (ConsoleError "Test failed:" (payload_of e)) s1).
  destruct (cleanup_closes w s2) as (closes & Ht & _ & Hc & Hr).
  exists closes.
  assert (trace (snd (let '(r, s3) := cleanup w s2 in
                      match r with
                      | Ok _ => (Ok tt, s3)
                      | Throw e0 => (Throw e0, s3)
                      end))
          = trace s1 ++ ConsoleError "Test failed:" (payload_of e) :: closes)
    as Htrace.
  { destruct (cleanup w s2) as [[[]|e0] s3]; simpl in *;
      rewrite Ht; unfold s2; simpl; by rewrite <- app_assoc. }
  split; [exact Htrace|]. split.
  - rewrite Htrace, logged_failures_app, Hlog. simpl.
    by rewrite logged_failures_closes.
  - split; [done|].
    destruct (cleanup w s2) as [[[]|e0] s3]; simpl in *; [by left|].
    right. exists e0. split; [done|].
    destruct Hr as [?|(e' & [= <-] & Hin)]; [done|exact Hin].
Qed.

(** C3, as amended: a run opens at most one browser and at most one page;
    the close calls are the last thing it does; a page that was opened has
    [close] called on it; the browser that was opened has [close] called on it
    when no page was opened or the page's [close] returned; and when no close
    call throws, nothing the run opened is left open. *)
Theorem runTest_closes_what_it_opened sc w url testName fs :
  let t := trace (snd (run JSON_stringify sc w url testName fs)) in
  count_events is_launch_ok t <= 1 /\
  count_events is_newPage_ok t <= 1 /\
  closes_last t = true /\
  (existsb is_newPage_ok t = true -> existsb is_page_close t = true) /\
  (existsb is_launch_ok t = true ->
   (existsb is_newPage_ok t = true -> existsb is_page_close_ok t = true) ->
   existsb is_browser_close t = true) /\
  (forallb close_ok t = true -> left_open t = mkResources false false).
Proof.
  intros t.
  pose proof (run_trace_ok JSON_stringify sc w url testName fs) as H.
  apply trace_ok_parts in H as (_ & _ & Hlast & _ & Hres & _). fold t in Hres, Hlast.
  unfold resource_check in Hres.
  repeat (apply andb_prop in Hres as [Hres ?]).
  split; [by apply Nat.leb_le|]. split; [by apply Nat.leb_le|].
  split; [done|]. split; [by apply implb_elim|]. split.
  - intros Hb Hp. eapply implb_elim; [eassumption|].
    rewrite Hb. simpl. destruct (existsb is_newPage_ok t); [|done].
    simpl. by apply Hp.
  - intros Hc. assert (nothing_open (left_open t) = true) as Ho
      by (by eapply implb_elim).
    destruct (left_open t) as [[] []]; done.
Qed.

(** C4: the steps come in the order of the pipeline.  At every call of a
    run, what it needs has returned before: the launch before [newPage], that
    before the navigation, the navigation before the capture, the capture
    before any call to the model, every earlier call to the model before the
    next one, and both calls to the model before the write; and the second
    request is built from the text of the first answer. *)
Theorem pipeline_order sc w url testName fs i e :
  nth_error (trace (snd (run JSON_stringify sc w url testName fs))) i = Some e ->
  let t := trace (snd (run JSON_stringify sc w url testName fs)) in
  let before := firstn i t in
  (is_newPage e = true -> existsb is_launch_ok before = true) /\
  (is_goto e = true -> existsb is_newPage_ok before = true) /\
  (is_evaluate e = true -> existsb is_goto_ok before = true) /\
  (is_create e = true ->
   existsb is_evaluate_ok before = true /\
   count_events is_create before = count_events is_create_ok before) /\
  (is_write e = true -> count_events is_create_ok before = 2) /\
  (forall q1 r1 q2 r2 rest,
     creates t = (q1, r1) :: (q2, r2) :: rest ->
     exists m1 text1 more,
       r1 = Ok m1 /\ content m1 = text1 :: more /\
       generate_request JSON_stringify sc text1 testName = Some q2).
Proof.
  intros Hi t before.
  pose proof (run_trace_ok JSON_stringify sc w url testName fs) as H.
  apply trace_ok_parts in H as (Hord & _).
  pose proof (each_step_spec _ _ _ Hord i e Hi) as Hok. simpl in Hok.
  fold t in Hok. fold before in Hok.
  split; [|split; [|split; [|split; [|split]]]].
  - destruct e; try done; intros _; exact Hok.
  - destruct e; try done; intros _; exact Hok.
  - destruct e; try done; intros _; exact Hok.
  - destruct e; try done; intros _; simpl in Hok;
      apply andb_prop in Hok as [? Hc]; split; [done|];
      by apply Nat.eqb_eq in Hc.
  - destruct e; try done; intros _; simpl in Hok; by apply Nat.eqb_eq in Hok.
  - intros q1 r1 q2 r2 rest Hc.
    destruct (run_creates JSON_stringify sc w url testName fs)
      as [H0|[(d & h & r & _ & H1 & _)|(d & h & m1 & t1 & more & q & r & _ & H2 & Hm & Hg)]];
      fold t in H0 || fold t in H1 || fold t in H2; [congruence..|].
    rewrite Hc in H2. simplify_eq. by eexists _, _, _.
Qed.

(** C5, as amended: in tester.ts a first answer whose text is no JSON makes
    [JSON.parse] throw; the error is caught and printed, no second call and no
    write follow and the files stay as they were.  test-generatior.ts does
    not parse the text: whatever it is, it goes into the second request.  In
    both scripts a run whose [try] block failed either attempted no write, and
    then left the files as they were, or failed in the write itself. *)
Theorem failed_runs_write_nothing sc w url testName fs :
  let s := snd (run JSON_stringify sc w url testName fs) in
  (sc = tester_ts ->
   forall q m1 rest text1 more,
     creates (trace s) = (q, Ok m1) :: rest ->
     content m1 = text1 :: more ->
     JSON_parse (to_string text1) = None ->
     rest = [] /\
     logged_failures (trace s)
       = [payload_of (SyntaxError "Unexpected token in JSON")] /\
     writes (trace s) = [] /\ files s = fs) /\
  (sc = test_generatior_ts ->
   forall q m1 rest text1 more,
     creates (trace s) = (q, Ok m1) :: rest ->
     content m1 = text1 :: more ->
     exists r2,
       rest = [(TestGenerator.request_of
                  (TestGenerator.generate_prompt testName
                     (TestGenerator.stringify_data text1)), r2)]) /\
  (logged_failures (trace s) <> [] ->
   (writes (trace s) = [] /\ files s = fs) \/
   exists d e, writes (trace s) = [(output_path, d, Throw e)] /\
               logged_failures (trace s) = [payload_of e]).
Proof.
  intros s. split; [|split].
  - intros -> q m1 rest text1 more Hc Hm Hp.
    by apply (tester_rejects_bad_json JSON_stringify w url testName fs
                q m1 rest text1 more).
  - intros -> q m1 rest text1 more Hc Hm.
    destruct (run_creates JSON_stringify test_generatior_ts w url testName fs)
      as [H0|[(d & h & r & _ & H1 & Hn)|(d & h & m & t1 & mo & q2 & r2 & _ & H2 & Hm' & Hg)]];
      fold s in H0 || fold s in H1 || fold s in H2.
    + by rewrite Hc in H0.
    + rewrite Hc in H1. simplify_eq. specialize (Hn _ _ _ eq_refl Hm).
      unfold generate_request in Hn. discriminate Hn.
    + rewrite Hc in H2. simplify_eq. rewrite Hm in Hm'. simplify_eq.
      unfold generate_request in Hg. simplify_eq. by eexists.
  - intros Hl.
    destruct (run_files JSON_stringify sc w url testName fs)
      as (_ & Hw & _ & Hf). fold s in Hw, Hf.
    destruct (Hf Hl) as [H0|H1]; [left; split; [done|by apply Hw]|by right].
Qed.

(** C6: a run changes no file but the one at ['src/test.ts'], the only path
    it ever writes to, whatever the inputs; and a run that succeeded wrote
    there, once, the text of the second answer, which is what the file then
    holds. *)
Theorem only_output_path_written sc w url testName fs :
  let s := snd (run JSON_stringify sc w url testName fs) in
  output_path = "src/test.ts" /\
  (forall p, p <> output_path -> files s !! p = fs !! p) /\
  (forall p d r, In (p, d, r) (writes (trace s)) -> p = output_path) /\
  (succeeded (trace s) ->
   exists q1 m1 q2 m2 code more,
     creates (trace s) = [(q1, Ok m1); (q2, Ok m2)] /\
     content m2 = VString code :: more /\
     writes (trace s) = [(output_path, VString code, Ok tt)] /\
     files s !! output_path = Some code).
Proof.
  intros s. split; [done|]. split; [|split].
  - by destruct (run_files JSON_stringify sc w url testName fs) as (? & _).
  - intros p d r Hin.
    pose proof (run_trace_ok JSON_stringify sc w url testName fs) as H.
    apply trace_ok_parts in H as (_ & _ & _ & _ & _ & Hp). fold s in Hp.
    rewrite forallb_forall in Hp. apply Hp in Hin.
    by apply String.eqb_eq in Hin.
  - intros Hs.
    destruct (success_shape JSON_stringify sc w url testName fs Hs)
      as (d & h & m1 & t1 & r1 & q2 & m2 & code & r2 & _ & _ & Hc & _ & _ & Hm & Hw & Hf).
    by eexists _, _, _, _, _, _.
Qed.

(** C7: no call is made twice.  A run calls the model not at all, or once
    with the first request, or, the first call answered, once more with the
    second request; a run that succeeded made exactly these two calls; no call
    site is visited twice; and once a call has thrown, nothing follows but the
    handler's line and the two close calls. *)
Theorem no_retry sc w url testName fs :
  let t := trace (snd (run JSON_stringify sc w url testName fs)) in
  (creates t = [] \/
   (exists html r1, creates t = [(extract_request sc html testName, r1)]) \/
   (exists html m1 text1 more q2 r2,
      creates t = [(extract_request sc html testName, Ok m1); (q2, r2)] /\
      content m1 = text1 :: more /\
      generate_request JSON_stringify sc text1 testName = Some q2)) /\
  (succeeded t -> length (creates t) = 2) /\
  once_each t = true /\
  (forall i e, nth_error t i = Some e ->
               existsb failed (firstn i t) = true -> is_aftermath e = true).
Proof.
  intros t. split; [|split; [|split]].
  - destruct (run_creates JSON_stringify sc w url testName fs)
      as [H0|[(d & h & r & _ & H1 & _)|(d & h & m & t1 & mo & q2 & r2 & _ & H2 & Hm & Hg)]].
    + by left.
    + right; left. by eexists _, _.
    + right; right. by eexists _, _, _, _, _, _.
  - intros Hs.
    destruct (success_shape JSON_stringify sc w url testName fs Hs)
      as (d & h & m1 & t1 & r1 & q2 & m2 & code & r2 & _ & _ & Hc & _).
    fold t in Hc. by rewrite Hc.
  - pose proof (run_trace_ok JSON_stringify sc w url testName fs) as H.
    by apply trace_ok_parts in H as (_ & _ & _ & ? & _).
  - intros i e Hi Hf.
    pose proof (run_trace_ok JSON_stringify sc w url testName fs) as H.
    apply trace_ok_parts in H as (_ & Hstop & _).
    pose proof (each_step_spec _ _ _ Hstop i e Hi) as Hok. simpl in Hok.
    fold t in Hok. unfold stops_after_failure in Hok.
    by eapply implb_elim.
Qed.

(** C8, as amended: what a run captures and sends is a function of its
    inputs, and so is the output file of a run that succeeds.  Two runs of a
    script on the same url and scenario that were shown the same document and
    were given the same answers by the model captured the same text and sent
    the same requests; and when both succeeded they left the same text in
    the output file, however else their worlds and their files differ.  (A
    write that fails in one of them leaves the two files different.)  The
    function is the one the source gives: the text captured is what the
    callback returns on the document, the first request is built from that
    text and the scenario, the second from the text of the first answer. *)
Theorem same_inputs_same_outputs sc w1 w2 url testName fs1 fs2 :
  let s1 := snd (run JSON_stringify sc w1 url testName fs1) in
  let s2 := snd (run JSON_stringify sc w2 url testName fs2) in
  map fst (captures (trace s1)) = map fst (captures (trace s2)) ->
  map snd (creates (trace s1)) = map snd (creates (trace s2)) ->
  map snd (captures (trace s1)) = map snd (captures (trace s2)) /\
  map fst (creates (trace s1)) = map fst (creates (trace s2)) /\
  (succeeded (trace s1) -> succeeded (trace s2) ->
   files s1 !! output_path = files s2 !! output_path) /\
  (forall document r,
     In (Ok document, r) (captures (trace s1)) ->
     r = returned_to_script (fst (capture (selectors_of sc) document))) /\
  (forall q r rest,
     creates (trace s1) = (q, r) :: rest ->
     exists d html,
       captures (trace s1) = [(d, Ok html)] /\
       q = extract_request sc html testName) /\
  (forall c1 q2 r2 rest,
     creates (trace s1) = c1 :: (q2, r2) :: rest ->
     exists m1 text1 more,
       snd c1 = Ok m1 /\ content m1 = text1 :: more /\
       generate_request JSON_stringify sc text1 testName = Some q2).
Proof.
  intros s1 s2 Hd Hr.
  assert (captures (trace s1) = captures (trace s2)) as Hcap.
  { destruct (run_captures_shape JSON_stringify sc w1 url testName fs1)
      as [H1|[d1 H1]],
      (run_captures_shape JSON_stringify sc w2 url testName fs2)
      as [H2|[d2 H2]]; fold s1 in H1; fold s2 in H2;
      rewrite H1, H2 in *; simpl in Hd; by simplify_eq. }
  split; [by rewrite Hcap|].
  assert (map fst (creates (trace s1)) = map fst (creates (trace s2))) as Hq.
  { destruct (run_creates JSON_stringify sc w1 url testName fs1)
      as [H1|[(d & h & r & Hc1 & H1 & _)
             |(d & h & m1 & t1 & more & q2 & r2 & Hc1 & H1 & Hm1 & Hg1)]],
      (run_creates JSON_stringify sc w2 url testName fs2)
      as [H2|[(d' & h' & r' & Hc2 & H2 & _)
             |(d' & h' & m1' & t1' & more' & q2' & r2' & Hc2 & H2 & Hm2 & Hg2)]];
      fold s1 in H1; fold s2 in H2; rewrite H1, H2 in *;
      simpl in Hr; simplify_eq; try done;
      fold s1 in Hc1; fold s2 in Hc2; rewrite Hc1, Hc2 in Hcap;
      simplify_eq; simpl; try done.
    assert (t1 = t1') as <- by congruence. congruence. }
  split; [done|].
  split.
  { intros S1 S2.
    destruct (success_shape JSON_stringify sc w1 url testName fs1 S1)
      as (d & h & m1 & t1 & r1 & q2 & m2 & code & r2
          & _ & _ & Hc & _ & _ & Hm2 & _ & Hf).
    destruct (success_shape JSON_stringify sc w2 url testName fs2 S2)
      as (d' & h' & m1' & t1' & r1' & q2' & m2' & code' & r2'
          & _ & _ & Hc' & _ & _ & Hm2' & _ & Hf').
    fold s1 in Hc, Hf. fold s2 in Hc', Hf'.
    rewrite Hc, Hc' in Hr. rewrite Hf, Hf'. simpl in Hr. simplify_eq.
    congruence. }
  split; [intros document r; apply run_captures|].
  destruct (run_creates JSON_stringify sc w1 url testName fs1)
    as [H1|[(d & h & r1 & Hc1 & H1 & _)
           |(d & h & m1 & t1 & more & q2 & r2 & Hc1 & H1 & Hm1 & Hg1)]];
    fold s1 in H1; rewrite H1.
  - by split.
  - fold s1 in Hc1. split; [|done].
    intros q r rest [= <- <- <-]. by exists d, h.
  - fold s1 in Hc1. split.
    + intros q r rest [= <- <- <-]. by exists d, h.
    + intros c1 q2' r2' rest [= <- <- <- <-]. by exists m1, t1, more.
Qed.

End Claims.

(** C10: the code at the claim's input.  With the default criterion
    [filterHTML] keeps no tag at all: every test is made on a text that ends
    before the [>] the criterion asks for, so the result is the empty string
    whatever the document. *)
Theorem filterHTML_default_keeps_nothing html :
  filterHTML html [] = Some ""%string.
Proof. apply filterHTML_default. Qed.

(** * The claims at test points *)

(** [JSON.parse], [trim] and the quoting of a string at some texts. *)
Example JSON_parse_accepts :
  JSON_parse (concat_strings
                [" {"; dq; "a"; dq; ": [1, -2.5e3, true, null]} "])
  = Some (JObject
            [("a"%string,
              JArray [JNumber "1"; JNumber "-2.5e3"; JBool true; JNull])]).
Proof. vm_compute. reflexivity. Qed.

Example JSON_parse_rejects :
  map JSON_parse ["[1,]"; "01"; "undefined"; "{} x"; "'a'"]%string
  = [None; None; None; None; None].
Proof. vm_compute. reflexivity. Qed.

Example trim_both_ends :
  trim (String " "%char (String newline "a b  ")) = "a b"%string.
Proof. vm_compute. reflexivity. Qed.

Example quote_json_string_escapes :
  quote_json_string (String dquote (String newline "a"))
  = concat_strings [dq; "\"; dq; "\n"; "a"; dq].
Proof. vm_compute. reflexivity. Qed.

Lemma NoDup_sample_page : NoDup (ids sample_page).
Proof. apply (bool_decide_unpack _). vm_compute. exact I. Defined.

(** C1 at the sample page, captured by test-generatior.ts. *)
Lemma captured_html_is_stripped_body_witness :
  fst (capture TestGenerator.selectors sample_page)
  = match stripped_body_html (selectors_of test_generatior_ts) sample_page with
    | Some html => Ok html
    | None =>
        Throw (evaluation_error
                 (TypeError
                    "Cannot read properties of null (reading 'querySelectorAll')"))
    end.
Proof.
  refine (proj1 (captured_html_is_stripped_body compact test_generatior_ts
                   (world_ok sample_page json_answer code_answer)
                   youtube search_scenario ∅ sample_page _ _ _)).
  - vm_compute. left. reflexivity.
  - exact NoDup_sample_page.
Defined.

(** C1 as stated fails in tester.ts: a drawing inside the body is not
    removed there, so the captured text still holds it, while the body
    stripped of all five kinds of node is empty. *)
Lemma tester_capture_keeps_svg :
  captures (trace (snd (run compact tester_ts
                          (world_ok drawing_page json_answer code_answer)
                          facebook login_scenario ∅)))
    = [(Ok drawing_page, Ok "<svg></svg>"%string)] /\
  stripped_body_html ["link"; "script"; "style"; "svg"; "meta"] drawing_page
    = Some ""%string.
Proof. split; vm_compute; reflexivity. Qed.

(** C2 where the navigation fails: the error is what the handler prints. *)
Lemma runTest_catches_try_errors_witness :
  logged_failures
    (trace (snd (run compact test_generatior_ts world_no_route
                     youtube search_scenario ∅)))
  = [payload_of net_error].
Proof.
  edestruct (runTest_catches_try_errors compact test_generatior_ts
               world_no_route youtube search_scenario ∅)
    as (closes & _ & H & _); [vm_compute; reflexivity|exact H].
Defined.

(** C2 as stated fails: when the navigation fails and closing the page
    fails too, the promise of [runTest] is rejected with the second error. *)
Lemma runTest_rejects_when_close_throws :
  fst (run compact test_generatior_ts world_no_route_no_close
           youtube search_scenario ∅)
  = Throw close_error.
Proof. vm_compute. reflexivity. Qed.

(** C3 on a run in which every call returns: nothing is left open. *)
Lemma runTest_closes_what_it_opened_witness :
  left_open (trace (snd (run compact test_generatior_ts
                             (world_ok sample_page json_answer code_answer)
                             youtube search_scenario ∅)))
  = mkResources false false.
Proof.
  destruct (runTest_closes_what_it_opened compact test_generatior_ts
              (world_ok sample_page json_answer code_answer)
              youtube search_scenario ∅) as (_ & _ & _ & _ & _ & H).
  apply H. vm_compute. reflexivity.
Defined.

(** C3 as stated fails: when the browser cannot be started, the run opens
    no browser and no page. *)
Lemma launch_failure_opens_nothing :
  count_events is_launch_ok
    (trace (snd (run compact test_generatior_ts world_no_browser
                     youtube search_scenario ∅))) = 0 /\
  count_events is_newPage_ok
    (trace (snd (run compact test_generatior_ts world_no_browser
                     youtube search_scenario ∅))) = 0.
Proof. split; vm_compute; reflexivity. Qed.

(** C4 at the write of a run in which every call returns: both calls to
    the model have returned before it. *)
Lemma pipeline_order_witness :
  count_events is_create_ok
    (firstn 8 (trace (snd (run compact tester_ts
                               (world_ok sample_page json_answer code_answer)
                               facebook login_scenario ∅))))
  = 2.
Proof.
  edestruct (pipeline_order compact tester_ts
               (world_ok sample_page json_answer code_answer)
               facebook login_scenario ∅ 8) as (_ & _ & _ & _ & H & _);
    [vm_compute; reflexivity|].
  apply H. reflexivity.
Defined.

(** C5 in tester.ts, with a model that answers in prose: nothing is
    written. *)
Lemma failed_runs_write_nothing_witness :
  files (snd (run compact tester_ts
                  (world_ok sample_page prose_answer code_answer)
                  facebook login_scenario ∅)) = ∅.
Proof.
  destruct (failed_runs_write_nothing compact tester_ts
              (world_ok sample_page prose_answer code_answer)
              facebook login_scenario ∅) as (Ha & _).
  edestruct (Ha eq_refl) as (_ & _ & _ & H);
    [vm_compute; reflexivity..|exact H].
Defined.

(** C5 as stated fails in test-generatior.ts: an answer in prose is no
    JSON, yet no error is raised and the output file is written. *)
Lemma generator_writes_despite_bad_json :
  JSON_parse (to_string prose_answer) = None /\
  logged_failures
    (trace (snd (run compact test_generatior_ts
                     (world_ok sample_page prose_answer code_answer)
                     youtube search_scenario ∅))) = [] /\
  files (snd (run compact test_generatior_ts
                  (world_ok sample_page prose_answer code_answer)
                  youtube search_scenario ∅)) !! output_path
  = Some (to_string code_answer).
Proof. repeat split; vm_compute; reflexivity. Qed.

(** C6 on a run that succeeds. *)
Lemma only_output_path_written_witness :
  exists q1 m1 q2 m2 code more,
    creates (trace (snd (run compact test_generatior_ts
                             (world_ok sample_page json_answer code_answer)
                             youtube search_scenario ∅)))
      = [(q1, Ok m1); (q2, Ok m2)] /\
    content m2 = VString code :: more /\
    writes (trace (snd (run compact test_generatior_ts
                            (world_ok sample_page json_answer code_answer)
                            youtube search_scenario ∅)))
      = [(output_path, VString code, Ok tt)] /\
    files (snd (run compact test_generatior_ts
                    (world_ok sample_page json_answer code_answer)
                    youtube search_scenario ∅)) !! output_path = Some code.
Proof.
  destruct (only_output_path_written compact test_generatior_ts
              (world_ok sample_page json_answer code_answer)
              youtube search_scenario ∅) as (_ & _ & _ & H).
  apply H. vm_compute. reflexivity.
Defined.

(** C7 on a run that succeeds: two calls to the model. *)
Lemma no_retry_witness :
  length (creates (trace (snd (run compact tester_ts
                                   (world_ok sample_page json_answer code_answer)
                                   facebook login_scenario ∅)))) = 2.
Proof.
  destruct (no_retry compact tester_ts
              (world_ok sample_page json_answer code_answer)
              facebook login_scenario ∅) as (_ & H & _).
  apply H. vm_compute. reflexivity.
Defined.

(** C8 for two worlds and two sets of files that differ, with the same
    page and the same answers. *)
Lemma same_inputs_same_outputs_witness :
  map snd (captures (trace (snd (run compact tester_ts
                                     (world_ok sample_page json_answer code_answer)
                                     facebook login_scenario ∅))))
  = map snd (captures (trace (snd (run compact tester_ts
                                       (world_by_length sample_page json_answer
                                                        code_answer)
                                       facebook login_scenario
                                       {["notes.txt" := "x"%string]})))) /\
  map fst (creates (trace (snd (run compact tester_ts
                                    (world_ok sample_page json_answer code_answer)
                                    facebook login_scenario ∅))))
  = map fst (creates (trace (snd (run compact tester_ts
                                      (world_by_length sample_page json_answer
                                                       code_answer)
                                      facebook login_scenario
                                      {["notes.txt" := "x"%string]})))) /\
  files (snd (run compact tester_ts
                  (world_ok sample_page json_answer code_answer)
                  facebook login_scenario ∅)) !! output_path
  = files (snd (run compact tester_ts
                    (world_by_length sample_page json_answer code_answer)
                    facebook login_scenario
                    {["notes.txt" := "x"%string]})) !! output_path.
Proof.
  destruct (same_inputs_same_outputs compact tester_ts
              (world_ok sample_page json_answer code_answer)
              (world_by_length sample_page json_answer code_answer)
              facebook login_scenario ∅ {["notes.txt" := "x"%string]})
    as (Hcaptures & Hrequests & Hfile & _); [vm_compute; reflexivity..|].
  split; [exact Hcaptures|]. split; [exact Hrequests|].
  apply Hfile; vm_compute; reflexivity.
Defined.

(** C8 as stated fails: two runs on the same page with the same answers,
    one of them on a full disk, capture and send the same and leave
    different output files. *)
Lemma same_inputs_different_files :
  map fst (captures (trace (snd (run compact tester_ts
                                     (world_ok sample_page json_answer code_answer)
                                     facebook login_scenario ∅))))
  = map fst (captures (trace (snd (run compact tester_ts
                                       (world_disk_full sample_page json_answer
                                                        code_answer)
                                       facebook login_scenario ∅)))) /\
  map snd (creates (trace (snd (run compact tester_ts
                                    (world_ok sample_page json_answer code_answer)
                                    facebook login_scenario ∅))))
  = map snd (creates (trace (snd (run compact tester_ts
                                      (world_disk_full sample_page json_answer
                                                       code_answer)
                                      facebook login_scenario ∅)))) /\
  files (snd (run compact tester_ts
                  (world_ok sample_page json_answer code_answer)
                  facebook login_scenario ∅)) !! output_path
  = Some (to_string code_answer) /\
  files (snd (run compact tester_ts
                  (world_disk_full sample_page json_answer code_answer)
                  facebook login_scenario ∅)) !! output_path
  = None.
Proof. repeat split; vm_compute; reflexivity. Qed.

(** C9 as stated fails: removing the inner script element brings the two
    halves of an outer one together, so the result still holds a script
    element, and sanitizing it again gives something else. *)
Lemma sanitizeHTML_is_not_idempotent :
  sanitizeHTML "<scr<script></script>ipt>x</script>" = "<script>x</script>"%string /\
  contains_match re_script (chars_of "<script>x</script>") = true /\
  sanitizeHTML "<script>x</script>" = ""%string.
Proof. repeat split; vm_compute; reflexivity. Qed.

(** C10 at a document with a button: the claim promises its two tags, the
    code returns the empty string. *)
Example filterHTML_drops_the_button :
  filterHTML "<button id=go>Go</button>" [] = Some ""%string.
Proof. vm_compute. reflexivity. Qed.

(** * More about the runs of the two scripts *)

(** The symbolic execution again, asking for the outcome of a close only
    where the run makes the call. *)
Ltac exec_step_lazy :=
  match goal with
  | |- context [page_document ?w ?h] =>
      let E := fresh "Edoc" in
      destruct (page_document w h) as [?|?] eqn:E
  | |- context [fst (capture ?sel ?d)] =>
      let E := fresh "Ecapture" in
      destruct (fst (capture sel d)) as [?|?] eqn:E
  | |- context [match ?x with Ok _ => _ | Throw _ => _ end] =>
      let E := fresh "E" in destruct x as [?|?] eqn:E
  | |- context [match content ?m with [] => _ | _ :: _ => _ end] =>
      let E := fresh "Econtent" in destruct (content m) as [|? ?] eqn:E
  | |- context [match JSON_parse ?x with Some _ => _ | None => _ end] =>
      let E := fresh "Eparse" in destruct (JSON_parse x) as [?|] eqn:E
  | |- context [match ?x with VString _ => _ | VUndefined => _ end] =>
      destruct x as [?|]
  | |- context [match ?x with Written => _ | WriteFailed _ _ => _ end] =>
      let E := fresh "Ewrite" in destruct x as [|? [?|]] eqn:E
  | |- context [match ?x with ErrorObject _ _ _ => _ | NonError _ => _ end] =>
      is_var x; destruct x as [? ? ?|?]
  | |- context [match ?x with ErrorObject _ _ _ => _ | NonError _ => _ end] =>
      destruct x as [? ? ?|?]
  | |- context [browser_close_result ?w ?h] =>
      let E := fresh "Eclose" in
      destruct (browser_close_result w h) as [?|?] eqn:E
  | u : unit |- _ => destruct u
  end.

Ltac exec_the_run_lazy :=
  match goal with
  | |- context [run ?J ?sc ?w ?u ?n ?fs] => try (is_var sc; destruct sc)
  end;
  match goal with
  | |- context [run ?J ?sc ?w ?u ?n ?fs] =>
      let rs := fresh "rs" in
      let r := fresh "r" in
      let s := fresh "s" in
      let H := fresh "Hrun" in
      let Q := fresh "Q" in
      remember (run J sc w u n fs) as rs eqn:H;
      destruct rs as [r s]; symmetry in H;
      pattern r, s;
      match goal with
      | |- ?P r s => set (Q := P)
      end;
      revert H;
      cbv [run runTest_of try_of initial_state
           TestGenerator.runTest Tester.runTest
           TestGenerator.runTest_try Tester.runTest_try
           TestGenerator.generatePlaywrightCode Tester.generatePlaywrightCode
           Tester.JSON_parse_value try_catch_finally log_failure cleanup
           bind ret throw call emit record chromium_launch browser_newPage
           page_goto page_evaluate returned_to_script evaluation_error
           page_close browser_close messages_create writeFileSync
           content_0_text console_log console_error set_browser set_page
           get_browser get_page TypeError SyntaxError trace files browser page];
      repeat (exec_step_lazy; cbv beta iota zeta);
      cbn [app fst snd trace files browser page];
      intros [= <- <-];
      subst Q; cbv beta;
      cbn [fst snd trace files browser page]
  end.

(** What the case analysis knows of the collaborators is not needed to read
    a leaf. *)
Ltac forget_world :=
  repeat match goal with
         | H : launch_result _ _ = _ |- _ => clear H
         | H : newPage_result _ _ = _ |- _ => clear H
         | H : goto_result _ _ _ = _ |- _ => clear H
         | H : page_document _ _ = _ |- _ => clear H
         | H : create_result _ _ _ = _ |- _ => clear H
         | H : write_result _ _ _ _ = _ |- _ => clear H
         | H : page_close_result _ _ = _ |- _ => clear H
         | H : browser_close_result _ _ = _ |- _ => clear H
         | H : fst (capture _ _) = _ |- _ => clear H
         end.

Ltac leaf :=
  intros;
  repeat match goal with
         | H : exists _, _ |- _ => destruct H
         | H : _ \/ _ |- _ => destruct H
         | H : False |- _ => destruct H
         | H : _ /\ _ |- _ => destruct H
         | H : In _ _ |- _ => cbn [In] in H
         end;
  simplify_eq; try done.

Ltac find_in := solve [cbn [In]; repeat first [by left | right]].

Section MoreRuns.

Variable JSON_stringify : json -> string.

(** What every run of either script does at its end, prints and sends: one
    symbolic execution, read off leaf by leaf. *)
Lemma run_more sc w url testName fs :
  let rs := run JSON_stringify sc w url testName fs in
  let s := snd rs in
  let t := trace s in
  (forall e, In (PageClose (Throw e)) t ->
     fst rs = Throw e /\ existsb is_browser_close t = false /\
     browser_open (left_open t) = true) /\
  (fst rs = Ok tt <-> forallb close_ok t = true) /\
  (forall e, fst rs = Throw e ->
     In (PageClose (Throw e)) t \/ In (BrowserClose (Throw e)) t) /\
  (succeeded t <-> last (logs t) = Some saved_line) /\
  (succeeded t <-> exists d, In (output_path, d, Ok tt) (writes t)) /\
  (forall d html, In (d, Ok html) (captures t) ->
     head (logs t) = Some [VString "bodyHtml"; VString html]) /\
  (forall q m, In (q, Ok m) (creates t) -> content m = [] ->
     logged_failures t = [payload_of no_block_error] /\
     writes t = [] /\ files s = fs) /\
  (forall c1 q2 m2 more,
     creates t = [c1; (q2, Ok m2)] -> content m2 = VUndefined :: more ->
     writes t = [(output_path, VUndefined,
                  Throw (TypeError invalid_data_message))] /\
     logged_failures t = [payload_of (TypeError invalid_data_message)] /\
     files s = fs /\
     In [VString "playwrightCode"; VUndefined] (logs t)) /\
  (forall q r, In (q, r) (creates t) ->
     model q = model_of sc /\ max_tokens q = 1000 /\
     temperature q = QArith_base.Qmake 1 2 /\
     map fst (messages q) = ["user"%string]) /\
  tokens_asked t <= 2000 /\
  ((gotos t = [url] /\ In (Launch (Ok tt)) t /\ In (NewPage (Ok tt)) t) \/
   (gotos t = [] /\
    exists e, In (Launch (Throw e)) t \/ In (NewPage (Throw e)) t)).
Proof.
  unfold succeeded, no_block_error, tokens_asked; cbv zeta.
  exec_the_run_lazy;
    cbv [TypeError];
    cbn [logs writes captures creates gotos logged_failures payload_of
         model_of last head].
  all: forget_world.
  all: split; [leaf|].
  all: split; [split; leaf|].
  all: split; [intros ? [= <-]; first [left; find_in | right; find_in]|].
  all: split; [split; leaf|].
  all: split; [split; [leaf; eexists; find_in|leaf]|].
  all: split; [leaf|].
  all: split; [leaf; congruence|].
  all: split; [leaf; try congruence; repeat split; try done; find_in|].
  all: split; [leaf|].
  all: split;
    [cbn [map fst max_tokens TestGenerator.request_of Tester.request_of];
     unfold list_sum; cbn [fold_right]; lia|].
  all: first
    [ left; split; [done|]; split; find_in
    | right; split; [done|]; eexists; first [left; find_in | right; find_in] ].
Qed.

(** X1: when [page.close()] throws in the [finally] block, the error
    leaves [runTest] (its promise is rejected with it), [browser.close()] is
    not called, and the browser the run launched stays open. *)
Theorem page_close_failure_leaks_browser sc w url testName fs e :
  let rs := run JSON_stringify sc w url testName fs in
  In (PageClose (Throw e)) (trace (snd rs)) ->
  fst rs = Throw e /\
  existsb is_browser_close (trace (snd rs)) = false /\
  browser_open (left_open (trace (snd rs))) = true.
Proof.
  intros rs. destruct (run_more sc w url testName fs) as (H & _).
  exact (H e).
Qed.

(** X2: the promise of [runTest] is fulfilled exactly when no close
    call threw, whatever happened in the [try] block; and when it is rejected,
    it is with what [page.close()] or [browser.close()] threw. *)
Theorem runTest_rejects_only_from_close sc w url testName fs :
  let rs := run JSON_stringify sc w url testName fs in
  (fst rs = Ok tt <-> forallb close_ok (trace (snd rs)) = true) /\
  (forall e, fst rs = Throw e ->
     In (PageClose (Throw e)) (trace (snd rs)) \/
     In (BrowserClose (Throw e)) (trace (snd rs))).
Proof.
  intros rs. destruct (run_more sc w url testName fs) as (_ & H1 & H2 & _).
  exact (conj H1 H2).
Qed.

(** X3: [Playwright code saved to test.ts] is the last line a run
    prints with [console.log] exactly when nothing was caught, and that is
    exactly when the write to the output file returned. *)
Theorem saved_line_means_written sc w url testName fs :
  let t := trace (snd (run JSON_stringify sc w url testName fs)) in
  (succeeded t <-> last (logs t) = Some saved_line) /\
  (succeeded t <-> exists d, In (output_path, d, Ok tt) (writes t)).
Proof.
  intros t.
  destruct (run_more sc w url testName fs) as (_ & _ & _ & H1 & H2 & _).
  exact (conj H1 H2).
Qed.

(** X4: the text the capture returned is printed on the console,
    all of it, as the first line of the run, before anything is sent to the
    model. *)
Theorem captured_html_is_printed sc w url testName fs d html :
  let t := trace (snd (run JSON_stringify sc w url testName fs)) in
  In (d, Ok html) (captures t) ->
  head (logs t) = Some [VString "bodyHtml"; VString html].
Proof.
  intros t.
  destruct (run_more sc w url testName fs) as (_ & _ & _ & _ & _ & H & _).
  exact (H _ _).
Qed.

(** X5: a response whose [content] is empty, from either call, ends
    the run with the TypeError of reading [text] of [undefined]; it is caught
    and printed, nothing is written and the files stay as they were. *)
Theorem empty_content_fails_the_run sc w url testName fs q m :
  let s := snd (run JSON_stringify sc w url testName fs) in
  In (q, Ok m) (creates (trace s)) -> content m = [] ->
  logged_failures (trace s) = [payload_of no_block_error] /\
  writes (trace s) = [] /\ files s = fs.
Proof.
  intros s.
  destruct (run_more sc w url testName fs)
    as (_ & _ & _ & _ & _ & _ & H & _).
  exact (H _ _).
Qed.

(** X6: when the first block of the second response has no
    [text], the run prints [playwrightCode undefined] and hands [undefined] to
    [fs.writeFileSync], which refuses it with a TypeError before touching the
    file; the error is caught and printed and the files stay as they were. *)
Theorem undefined_code_is_not_written sc w url testName fs c1 q2 m2 more :
  let s := snd (run JSON_stringify sc w url testName fs) in
  creates (trace s) = [c1; (q2, Ok m2)] ->
  content m2 = VUndefined :: more ->
  writes (trace s)
    = [(output_path, VUndefined, Throw (TypeError invalid_data_message))] /\
  logged_failures (trace s) = [payload_of (TypeError invalid_data_message)] /\
  files s = fs /\
  In [VString "playwrightCode"; VUndefined] (logs (trace s)).
Proof.
  intros s.
  destruct (run_more sc w url testName fs)
    as (_ & _ & _ & _ & _ & _ & _ & H & _).
  exact (H _ _ _ _).
Qed.

(** X7: every request of a run names the model of its script, asks
    for at most 1000 tokens at temperature 0.5 and carries one message, of
    role [user]; so a run asks for at most 2000 output tokens in all. *)
Theorem requests_are_bounded sc w url testName fs :
  let t := trace (snd (run JSON_stringify sc w url testName fs)) in
  (forall q r, In (q, r) (creates t) ->
     model q = model_of sc /\ max_tokens q = 1000 /\
     temperature q = QArith_base.Qmake 1 2 /\
     map fst (messages q) = ["user"%string]) /\
  tokens_asked t <= 2000.
Proof.
  intros t.
  destruct (run_more sc w url testName fs)
    as (_ & _ & _ & _ & _ & _ & _ & _ & H1 & H2 & _).
  exact (conj H1 H2).
Qed.

(** X8: a run sends the page to the url it was given, exactly once,
    whenever the browser and the page were opened; it navigates nowhere only
    when [chromium.launch] or [browser.newPage] threw. *)
Theorem navigates_to_the_given_url_only sc w url testName fs :
  let t := trace (snd (run JSON_stringify sc w url testName fs)) in
  (gotos t = [url] /\ In (Launch (Ok tt)) t /\ In (NewPage (Ok tt)) t) \/
  (gotos t = [] /\
   exists e, In (Launch (Throw e)) t \/ In (NewPage (Throw e)) t).
Proof.
  intros t.
  destruct (run_more sc w url testName fs)
    as (_ & _ & _ & _ & _ & _ & _ & _ & _ & _ & H).
  exact H.
Qed.

End MoreRuns.

(** X1 where the navigation and then [page.close()] fail. *)
Lemma page_close_failure_leaks_browser_witness :
  existsb is_browser_close
    (trace (snd (run compact test_generatior_ts world_no_route_no_close
                     youtube search_scenario ∅))) = false /\
  browser_open
    (left_open (trace (snd (run compact test_generatior_ts
                                world_no_route_no_close
                                youtube search_scenario ∅)))) = true.
Proof.
  destruct (page_close_failure_leaks_browser compact test_generatior_ts
              world_no_route_no_close youtube search_scenario ∅ close_error)
    as (_ & H1 & H2); [vm_compute; tauto|].
  exact (conj H1 H2).
Defined.

(** X4 on a run in which every call returns. *)
Lemma captured_html_is_printed_witness :
  exists html,
    head (logs (trace (snd (run compact tester_ts
                                (world_ok sample_page json_answer code_answer)
                                facebook login_scenario ∅))))
    = Some [VString "bodyHtml"; VString html].
Proof.
  eexists.
  eapply (captured_html_is_printed compact tester_ts
            (world_ok sample_page json_answer code_answer)
            facebook login_scenario ∅ (Ok sample_page)).
  vm_compute. left. reflexivity.
Defined.

(** X5 with a model whose first response has no content block. *)
Lemma empty_content_fails_the_run_witness :
  writes (trace (snd (run compact tester_ts
                          (world_replies sample_page (mkMessage [])
                                         (mkMessage [code_answer]))
                          facebook login_scenario ∅))) = [] /\
  files (snd (run compact tester_ts
                  (world_replies sample_page (mkMessage [])
                                 (mkMessage [code_answer]))
                  facebook login_scenario ∅)) = ∅.
Proof.
  edestruct (empty_content_fails_the_run compact tester_ts
               (world_replies sample_page (mkMessage [])
                              (mkMessage [code_answer]))
               facebook login_scenario ∅) as (_ & H1 & H2);
    [vm_compute; left; reflexivity|reflexivity|].
  exact (conj H1 H2).
Defined.

(** X6 with a model whose second response has a block without
    text. *)
Lemma undefined_code_is_not_written_witness :
  files (snd (run compact test_generatior_ts
                  (world_replies sample_page (mkMessage [json_answer])
                                 (mkMessage [VUndefined]))
                  youtube search_scenario ∅)) = ∅.
Proof.
  edestruct (undefined_code_is_not_written compact test_generatior_ts
               (world_replies sample_page (mkMessage [json_answer])
                              (mkMessage [VUndefined]))
               youtube search_scenario ∅) as (_ & _ & H & _);
    [vm_compute; reflexivity|reflexivity|exact H].
Defined.

(** * The data test-generatior.ts passes on *)

(** A character that completes no token just changes the scanner's mode. *)
Lemma lex_skip mode c mode' t :
  lex_step mode c = Some (mode', []) -> lex mode (c :: t) = lex mode' t.
Proof. intros H. cbn [lex]. rewrite H. by destruct (lex mode' t). Qed.

(** One quoted character is read back by the scanner as part of the same
    string. *)
Lemma lex_quote_char c acc more :
  lex (LString acc) (quote_char c ++ more)
  = lex (LString (rev (quote_char c) ++ acc)) more.
Proof.
  destruct c as [[] [] [] [] [] [] [] []];
    match goal with
    | |- context [quote_char ?c] =>
        let q := eval vm_compute in (quote_char c) in
        change (quote_char c) with q
    end;
    cbn [app rev];
    repeat (erewrite lex_skip by reflexivity); reflexivity.
Qed.

Lemma lex_quoted l : forall acc,
  lex (LString acc) (flat_map quote_char l ++ [dquote])
  = Some [TString (rev acc ++ flat_map quote_char l)].
Proof.
  induction l as [|c l IH]; intros acc.
  - cbn. by rewrite app_nil_r.
  - cbn [flat_map]. rewrite <- app_assoc, lex_quote_char, IH.
    by rewrite rev_app_distr, rev_involutive, <- app_assoc.
Qed.

(** X9: in test-generatior.ts the [testing data] of the second prompt is
    [JSON.stringify] of the first answer's text, a string: it is always a
    JSON text, and what it denotes is a string (the quoted answer), never the
    object the answer may describe; with no text at all it is the word
    [undefined], which is no JSON. *)
Theorem stringify_data_is_a_json_string (contentText : value) :
  JSON_parse (TestGenerator.stringify_data contentText)
  = match contentText with
    | VString s =>
        Some (JString (string_of (flat_map quote_char (chars_of s))))
    | VUndefined => None
    end.
Proof.
  destruct contentText as [s|]; [|reflexivity].
  unfold TestGenerator.stringify_data, quote_json_string, JSON_parse.
  rewrite chars_of_string_of.
  change (dquote :: flat_map quote_char (chars_of s) ++ [dquote])
    with (dquote :: (flat_map quote_char (chars_of s) ++ [dquote])).
  erewrite lex_skip by reflexivity.
  rewrite lex_quoted. reflexivity.
Qed.

(** * The capture callback and the page it runs on *)

Lemma ids_drop_sublist p n : sublist (ids (drop p n)) (ids n).
Proof.
  induction n as [i t a ch IH| |] using node_ind'; try done.
  rewrite drop_Element, !ids_Element. constructor.
  induction IH as [|c ch Hc _ IHch]; simpl; [constructor|].
  destruct (p c); simpl.
  - by apply sublist_inserts_l.
  - by apply sublist_app.
Qed.

Lemma NoDup_ids_drop p n : NoDup (ids n) -> NoDup (ids (drop p n)).
Proof. intros H. eapply sublist_NoDup; [done|apply ids_drop_sublist]. Qed.

Lemma map_attrs_drop f p n :
  (forall c, p (map_attrs f c) = p c) ->
  map_attrs f (drop p n) = drop p (map_attrs f n).
Proof.
  intros Hp. induction n as [i t a ch IH| |] using node_ind'; try done.
  simpl map_attrs. rewrite !drop_Element. simpl. f_equal.
  induction IH as [|c ch Hc _ IHch]; [done|].
  simpl. rewrite Hp. destruct (p c); simpl; [done|]. by rewrite Hc, IHch.
Qed.

Lemma has_tag_map_attrs names f c : has_tag names (map_attrs f c) = has_tag names c.
Proof. by destruct c. Qed.

Lemma remove_attr_twice name a :
  NoDup (map fst a) ->
  remove_attr name (remove_attr name a) = remove_attr name a.
Proof.
  induction a as [|[k v] a IH]; [done|]. simpl.
  intros [Hk Ha]%NoDup_cons.
  destruct (String.eqb k name) eqn:E.
  - apply String.eqb_eq in E as ->.
    clear IH Ha. induction a as [|[k' v'] a IH]; [done|]. simpl in *.
    destruct (String.eqb k' name) eqn:E'.
    + apply String.eqb_eq in E' as ->. destruct Hk. by left.
    + f_equal. apply IH. intros ?. apply Hk. by right.
  - simpl. rewrite E. f_equal. by apply IH.
Qed.

Lemma strip_styles_twice n :
  unique_attrs n -> strip_styles (strip_styles n) = strip_styles n.
Proof.
  unfold unique_attrs, strip_styles. rewrite map_attrs_compose.
  intros Hu. induction n as [i t a ch IH| |] using node_ind'; try done.
  simpl in *. apply Forall_cons in Hu as [Ha Hch]. f_equal.
  - by apply remove_attr_twice.
  - induction IH as [|c ch Hc _ IHch]; [done|]. simpl in *.
    apply Forall_app in Hch as [H1 H2]. f_equal; [by apply Hc|by apply IHch].
Qed.

Lemma prune_twice names n : prune names (prune names n) = prune names n.
Proof.
  unfold prune. rewrite drop_compose by (intros; apply has_tag_drop).
  apply drop_ext. intros c. by destruct (has_tag names c).
Qed.

Lemma prune_app names more n :
  prune more (prune names n) = prune (names ++ more) n.
Proof.
  unfold prune. rewrite drop_compose by (intros; apply has_tag_drop).
  apply drop_ext. intros [i t a ch| |]; try done. simpl.
  by rewrite existsb_app.
Qed.

Lemma unique_attrs_child n c :
  unique_attrs n -> In c (children_of n) -> unique_attrs c.
Proof.
  destruct n as [i t a ch| |]; [|done..]. unfold unique_attrs. simpl.
  intros [_ H]%Forall_cons Hc.
  induction ch as [|k ch IH]; [done|]. simpl in *.
  apply Forall_app in H as [H1 H2]. destruct Hc as [->|Hc]; auto.
Qed.

(** The document the callback leaves behind. *)
Lemma capture_document names doc :
  NoDup (ids doc) ->
  snd (capture names doc)
  = match document_body doc with
    | Some b =>
        drop (fun c => existsb (fun el => has_id el c)
                         (querySelectorAll names (strip_styles b)))
             (strip_styles doc)
    | None => strip_styles doc
    end.
Proof.
  intros HN. unfold capture.
  rewrite removeAttribute_all by done. rewrite document_body_map_attrs.
  destruct (document_body doc) as [b|] eqn:Hb; [|done]. simpl.
  fold (strip_styles b). fold (strip_styles doc). rewrite fold_remove.
  rewrite (document_body_drop _ _ (strip_styles b)); [done| |].
  - unfold strip_styles. by rewrite document_body_map_attrs, Hb.
  - apply querySelectorAll_not_self. unfold strip_styles.
    rewrite ids_map_attrs. eapply NoDup_ids_child; [done|].
    by apply document_body_child.
Qed.

(** Its body is the pruned, style-free body the captured text was read from. *)
Lemma capture_document_body names doc b :
  NoDup (ids doc) -> document_body doc = Some b ->
  document_body (snd (capture names doc)) = Some (prune names (strip_styles b)).
Proof.
  intros HN Hb. rewrite capture_document, Hb by done.
  assert (NoDup (ids (strip_styles b))) as HNb.
  { unfold strip_styles. rewrite ids_map_attrs.
    eapply NoDup_ids_child; [done|]. by apply document_body_child. }
  rewrite (document_body_drop _ _ (strip_styles b)).
  - by rewrite remove_selected.
  - unfold strip_styles. by rewrite document_body_map_attrs, Hb.
  - by apply querySelectorAll_not_self.
Qed.

Lemma capture_document_no_body names doc :
  NoDup (ids doc) -> document_body doc = None ->
  document_body (snd (capture names doc)) = None.
Proof.
  intros HN Hb. rewrite capture_document, Hb by done.
  unfold strip_styles. by rewrite document_body_map_attrs, Hb.
Qed.

Lemma NoDup_ids_capture names doc :
  NoDup (ids doc) -> NoDup (ids (snd (capture names doc))).
Proof.
  intros HN. rewrite capture_document by done.
  destruct (document_body doc).
  - apply NoDup_ids_drop. unfold strip_styles. by rewrite ids_map_attrs.
  - unfold strip_styles. by rewrite ids_map_attrs.
Qed.

(** X10: running the callback a second time on the page it has left
    changes nothing more: it returns the same text (or throws the same
    error). *)
Theorem capture_is_idempotent names doc :
  NoDup (ids doc) -> unique_attrs doc ->
  fst (capture names (snd (capture names doc))) = fst (capture names doc).
Proof.
  intros HN Hu.
  rewrite !capture_spec by (done || by apply NoDup_ids_capture).
  unfold stripped_body_html.
  destruct (document_body doc) as [b|] eqn:Hb.
  - rewrite (capture_document_body names doc b) by done.
    unfold prune at 2, strip_styles at 1.
    rewrite map_attrs_drop by (intros; apply has_tag_map_attrs).
    fold (strip_styles (strip_styles b)). fold (prune names (strip_styles (strip_styles b))).
    rewrite strip_styles_twice, prune_twice; [done|].
    eapply unique_attrs_child; [done|]. by apply document_body_child.
  - by rewrite capture_document_no_body.
Qed.

(** X11: what test-generatior.ts captures is what tester.ts captures
    with the [svg] and [meta] elements removed as well: running the callback
    of tester.ts and then pruning these two from the body it leaves gives the
    text the callback of test-generatior.ts returns. *)
Theorem generator_capture_from_tester_capture doc :
  NoDup (ids doc) ->
  fst (capture TestGenerator.selectors doc)
  = match document_body (snd (capture Tester.selectors doc)) with
    | Some body => Ok (innerHTML (prune ["svg"; "meta"] body))
    | None => Throw no_body_error
    end.
Proof.
  intros HN. rewrite capture_spec by done. unfold stripped_body_html.
  destruct (document_body doc) as [b|] eqn:Hb.
  - rewrite (capture_document_body _ doc b) by done.
    by rewrite prune_app.
  - by rewrite capture_document_no_body.
Qed.

Lemma descendants_in_ids n x : In x (descendants n) -> In (eid x) (ids n).
Proof.
  destruct n as [i t a ch| |]; [|done..]. intros Hx.
  rewrite ids_Element, <- (descendants_ids i t a ch). right. by apply in_map.
Qed.

Lemma querySelectorAll_in_ids names n el :
  In el (querySelectorAll names n) -> In el (ids n).
Proof.
  unfold querySelectorAll.
  intros (x & <- & [Hx _]%filter_In)%in_map_iff. by apply descendants_in_ids.
Qed.

Lemma has_id_eid el x : has_id el x = true -> eid x = el.
Proof. destruct x; [|done..]. simpl. by intros ?%Nat.eqb_eq. Qed.

Lemma ids_disjoint_children ch c b j :
  NoDup (flat_map ids ch) -> In c ch -> In b ch -> c <> b ->
  In j (ids c) -> In j (ids b) -> False.
Proof.
  induction ch as [|k ch IH]; [done|]. simpl.
  intros (Hk & Hd & Hch)%NoDup_app [->|Hc] [->|Hb] Hne Hjc Hjb; try done.
  - apply (Hd j); [by apply list_elem_of_In|].
    apply list_elem_of_In, in_flat_map. eauto.
  - apply (Hd j); [by apply list_elem_of_In|].
    apply list_elem_of_In, in_flat_map. eauto.
  - eauto.
Qed.

Lemma no_text_has_id L d : existsb (fun el => has_id el (Text d)) L = false.
Proof. induction L; simpl; done. Qed.

Lemma no_comment_has_id L d :
  existsb (fun el => has_id el (Comment d)) L = false.
Proof. induction L; simpl; done. Qed.

(** X12: the callback changes the page itself.  When it has run, the body
    of the live document has lost every [style] attribute and every element
    of the listed names; the other children of the root (the head with its
    own links, scripts and meta elements) are all still there, without their
    [style] attributes. *)
Theorem capture_changes_the_page names doc b :
  NoDup (ids doc) -> document_body doc = Some b ->
  document_body (snd (capture names doc)) = Some (prune names (strip_styles b)) /\
  forall c, In c (children_of doc) -> c <> b ->
            In (strip_styles c) (children_of (snd (capture names doc))).
Proof.
  intros HN Hb. split; [by apply capture_document_body|].
  intros c Hc Hne. rewrite capture_document, Hb by done.
  pose proof (document_body_child _ _ Hb) as Hbin.
  destruct doc as [i t a ch| |]; [|done..]. simpl in Hc, Hbin.
  change (strip_styles (Element i t a ch))
    with (Element i t (remove_attr "style" a) (map strip_styles ch)).
  rewrite drop_Element. simpl.
  rewrite ids_Element in HN. apply NoDup_cons in HN as [_ HN].
  set (Q := fun c0 => existsb (fun el => has_id el c0)
                        (querySelectorAll names (strip_styles b))).
  assert (forall x, In (eid x) (ids c) -> Q x = false) as HQ.
  { intros x Hx. destruct (Q x) eqn:E; [|done]. exfalso.
    apply existsb_exists in E as (el & Hel & Hid).
    apply has_id_eid in Hid as <-.
    apply querySelectorAll_in_ids in Hel. unfold strip_styles in Hel.
    rewrite ids_map_attrs in Hel.
    exact (ids_disjoint_children ch c b (eid x) HN Hc Hbin Hne Hx Hel). }
  assert (forall d, Q (Text d) = false) as HT
    by (intros d; apply no_text_has_id).
  assert (forall d, Q (Comment d) = false) as HC
    by (intros d; apply no_comment_has_id).
  apply in_map_iff. exists (strip_styles c). split.
  - rewrite (drop_agree Q (fun _ => false)); [apply drop_nothing| |done..].
    intros x Hx. apply HQ. apply descendants_in_ids in Hx.
    unfold strip_styles in Hx. by rewrite ids_map_attrs in Hx.
  - apply filter_In. split; [apply in_map; exact Hc|].
    destruct c as [j u a0 k| |];
      [|unfold strip_styles; cbn [map_attrs];
        by rewrite ?no_text_has_id, ?no_comment_has_id..].
    change (negb (Q (strip_styles (Element j u a0 k))) = true).
    rewrite HQ; [done|]. by left.
Qed.

Lemma unique_attrs_sample_page : unique_attrs sample_page.
Proof. apply (bool_decide_unpack _). vm_compute. exact I. Defined.

(** X10 at the sample page. *)
Lemma capture_is_idempotent_witness :
  fst (capture TestGenerator.selectors
         (snd (capture TestGenerator.selectors sample_page)))
  = fst (capture TestGenerator.selectors sample_page).
Proof.
  apply capture_is_idempotent;
    [exact NoDup_sample_page|exact unique_attrs_sample_page].
Defined.

(** X11 at the sample page. *)
Lemma generator_capture_from_tester_capture_witness :
  fst (capture TestGenerator.selectors sample_page)
  = match document_body (snd (capture Tester.selectors sample_page)) with
    | Some body => Ok (innerHTML (prune ["svg"; "meta"] body))
    | None => Throw no_body_error
    end.
Proof.
  apply generator_capture_from_tester_capture. exact NoDup_sample_page.
Defined.

(** X12 at the sample page: its head, with the [meta] element in it, is
    still a child of the root when the callback of test-generatior.ts has
    run. *)
Lemma capture_changes_the_page_witness :
  In (Element 1 "head" [] [Element 2 "meta" [("charset", "utf-8")] []])
     (children_of (snd (capture TestGenerator.selectors sample_page))).
Proof.
  refine (proj2 (capture_changes_the_page TestGenerator.selectors sample_page
                   _ NoDup_sample_page eq_refl)
                (Element 1 "head" [] [Element 2 "meta" [("charset", "utf-8")] []])
                _ _).
  - left. reflexivity.
  - discriminate.
Defined.

(** * More about [sanitizeHTML] and [filterHTML] *)

Lemma remove_sublist ic r : forall rs skip sn,
  sublist (remove_matches ic r skip sn rs) rs.
Proof.
  induction rs as [|a t IH]; intros skip sn; simpl; [constructor|].
  destruct skip as [|n]; [|by apply sublist_cons].
  destruct (match_at ic r sn (a :: t)) as [y|].
  - destruct (length (seen y) - length sn);
      [by apply sublist_skip|by apply sublist_cons].
  - by apply sublist_skip.
Qed.

Lemma replace_all_sublist R s : sublist (replace_all R s) s.
Proof. apply remove_sublist. Qed.

Lemma length_chars_of s : length (chars_of s) = String.length s.
Proof. induction s as [|a s IH]; simpl; [done|]. by rewrite IH. Qed.

(** X13: [sanitizeHTML] only deletes: what it returns is the input
    with some characters left out, the others in their order; so it is never
    longer than the input. *)
Theorem sanitizeHTML_only_deletes html :
  sublist (chars_of (sanitizeHTML html)) (chars_of html) /\
  String.length (sanitizeHTML html) <= String.length html.
Proof.
  assert (sublist (chars_of (sanitizeHTML html)) (chars_of html)) as H.
  { unfold sanitizeHTML, sanitize_chars. rewrite chars_of_string_of.
    repeat (etrans; [apply replace_all_sublist|]). done. }
  split; [done|]. apply sublist_length in H.
  by rewrite !length_chars_of in H.
Qed.

Lemma no_lt_tail a t : no_lt (a :: t) -> no_lt t.
Proof. unfold no_lt. simpl. tauto. Qed.

Lemma cls_char_lt ic a : cls_match ic (CChar "<") a = true -> a = "<"%char.
Proof.
  destruct ic, a as [[] [] [] [] [] [] [] []]; vm_compute; congruence.
Qed.

Lemma m_lt_none ic k y : no_lt (rest y) -> m ic (Chr (CChar "<")) k y = None.
Proof.
  intros Hy. cbn [m]. destruct (rest y) as [|a t]; [done|].
  destruct (cls_match ic (CChar "<") a) eqn:Ha; [|done].
  apply cls_char_lt in Ha as ->. destruct Hy. simpl. by left.
Qed.

Lemma m_lit_lt_none ic r1 r2 k y :
  no_lt (rest y) -> m ic (Seq (Seq (Chr (CChar "<")) r1) r2) k y = None.
Proof. intros Hy. cbn [m]. by apply m_lt_none. Qed.

(** None of the five patterns matches where no [<] is ahead. *)
Lemma removal_pattern_needs_lt R sn rs :
  In R removal_patterns -> no_lt rs ->
  match_at (ignoreCase R) (source R) sn rs = None.
Proof.
  intros HR Hrs. unfold match_at.
  destruct HR as [<-|[<-|[<-|[<-|[<-|[]]]]]];
    cbn [source ignoreCase re_script re_style re_link re_svg re_meta seqs];
    unfold lit; cbn [chars_of list_ascii_of_string lit_chars String.append];
    by apply m_lit_lt_none.
Qed.

(** X14: a text without any [<] has nothing [sanitizeHTML] removes: it
    is returned as it is. *)
Theorem sanitizeHTML_keeps_plain_text html :
  no_lt (chars_of html) -> sanitizeHTML html = html.
Proof.
  intros H. unfold sanitizeHTML.
  rewrite (proj2 (sanitize_chars_fixed (chars_of html)));
    [apply string_of_chars_of|].
  intros R HR. unfold contains_match.
  rewrite (search_none_Q no_lt); [done|apply no_lt_tail| |done].
  intros. by apply removal_pattern_needs_lt.
Qed.

(** ** Criteria that ask for a [>] *)

Lemma needs_gt_none ic r :
  needs_gt r = true ->
  forall k x, no_gt (rest x) -> m ic r k x = None.
Proof.
  induction r as [|c|r1 IH1 r2 IH2|r1 IH1 r2 IH2|g c|n r1 IH1|];
    intros Hr k x Hx; simpl in Hr; try done.
  - destruct c; try done. apply Ascii.eqb_eq in Hr as ->. by apply m_gt_none.
  - apply orb_true_iff in Hr as [Hr|Hr].
    + cbn [m]. by apply IH1.
    + apply (m_seq_none no_gt); [apply no_gt_tail| |done].
      intros y Hy. by apply IH2.
  - apply andb_prop in Hr as [H1 H2]. cbn [m].
    rewrite IH1 by done. by apply IH2.
  - cbn [m]. by apply IH1.
Qed.

Lemma no_gt_skipn i : forall s, no_gt s -> no_gt (skipn i s).
Proof.
  induction i as [|i IH]; intros [|a s] Hs; simpl; try done.
  apply IH. by apply no_gt_tail in Hs.
Qed.

(** Such a criterion rejects a text without [>], whatever its flags and
    wherever its [lastIndex] stands. *)
Lemma test_needs_gt R s :
  needs_gt (source R) = true -> no_gt s ->
  exists R', test R s = (false, R') /\ source R' = source R.
Proof.
  intros HR Hs. unfold test, exec.
  destruct (Nat.ltb _ _); [destruct (global R); by eexists|].
  rewrite (search_none_Q no_gt);
    [destruct (global R); by eexists|apply no_gt_tail| |by apply no_gt_skipn].
  intros sn rs Hrs. by apply needs_gt_none.
Qed.

Lemma some_test_needs_gt s : forall criteria,
  forallb (fun R => needs_gt (source R)) criteria = true -> no_gt s ->
  exists criteria',
    some_test criteria s = (false, criteria') /\
    forallb (fun R => needs_gt (source R)) criteria' = true.
Proof.
  induction criteria as [|R cs IH]; intros Hc Hs; simpl; [by eexists|].
  simpl in Hc. apply andb_prop in Hc as [HR Hcs].
  destruct (test_needs_gt R s HR Hs) as (R' & -> & HR').
  destruct (IH Hcs Hs) as (cs' & -> & Hcs').
  eexists. split; [done|]. simpl. by rewrite HR', HR, Hcs'.
Qed.

Lemma filter_loop_needs_gt html : forall fuel criteria i parts,
  forallb (fun R => needs_gt (source R)) criteria = true ->
  length html - i < fuel ->
  filter_loop fuel criteria (set_lastIndex i re_tag) html parts = Some parts.
Proof.
  induction fuel as [|fuel IH]; intros criteria i parts Hc Hf; [lia|].
  cbn [filter_loop].
  destruct (exec (set_lastIndex i re_tag) html) as [[mt|] R'] eqn:He; [|done].
  apply exec_re_tag in He as (-> & Hend & slash & name & attrs & -> & Hs & Hn).
  cbn [get_cap Nat.eqb interpolate].
  destruct (some_test_needs_gt ("<"%char :: slash ++ name) criteria Hc)
    as (cs' & -> & Hcs').
  - unfold no_gt. simpl. rewrite in_app_iff. intros [[=]|[?|?]]; done.
  - apply IH; [done|lia].
Qed.

Lemma filterHTML_tag_criteria html criteria :
  forallb (fun R => needs_gt (source R)) criteria = true ->
  filterHTML html criteria = Some ""%string.
Proof.
  intros Hc. unfold filterHTML, filter_chars.
  change re_tag with (set_lastIndex 0 re_tag).
  rewrite filter_loop_needs_gt; [done| |lia].
  destruct criteria; [reflexivity|done].
Qed.

(** X15: [filterHTML] keeps nothing under criteria that ask for the
    closing [>] of a tag, as all criteria of the document do: each is tested
    on the text before the attributes, which has no [>], so for every input
    the result is the empty string. *)
Theorem filterHTML_keeps_nothing_under_tag_criteria html criteria :
  forallb (fun R => needs_gt (source R)) criteria = true ->
  filterHTML html criteria = Some ""%string.
Proof. apply filterHTML_tag_criteria. Qed.

(** X15 for the criteria of the document's [src/main.ts] on a page
    with a form. *)
Lemma filterHTML_keeps_nothing_under_tag_criteria_witness :
  filterHTML "<form id='f'><input data-testid='q'></form>"
             main_ts_filterCriteria
  = Some ""%string.
Proof.
  apply filterHTML_keeps_nothing_under_tag_criteria. vm_compute. reflexivity.
Defined.


(** ** What [filterHTML] keeps *)





(** X14 at a text without tags. *)
Lemma sanitizeHTML_keeps_plain_text_witness :
  sanitizeHTML "Sign in & continue" = "Sign in & continue"%string.
Proof.
  apply sanitizeHTML_keeps_plain_text. vm_compute.
  intros H. repeat (destruct H as [H|H]; [discriminate H|]). exact H.
Defined.

(** * Completeness of the matcher *)

Lemma mstate_eq x y :
  seen y = seen x -> rest y = rest x -> caps y = caps x -> y = x.
Proof. destruct x, y. simpl. by intros -> -> ->. Qed.

Lemma star_complete ic g c k y : forall w l x,
  l = rest x ->
  Forall (fun a => cls_match ic c a = true) w ->
  rest x = w ++ rest y -> seen y = rev w ++ seen x -> caps y = caps x ->
  is_Some (k y) -> is_Some (star ic g c k l x).
Proof.
  induction w as [|a w IH]; intros l x Hl Hw Hr Hs Hc Hk.
  - assert (y = x) as -> by (by apply mstate_eq).
    destruct l as [|a t]; cbn [star]; [done|].
    destruct (cls_match ic c a); [|done].
    destruct g.
    + by destruct (star ic true c k t (advance a t x)).
    + destruct (k x); [done|]. by destruct Hk.
  - simpl in Hr. subst l. rewrite Hr.
    apply Forall_cons in Hw as [Ha Hw]. cbn [star]. rewrite Ha.
    assert (is_Some (star ic g c k (w ++ rest y)
                       (advance a (w ++ rest y) x))) as [z Hz].
    { apply IH; try done. simpl in *. by rewrite Hs, <- app_assoc. }
    destruct g; rewrite ?Hz; [done|]. by destruct (k x).
Qed.

(** Whatever way of matching [r] the continuation accepts, the matcher finds
    a match (that one or one of higher priority). *)
Lemma m_complete ic r : forall k x y,
  reach ic r x y -> is_Some (k y) -> is_Some (m ic r k x).
Proof.
  induction r as [|c|r1 IH1 r2 IH2|r1 IH1 r2 IH2|g c|n r1 IH1|];
    intros k x y Hr Hk; simpl in Hr; simpl.
  - by subst.
  - destruct Hr as (a & t & -> & -> & ->). done.
  - destruct Hr as (z & H1 & H2). eapply IH1; [done|]. by eapply IH2.
  - destruct Hr as [H|H].
    + destruct (IH1 _ _ _ H Hk) as [z ->]. done.
    + destruct (m ic r1 k x); [done|]. by eapply IH2.
  - destruct Hr as (w & Hw & Hrest & Hseen & Hcaps).
    by eapply star_complete.
  - destruct Hr as (z & H & ->). by eapply (IH1 (fun y => k (set_cap n x y))).
  - destruct Hr as [-> ->]. done.
Qed.

Lemma search_complete ic r : forall pre post sn y,
  reach ic r (MState (rev pre ++ sn) post []) y ->
  is_Some (search ic r sn (pre ++ post)).
Proof.
  induction pre as [|a pre IH]; intros post sn y Hr.
  - simpl in *. destruct (m_complete ic r Some _ _ Hr) as [z Hz]; [done|].
    destruct post; simpl; unfold match_at; by rewrite Hz.
  - simpl. destruct (match_at ic r sn (a :: pre ++ post)); [done|].
    apply (IH post (a :: sn) y). simpl in Hr. by rewrite <- app_assoc in Hr.
Qed.

(** [R.test(s)] on a fresh [R] says whether some part of [s] matches. *)
Lemma contains_match_iff R s :
  contains_match R s = true <->
  exists pre post y,
    s = pre ++ post /\
    reach (ignoreCase R) (source R) (MState (rev pre) post []) y.
Proof.
  unfold contains_match. split.
  - destruct (search _ _ [] s) as [[j y]|] eqn:Hs; [|done]. intros _.
    apply search_Some in Hs as (pre & post & -> & _ & Hm).
    rewrite app_nil_r in Hm. apply match_at_reach in Hm. by exists pre, post, y.
  - intros (pre & post & y & -> & Hr).
    destruct (search_complete (ignoreCase R) (source R) pre post [] y)
      as [z ->]; [|done].
    by rewrite app_nil_r.
Qed.

(** ** Literals, quotes and the dot *)

(** A property of characters that holds of every code unit. *)
Lemma by_all_chars (P : ascii -> bool) :
  forallb P all_chars = true -> forall a, P a = true.
Proof.
  intros H a. rewrite forallb_forall in H. apply H.
  rewrite <- (ascii_nat_embedding a). apply in_map, in_seq.
  pose proof (nat_ascii_bounded a). lia.
Qed.

Lemma all_chars_complete a : In a all_chars.
Proof.
  rewrite <- (ascii_nat_embedding a). apply in_map, in_seq.
  pose proof (nat_ascii_bounded a). lia.
Qed.

Lemma canonicalize_cases p :
  Ascii.eqb (canonicalize p) p || is_letter (canonicalize p) = true.
Proof. revert p. apply by_all_chars. vm_compute. reflexivity. Qed.

Lemma canonicalize_no_letter a :
  is_letter a = false -> canonicalize a = a.
Proof.
  pose proof (by_all_chars
                (fun a => implb (negb (is_letter a))
                                (Ascii.eqb (canonicalize a) a))
                ltac:(vm_compute; reflexivity) a) as H.
  cbv beta in H. intros Ha. rewrite Ha in H. by apply Ascii.eqb_eq.
Qed.

(** A negated class of characters that are no letters accepts exactly the
    other characters, with or without the [i] flag. *)
Lemma none_of_match ic cs a :
  forallb (fun c => negb (is_letter c)) cs = true ->
  cls_match ic (none_of cs) a = negb (existsb (Ascii.eqb a) cs).
Proof.
  intros Hcs. unfold none_of. cbn [cls_match].
  destruct (existsb (Ascii.eqb a) cs) eqn:Ha; cbn [negb].
  - destruct (existsb _ (List.filter _ all_chars)) eqn:E; [|done]. exfalso.
    apply existsb_exists in E as (p & [_ Hp]%filter_In & Heq).
    apply negb_true_iff in Hp.
    apply existsb_exists in Ha as (c & Hc & ->%Ascii.eqb_eq).
    rewrite forallb_forall in Hcs. pose proof (Hcs _ Hc) as Hl.
    apply negb_true_iff in Hl.
    assert (p = c \/ is_letter c = true) as [->|Hl'].
    { destruct ic.
      - apply Ascii.eqb_eq in Heq. rewrite (canonicalize_no_letter c) in Heq by done.
        pose proof (canonicalize_cases p) as [H|H]%orb_true_iff.
        + apply Ascii.eqb_eq in H. left. congruence.
        + right. congruence.
      - left. symmetry. by apply Ascii.eqb_eq. }
    + assert (existsb (Ascii.eqb c) cs = true) as Hin
        by (apply existsb_exists; exists c; split; [done|apply Ascii.eqb_refl]).
      congruence.
    + congruence.
  - apply existsb_exists. exists a. split.
    + apply filter_In. split; [apply all_chars_complete|by rewrite Ha].
    + destruct ic; apply Ascii.eqb_refl.
Qed.

Lemma cls_match_quote a : cls_match true quote a = is_quote a.
Proof.
  apply Bool.eqb_prop. revert a. apply by_all_chars. vm_compute. reflexivity.
Qed.

Lemma cls_match_not_quote a :
  cls_match true not_quote a = negb (is_quote a).
Proof.
  unfold not_quote. rewrite none_of_match by done.
  unfold is_quote. cbn [existsb]. by rewrite orb_false_r.
Qed.

Lemma cls_match_dot a :
  cls_match true Workflow.dot a = negb (is_line_end a).
Proof.
  unfold Workflow.dot. rewrite none_of_match by done.
  unfold is_line_end. cbn [existsb]. by rewrite orb_false_r.
Qed.

Lemma canonicalize_quote c :
  is_quote (canonicalize c) = true -> is_quote c = true.
Proof.
  pose proof (by_all_chars
                (fun c => implb (is_quote (canonicalize c)) (is_quote c))
                ltac:(vm_compute; reflexivity) c) as H.
  cbv beta in H. by destruct (is_quote (canonicalize c)), (is_quote c).
Qed.

(** A character that a pattern character other than a quote accepts is no
    quote. *)
Lemma cls_char_not_quote ic c a :
  cls_match ic (CChar c) a = true -> is_quote c = false -> is_quote a = false.
Proof.
  intros Hm Hc. destruct (is_quote a) eqn:Ha; [|done].
  simpl in Hm. destruct ic.
  - apply Ascii.eqb_eq in Hm.
    assert (canonicalize a = a) as Hca.
    { unfold is_quote in Ha. apply orb_true_iff in Ha as [->%Ascii.eqb_eq| ->%Ascii.eqb_eq]; reflexivity. }
    rewrite Hca in Hm. subst a. apply canonicalize_quote in Ha. congruence.
  - apply Ascii.eqb_eq in Hm. congruence.
Qed.

(** How a literal is matched: character by character. *)
Lemma reach_lit_chars ic : forall l x y,
  reach ic (lit_chars l) x y ->
  exists u, rest x = u ++ rest y /\ seen y = rev u ++ seen x /\
            caps y = caps x /\
            Forall2 (fun a c => cls_match ic (CChar c) a = true) u l.
Proof.
  induction l as [|c l IH]; intros x y Hr.
  - simpl in Hr. subst. exists []. by repeat split.
  - destruct l as [|c' l].
    + simpl in Hr. destruct Hr as (a & t & Hx & Ha & ->).
      exists [a]. simpl. repeat split; try done. by repeat constructor.
    + change (lit_chars (c :: c' :: l))
        with (Seq (Chr (CChar c)) (lit_chars (c' :: l))) in Hr.
      cbn [reach] in Hr. destruct Hr as (z & (a & t & Hx & Ha & ->) & Hz).
      apply IH in Hz as (u & Hu & Hs & Hc & Hf). simpl in *.
      exists (a :: u). simpl. rewrite Hx, Hu, Hs, <- app_assoc.
      repeat split; try done. by constructor.
Qed.

Lemma lit_chars_reach ic : forall l u sn r cs,
  Forall2 (fun a c => cls_match ic (CChar c) a = true) u l ->
  reach ic (lit_chars l) (MState sn (u ++ r) cs) (MState (rev u ++ sn) r cs).
Proof.
  induction l as [|c l IH]; intros u sn r cs Hf.
  - apply Forall2_nil_inv_r in Hf as ->. done.
  - apply Forall2_cons_inv_r in Hf as (a & u' & Ha & Hf & ->).
    destruct l as [|c' l].
    + apply Forall2_nil_inv_r in Hf as ->. simpl. by exists a, r.
    + change (lit_chars (c :: c' :: l))
        with (Seq (Chr (CChar c)) (lit_chars (c' :: l))).
      cbn [reach]. exists (MState (a :: sn) (u' ++ r) cs). split.
      * by exists a, (u' ++ r).
      * simpl. rewrite <- app_assoc. by apply IH.
Qed.

(** A text accepted by a literal without quotes has no quotes. *)
Lemma lit_no_quote ic l u :
  Forall2 (fun a c => cls_match ic (CChar c) a = true) u l ->
  forallb (fun c => negb (is_quote c)) l = true ->
  forallb (fun a => negb (is_quote a)) u = true.
Proof.
  induction 1 as [|a c u l Ha _ IH]; [done|]. simpl.
  intros [Hc Hl]%andb_prop. rewrite IH by done.
  apply negb_true_iff in Hc. by rewrite (cls_char_not_quote ic c a).
Qed.

(** A literal accepts itself. *)
Lemma lit_self ic l :
  Forall2 (fun a c => cls_match ic (CChar c) a = true) l l.
Proof.
  induction l as [|a l IH]; constructor; [|done].
  simpl. destruct ic; apply Ascii.eqb_refl.
Qed.

(** ** Patterns on a pattern without the [g] flag *)

Lemma test_not_global R s :
  global R = false -> test R s = (contains_match R s, R).
Proof.
  intros Hg. unfold test, exec, contains_match. rewrite Hg.
  change (Nat.ltb (length s) 0) with false.
  change (rev (firstn 0 s)) with (@nil ascii). change (skipn 0 s) with s.
  by destruct (search _ _ [] s) as [[j y]|].
Qed.

Lemma exec_not_global R s :
  global R = false ->
  fst (exec R s)
  = match search (ignoreCase R) (source R) [] s with
    | Some (j, y) =>
        Some (mkMatch j (firstn (length (seen y) - j) (skipn j s))
                      (length (seen y)) (caps y))
    | None => None
    end.
Proof.
  intros Hg. unfold exec. rewrite Hg.
  change (Nat.ltb (length s) 0) with false.
  change (rev (firstn 0 s)) with (@nil ascii). change (skipn 0 s) with s.
  by destruct (search _ _ [] s) as [[j y]|].
Qed.

Lemma some_test_not_global s : forall criteria,
  forallb (fun R => negb (global R)) criteria = true ->
  fst (some_test criteria s) = existsb (fun R => contains_match R s) criteria.
Proof.
  induction criteria as [|R cs IH]; [done|]. simpl.
  intros [HR Hcs]%andb_prop. apply negb_true_iff in HR.
  rewrite test_not_global by done.
  destruct (contains_match R s); [done|]. simpl.
  rewrite <- IH by done. by destruct (some_test cs s).
Qed.

Lemma no_quote_tail a t : no_quote (a :: t) -> no_quote t.
Proof. unfold no_quote. simpl. by intros [_ ?]%andb_prop. Qed.

Lemma m_quote_none r k y :
  no_quote (rest y) -> m true (Seq (Chr quote) r) k y = None.
Proof.
  intros Hy. cbn [m]. destruct (rest y) as [|a t]; [done|].
  rewrite cls_match_quote. unfold no_quote in Hy. simpl in Hy.
  apply andb_prop in Hy as [Ha _]. apply negb_true_iff in Ha. by rewrite Ha.
Qed.

(** A pattern that asks for a quote after its first part finds nothing in a
    text without quotes. *)
Lemma quoted_pattern_none R r1 r2 s :
  source R = Seq r1 (Seq (Chr quote) r2) -> ignoreCase R = true ->
  no_quote s -> contains_match R s = false.
Proof.
  intros HR Hi Hs. unfold contains_match. rewrite HR, Hi.
  rewrite (search_none_Q no_quote); [done|apply no_quote_tail| |done].
  intros sn rs Hrs. unfold match_at.
  apply (m_seq_none no_quote); [apply no_quote_tail| |done].
  intros y Hy. by apply m_quote_none.
Qed.

(** * [isElementRelevant] and [performInteraction] *)

Lemma relevanceCriteria_not_global :
  forallb (fun R => negb (global R)) relevanceCriteria = true.
Proof. reflexivity. Qed.

Lemma isElementRelevant_spec tagName attributes :
  isElementRelevant tagName attributes
  = existsb (fun R => contains_match R (chars_of attributes)) relevanceCriteria.
Proof.
  unfold isElementRelevant, some_matches.
  apply some_test_not_global, relevanceCriteria_not_global.
Qed.

Lemma quoted_attribute_none name s :
  no_quote s ->
  contains_match (mkRegExp (seqs (quoted_attribute name)) false true 0) s
  = false.
Proof.
  intros H.
  by apply (quoted_pattern_none _ (lit (name +:+ "="))
              (Seq (plus not_quote) (Chr quote))).
Qed.

(** X17: [isElementRelevant] sees quoted values only: an attribute
    text without any quote character, such as [id=main name=q], is never
    relevant, whatever the tag. *)
Theorem isElementRelevant_needs_quotes tagName attributes :
  no_quote (chars_of attributes) ->
  isElementRelevant tagName attributes = false.
Proof.
  intros H. rewrite isElementRelevant_spec.
  unfold relevanceCriteria. cbn [map existsb].
  by rewrite !quoted_attribute_none.
Qed.

(** X17 at an attribute text with unquoted values. *)
Lemma isElementRelevant_needs_quotes_witness :
  isElementRelevant "input" "id=main name=q" = false.
Proof. apply isElementRelevant_needs_quotes. reflexivity. Defined.

(** X18: [performInteraction] does nothing at all with a step that has
    no quote character, such as [Click the Open Modal button.]: no click, no
    fill, no line on the console and no error. *)
Theorem performInteraction_needs_quotes w step s :
  no_quote (chars_of step) ->
  Workflow.performInteraction w step s = (Ok tt, s).
Proof.
  intros H. unfold Workflow.performInteraction.
  rewrite !test_not_global by done. cbn [fst].
  rewrite (quoted_pattern_none Workflow.clickRegex (lit "Click the ")
             (seqs [Group 1 (plus Workflow.dot); Chr quote; lit " button"]))
    by done.
  rewrite (quoted_pattern_none Workflow.fillRegex (lit "Fill the ")
             (seqs [Group 1 (plus Workflow.dot); Chr quote;
                    lit " input with "; Chr quote;
                    Group 2 (plus Workflow.dot); Chr quote]))
    by done.
  done.
Qed.

(** Where [data-testid=...] is found, [id=...] is found nine characters
    further on. *)
Lemma testid_is_an_id s :
  contains_match (mkRegExp (seqs (quoted_attribute "data-testid")) false true 0) s
  = true ->
  contains_match (mkRegExp (seqs (quoted_attribute "id")) false true 0) s
  = true.
Proof.
  rewrite !contains_match_iff. cbn [ignoreCase source].
  intros (pre & post & y & -> & Hr).
  change (seqs (quoted_attribute "data-testid"))
    with (Seq (lit_chars (chars_of "data-test" ++ chars_of "id="))
              (Seq (Chr quote) (Seq (plus not_quote) (Chr quote)))) in Hr.
  change (seqs (quoted_attribute "id"))
    with (Seq (lit_chars (chars_of "id="))
              (Seq (Chr quote) (Seq (plus not_quote) (Chr quote)))).
  cbn [reach] in Hr. destruct Hr as (z & Hlit & Hrest).
  apply reach_lit_chars in Hlit as (u & Hu & Hs & Hc & Hf).
  apply Forall2_app_inv_r in Hf as (u9 & u3 & H9 & H3 & ->).
  cbn [rest seen caps] in Hu, Hs, Hc.
  exists (pre ++ u9), (u3 ++ rest z), y. split.
  - subst post. by rewrite <- !app_assoc.
  - cbn [reach]. exists z. split; [|done].
    assert (z = MState (rev u3 ++ rev (pre ++ u9)) (rest z) []) as Hz.
    { apply mstate_eq; cbn [rest seen caps]; [|done..].
      by rewrite Hs, !rev_app_distr, <- app_assoc. }
    rewrite Hz at 2. by apply lit_chars_reach.
Qed.

(** X19: the first criterion of [isElementRelevant] adds nothing: a
    text in which the [data-testid] pattern is found holds the [id] pattern
    too, so the answer is that of the other three criteria alone; the tag
    name plays no part. *)
Theorem isElementRelevant_by_three_criteria tagName attributes :
  isElementRelevant tagName attributes
  = existsb (fun R => contains_match R (chars_of attributes))
            (map (fun name =>
                    mkRegExp (seqs (quoted_attribute name)) false true 0)
                 ["name"; "id"; "placeholder"]).
Proof.
  rewrite isElementRelevant_spec. unfold relevanceCriteria. cbn [map existsb].
  destruct (contains_match
              (mkRegExp (seqs (quoted_attribute "data-testid")) false true 0)
              (chars_of attributes)) eqn:E; [|done].
  apply testid_is_an_id in E. rewrite E. cbn [orb].
  by rewrite orb_true_r.
Qed.

(** ** A step of the documented form *)

Lemma no_quote_app l k : no_quote (l ++ k) <-> no_quote l /\ no_quote k.
Proof. unfold no_quote. rewrite forallb_app. apply andb_true_iff. Qed.

Lemma no_quote_cons a l :
  no_quote (a :: l) <-> is_quote a = false /\ no_quote l.
Proof.
  unfold no_quote. simpl. rewrite andb_true_iff, negb_true_iff. tauto.
Qed.

(** The first quote of a text is where it is. *)
Lemma split_first_quote : forall A A' q q' R R',
  no_quote A -> is_quote q = true -> no_quote A' -> is_quote q' = true ->
  A ++ q :: R = A' ++ q' :: R' -> A = A' /\ R = R'.
Proof.
  induction A as [|a A IH]; intros [|a' A'] q q' R R' HA Hq HA' Hq' Heq;
    simpl in Heq; simplify_eq.
  - done.
  - apply no_quote_cons in HA' as [? _]. congruence.
  - apply no_quote_cons in HA as [? _]. congruence.
  - apply no_quote_cons in HA as [_ HA]. apply no_quote_cons in HA' as [_ HA'].
    destruct (IH A' q q' R R' HA Hq HA' Hq' ltac:(done)) as [-> ->]. done.
Qed.

Lemma count_quotes_app l k :
  count_quotes (l ++ k) = count_quotes l + count_quotes k.
Proof. unfold count_quotes. by rewrite List.filter_app, length_app. Qed.

Lemma count_quotes_cons a l :
  count_quotes (a :: l) = (if is_quote a then 1 else 0) + count_quotes l.
Proof. unfold count_quotes. simpl. by destruct (is_quote a). Qed.

Lemma count_quotes_0 l : count_quotes l = 0 <-> no_quote l.
Proof.
  unfold count_quotes, no_quote. induction l as [|a l IH]; simpl; [done|].
  destruct (is_quote a); simpl; [split; [lia|done]|exact IH].
Qed.

(** What a match of [clickRegex] is made of. *)
Lemma clickRegex_reach x y :
  reach true (source Workflow.clickRegex) x y ->
  exists u a M a' v,
    rest x = u ++ a :: M ++ a' :: v ++ rest y /\
    no_quote u /\ is_quote a = true /\ M <> [] /\ is_quote a' = true /\
    no_quote v /\
    caps y = (1, M) :: caps x.
Proof.
  change (source Workflow.clickRegex)
    with (Seq (lit_chars (chars_of "Click the "))
              (Seq (Chr quote)
                   (Seq (Group 1 (plus Workflow.dot))
                        (Seq (Chr quote) (lit_chars (chars_of " button")))))).
  cbn [reach].
  intros (z1 & H1 & z2 & (a & t & Hr1 & Ha & ->) & z3 & (zg & Hg & ->) &
          z4 & (a' & t' & Hr3 & Ha' & ->) & H5).
  apply reach_lit_chars in H1 as (u & Hu & Hsu & Hcu & Hfu).
  apply reach_lit_chars in H5 as (v & Hv & Hsv & Hcv & Hfv).
  apply lit_no_quote in Hfu; [|reflexivity].
  apply lit_no_quote in Hfv; [|reflexivity].
  rewrite cls_match_quote in Ha, Ha'.
  change (reach true (Seq (Chr Workflow.dot) (Star true Workflow.dot))
                (advance a t z1) zg) in Hg.
  cbn [reach] in Hg.
  destruct Hg as (zc & (b & tb & Hrb & _ & ->) & w & _ & Hrw & Hsw & Hcw).
  cbn [rest seen caps advance set_cap] in *.
  exists u, a, (b :: w), a', v.
  split.
  { by rewrite Hu, Hr1, Hrb, Hrw, Hr3, Hv. }
  split; [done|]. split; [done|]. split; [done|]. split; [done|].
  split; [done|].
  rewrite Hcv, Hcw, Hcu. f_equal. f_equal.
  apply span_app. cbn [seen advance]. rewrite Hsw. simpl.
  by rewrite <- app_assoc.
Qed.

Lemma clickRegex_matches before q1 label q2 after :
  is_quote q1 = true -> is_quote q2 = true -> label <> [] ->
  forallb (fun a => negb (is_line_end a)) label = true ->
  contains_match Workflow.clickRegex
    (before ++ chars_of "Click the " ++ q1 :: label ++ q2 ::
     chars_of " button" ++ after) = true.
Proof.
  intros Hq1 Hq2 Hl Hdot. apply contains_match_iff.
  destruct label as [|b w]; [done|]. simpl in Hdot.
  apply andb_prop in Hdot as [Hb Hw].
  set (CT := chars_of "Click the "). set (BT := chars_of " button").
  set (z1 := MState (rev CT ++ rev before)
                    (q1 :: (b :: w) ++ q2 :: BT ++ after) []).
  set (z2 := advance q1 ((b :: w) ++ q2 :: BT ++ after) z1).
  set (zc := advance b (w ++ q2 :: BT ++ after) z2).
  set (zg := MState (rev w ++ seen zc) (q2 :: BT ++ after) []).
  set (z4 := advance q2 (BT ++ after) (set_cap 1 z2 zg)).
  exists before, (CT ++ q1 :: (b :: w) ++ q2 :: BT ++ after),
         (MState (rev BT ++ seen z4) after (caps z4)).
  split; [done|].
  change (source Workflow.clickRegex)
    with (Seq (lit_chars CT)
              (Seq (Chr quote)
                   (Seq (Group 1 (Seq (Chr Workflow.dot)
                                      (Star true Workflow.dot)))
                        (Seq (Chr quote) (lit_chars BT))))).
  cbn [reach ignoreCase Workflow.clickRegex].
  exists z1. split; [apply lit_chars_reach, lit_self|].
  exists z2. split.
  { exists q1, ((b :: w) ++ q2 :: BT ++ after).
    split; [reflexivity|]. split; [|reflexivity].
    by rewrite cls_match_quote. }
  exists (set_cap 1 z2 zg). split.
  { exists zg. split; [|reflexivity].
    exists zc. split.
    - exists b, (w ++ q2 :: BT ++ after).
      split; [reflexivity|]. split; [|reflexivity].
      rewrite cls_match_dot. exact Hb.
    - exists w. split; [|split; [reflexivity|split; reflexivity]].
      apply Forall_forall. intros a Ha. rewrite cls_match_dot.
      rewrite forallb_forall in Hw. by apply Hw, list_elem_of_In. }
  exists z4. split.
  { exists q2, (BT ++ after). split; [reflexivity|]. split; [|reflexivity].
    by rewrite cls_match_quote. }
  apply (lit_chars_reach true BT BT (seen z4) after (caps z4)), lit_self.
Qed.

(** In such a step every match of [clickRegex] captures the quoted text. *)
Lemma clickRegex_capture before q1 label q2 after pre post y :
  is_quote q1 = true -> is_quote q2 = true ->
  no_quote before -> no_quote label -> no_quote after ->
  before ++ chars_of "Click the " ++ q1 :: label ++ q2 ::
    chars_of " button" ++ after = pre ++ post ->
  reach true (source Workflow.clickRegex) (MState (rev pre) post []) y ->
  caps y = [(1, label)].
Proof.
  intros Hq1 Hq2 Hb Hl Ha Heq Hr.
  apply clickRegex_reach in Hr
    as (u & a & M & a' & v & Hpost & Hu & Hqa & _ & Hqa' & Hv & ->).
  cbn [rest caps] in *. subst post.
  assert (count_quotes pre = 0 /\ count_quotes M = 0) as [Hpre HM].
  { apply (f_equal count_quotes) in Heq.
    rewrite !count_quotes_app, !count_quotes_cons, !count_quotes_app,
      !count_quotes_cons, !count_quotes_app, Hq1, Hq2, Hqa, Hqa' in Heq.
    rewrite (proj2 (count_quotes_0 before) Hb),
      (proj2 (count_quotes_0 label) Hl), (proj2 (count_quotes_0 after) Ha),
      (proj2 (count_quotes_0 u) Hu), (proj2 (count_quotes_0 v) Hv) in Heq.
    change (count_quotes (chars_of "Click the ")) with 0 in Heq.
    change (count_quotes (chars_of " button")) with 0 in Heq. lia. }
  apply count_quotes_0 in Hpre, HM.
  rewrite (app_assoc before), (app_assoc pre) in Heq.
  apply split_first_quote in Heq as [_ Heq]; try done.
  - apply split_first_quote in Heq as [-> _]; done.
  - apply no_quote_app. by split.
  - apply no_quote_app. by split.
Qed.

(** A step of the documented form clicks the button of the quoted text. *)
Lemma performInteraction_click
    w before q1 label q2 after s :
  is_quote q1 = true -> is_quote q2 = true -> label <> [] ->
  no_quote label -> forallb (fun a => negb (is_line_end a)) label = true ->
  no_quote before -> no_quote after ->
  Workflow.performInteraction w
    (string_of (before ++ chars_of "Click the " ++ q1 :: label ++ q2 ::
                chars_of " button" ++ after)) s
  = Workflow.bind
      (Workflow.page_click w
         ("button:text(" +:+ dq +:+ string_of label +:+ dq +:+ ")"))
      (fun _ => Workflow.console_log
                  ("Clicked button with text: " +:+ string_of label)) s.
Proof.
  intros Hq1 Hq2 Hne Hl Hdot Hb Ha. unfold Workflow.performInteraction.
  rewrite chars_of_string_of, test_not_global by done.
  pose proof (clickRegex_matches before q1 label q2 after Hq1 Hq2 Hne Hdot)
    as Hm.
  rewrite Hm. cbn [fst]. rewrite exec_not_global by done.
  unfold contains_match in Hm.
  destruct (search _ _ [] _) as [[j y]|] eqn:Hs; [|done].
  apply search_Some in Hs as (pre & post & Heq & _ & Hy).
  rewrite app_nil_r in Hy. apply match_at_reach in Hy.
  rewrite (clickRegex_capture before q1 label q2 after pre post y) in *
    by done.
  reflexivity.
Qed.

(** X20: a step of the documented form, [Click the], a quote, a label
    that has no quote and no line break in it, a quote and [button], with no
    quote before or after, makes [performInteraction] click the selector
    [button:text(...)] of that label and then print that it did. *)
Theorem performInteraction_clicks_the_quoted_text
    w before q1 label q2 after s :
  is_quote q1 = true -> is_quote q2 = true -> label <> [] ->
  no_quote label -> forallb (fun a => negb (is_line_end a)) label = true ->
  no_quote before -> no_quote after ->
  Workflow.performInteraction w
    (string_of (before ++ chars_of "Click the " ++ q1 :: label ++ q2 ::
                chars_of " button" ++ after)) s
  = Workflow.bind
      (Workflow.page_click w
         ("button:text(" +:+ dq +:+ string_of label +:+ dq +:+ ")"))
      (fun _ => Workflow.console_log
                  ("Clicked button with text: " +:+ string_of label)) s.
Proof. apply performInteraction_click. Qed.

(** * The workflow of the document, step by step *)

Section WorkflowFacts.

Import Workflow.

Lemma creates_app t1 t2 : creates (t1 ++ t2) = creates t1 ++ creates t2.
Proof.
  induction t1 as [|e t1 IH]; [done|]. destruct e; simpl; by rewrite ?IH.
Qed.

Lemma writes_app t1 t2 : writes (t1 ++ t2) = writes t1 ++ writes t2.
Proof.
  induction t1 as [|e t1 IH]; [done|]. destruct e; simpl; by rewrite ?IH.
Qed.

Lemma contents_app t1 t2 : contents (t1 ++ t2) = contents t1 ++ contents t2.
Proof.
  induction t1 as [|e t1 IH]; [done|]. destruct e; simpl; by rewrite ?IH.
Qed.

Lemma errors_app t1 t2 : errors (t1 ++ t2) = errors t1 ++ errors t2.
Proof.
  induction t1 as [|e t1 IH]; [done|]. destruct e; simpl; by rewrite ?IH.
Qed.

(** The interaction steps call no model, write no file, read no content
    and print no error. *)
Lemma interactions_silent evs :
  forallb of_interaction evs = true ->
  creates evs = [] /\ writes evs = [] /\ contents evs = [] /\ errors evs = [].
Proof.
  induction evs as [|e evs IH]; [done|]. simpl.
  intros [He Hevs]%andb_prop. destruct (IH Hevs) as (? & ? & ? & ?).
  by destruct e.
Qed.

(** One step leaves the files and the two variables alone and adds events
    of its own kind only. *)
Lemma performInteraction_events w step s :
  exists evs,
    forallb of_interaction evs = true /\
    snd (performInteraction w step s)
    = mkState (trace s ++ evs) (files s) (browser s) (page s).
Proof.
  assert (snd (@ret unit tt s)
          = mkState (trace s ++ []) (files s) (browser s) (page s)) as Hret
    by (destruct s; simpl; by rewrite app_nil_r).
  unfold performInteraction.
  destruct (fst (test clickRegex (chars_of step))).
  - destruct (fst (exec clickRegex (chars_of step))) as [mt|];
      [|by exists []].
    cbv [bind page_click call console_log emit record].
    destruct (click_result w (trace s) _); cbn [snd trace files browser page].
    + eexists [Click _ _; ConsoleLog _]. split; [reflexivity|].
      by rewrite <- app_assoc.
    + by eexists [Click _ _].
  - destruct (fst (test fillRegex (chars_of step))); [|by exists []].
    destruct (fst (exec fillRegex (chars_of step))) as [mt|];
      [|by exists []].
    cbv [bind page_fill call console_log emit record].
    destruct (fill_result w (trace s) _ _); cbn [snd trace files browser page].
    + eexists [Fill _ _ _; ConsoleLog _]. split; [reflexivity|].
      by rewrite <- app_assoc.
    + by eexists [Fill _ _ _].
Qed.

Lemma perform_all w steps : forall s,
  exists evs,
    forallb of_interaction evs = true /\
    snd (for_each (performInteraction w) steps s)
    = mkState (trace s ++ evs) (files s) (browser s) (page s).
Proof.
  induction steps as [|step steps IH]; intros s.
  - exists []. split; [done|]. destruct s. simpl. by rewrite app_nil_r.
  - cbn [for_each]. unfold bind at 1.
    destruct (performInteraction_events w step s) as (evs1 & H1 & Hs1).
    destruct (performInteraction w step s) as [[[]|e] s1];
      cbn [snd] in Hs1; subst s1.
    + destruct (IH (mkState (trace s ++ evs1) (files s) (browser s) (page s)))
        as (evs2 & H2 & Hs2).
      exists (evs1 ++ evs2). split; [by rewrite forallb_app, H1, H2|].
      rewrite Hs2. cbn [trace files browser page]. by rewrite app_assoc.
    + by exists evs1.
Qed.

End WorkflowFacts.

Section ExtractFacts.

Import Workflow.

Ltac wf_step w :=
  match goal with
  | |- context [for_each (performInteraction w) ?l ?s] =>
      let evs := fresh "evs" in
      let Hevs := fresh "Hevs" in
      let Hs := fresh "Hs" in
      let r := fresh "r" in
      let s' := fresh "s" in
      destruct (perform_all w l s) as (evs & Hevs & Hs);
      destruct (for_each (performInteraction w) l s) as [r s'];
      cbn [snd trace files browser page] in Hs; subst s';
      destruct r as [[]|?]
  | |- context [match ?x with Ok _ => _ | Throw _ => _ end] =>
      let E := fresh "E" in destruct x as [?|?] eqn:E
  | |- context [match ?x with Written => _ | WriteFailed _ _ => _ end] =>
      let E := fresh "Ewrite" in destruct x as [|? [?|]] eqn:E
  | |- context [match content ?m with [] => _ | _ :: _ => _ end] =>
      let E := fresh "Econtent" in destruct (content m) as [|? ?] eqn:E
  | |- context [match ?x with VString _ => _ | VUndefined => _ end] =>
      destruct x as [?|]
  | |- context [if includes ?a ?b then _ else _] =>
      let E := fresh "Eincludes" in destruct (includes a b) eqn:E
  | u : unit |- _ => destruct u
  end.

Ltac wf_unfold :=
  cbv [extractSanitizedHTML extractSanitizedHTML_try generatePlaywrightTest
       main initial_state try_catch_finally try_catch cleanup validate
       bind ret throw call emit record chromium_launch browser_newPage
       page_goto page_waitForTimeout page_content page_close browser_close
       messages_create writeFileSync content_0_text console_log
       console_error set_browser set_page get_browser get_page
       TypeError Error trace files browser page].

(** Executing the call a goal speaks of, the property set aside. *)
Ltac wf_exec w c :=
  let rs := fresh "rs" in
  let r := fresh "r" in
  let s := fresh "s" in
  let H := fresh "Hrun" in
  let Q := fresh "Q" in
  remember c as rs eqn:H;
  destruct rs as [r s]; symmetry in H;
  pattern r, s;
  match goal with
  | |- ?P r s => set (Q := P)
  end;
  revert H; wf_unfold;
  repeat (wf_step w; cbv beta iota zeta);
  cbn [app fst snd trace files browser page];
  let Hr := fresh "Hr" in
  let Hs := fresh "Hs" in
  intros Hrs; injection Hrs as Hr Hs;
  rewrite <- ?app_assoc in Hs; cbn [app] in Hs;
  subst r s; subst Q; cbv beta;
  cbn [fst snd trace files browser page].

(** Reading a trace that has the events of the steps inside. *)
Ltac read_trace :=
  repeat match goal with
         | H : _ = Ok _ |- _ => clear H
         | H : _ = Throw _ |- _ => clear H
         | H : _ = Written |- _ => clear H
         | H : _ = WriteFailed _ _ |- _ => clear H
         end;
  cbn [creates writes contents errors In];
  rewrite ?creates_app, ?writes_app, ?contents_app, ?errors_app;
  repeat match goal with
         | H : forallb of_interaction ?evs = true |- _ =>
             destruct (interactions_silent evs H) as (-> & -> & -> & ->);
             clear H
         end;
  cbn [app creates writes contents errors In].

Ltac in_trace :=
  solve [ cbn [In]; repeat first [by left | right];
          apply in_or_app; right; cbn [In]; repeat first [by left | right] ].

Lemma extract_facts w url steps criteria fs :
  let rs := extractSanitizedHTML w url steps criteria (initial_state fs) in
  let t := trace (snd rs) in
  (forall out, fst rs = Ok out ->
     exists raw,
       contents t = [Ok raw] /\
       out = filterHTML_value (sanitizeHTML raw) criteria /\
       writes t = [("sanitized.html"%string, out, Ok tt)] /\
       files (snd rs) = <["sanitized.html"%string := out]> fs /\
       errors t = []) /\
  (forall e, fst rs = Throw e ->
     errors t = [(extraction_label, e)] \/
     In (PageClose (Throw e)) t \/ In (BrowserClose (Throw e)) t) /\
  (errors t = [] \/
   exists e, errors t = [(extraction_label, e)] /\
             exists e', fst rs = Throw e') /\
  creates t = [] /\
  (forall p d r, In (p, d, r) (writes t) -> p = "sanitized.html"%string).
Proof.
  cbv zeta.
  wf_exec w (extractSanitizedHTML w url steps criteria (initial_state fs)).
  all: read_trace.
  all: split;
    [intros ? Hout; simplify_eq; eexists; by repeat split|].
  all: split;
    [intros ? He; simplify_eq;
     first [by left
           | right; left; in_trace
           | right; right; in_trace]|].
  all: split;
    [first [by left
           | right; eexists; split; [reflexivity|]; by eexists]|].
  all: split; [done|].
  all: intros ? ? ? Hin; cbn [In] in Hin;
    repeat (destruct Hin as [Hin|Hin]; [by simplify_eq|]); done.
Qed.


(** What [generatePlaywrightTest] does from any state. *)
Lemma generate_facts w html scenario s0 :
  let rs := generatePlaywrightTest w html scenario s0 in
  fst rs = Ok tt /\
  browser (snd rs) = browser s0 /\ page (snd rs) = page s0 /\
  exists r evs,
    trace (snd rs)
    = trace s0 ++ Create (request_of (prompt_of html scenario)) r :: evs /\
    creates evs = [] /\
    (forall l e, In (l, e) (errors evs) -> l = generation_label) /\
    ((writes evs = [] /\ files (snd rs) = files s0 /\
      exists e, errors evs = [(generation_label, e)]) \/
     (exists m code more e residue,
        r = Ok m /\ content m = VString code :: more /\
        includes code "async function test" = true /\
        writes evs = [("src/generatedTest.ts"%string, code, Throw e)] /\
        files (snd rs)
        = match residue with
          | Some c => <["src/generatedTest.ts"%string := c]> (files s0)
          | None => files s0
          end /\
        errors evs = [(generation_label, e)]) \/
     (exists m code more,
        r = Ok m /\ content m = VString code :: more /\
        includes code "async function test" = true /\
        writes evs = [("src/generatedTest.ts"%string, code, Ok tt)] /\
        files (snd rs) = <["src/generatedTest.ts"%string := code]> (files s0) /\
        errors evs = [])).
Proof.
  cbv zeta.
  wf_exec w (generatePlaywrightTest w html scenario s0).
  all: split; [done|]. all: split; [done|]. all: split; [done|].
  all: eexists _, _; split; [reflexivity|].
  all: cbn [creates writes errors In].
  all: split; [done|].
  all: split;
    [intros ? ? Hin; cbn [In] in Hin;
     repeat (destruct Hin as [Hin|Hin]; [by simplify_eq|]); done|].
  all: first
    [ left; split; [done|]; split; [done|]; by eexists
    | right; left; eexists _, _, _, _, (Some _);
      repeat split; try done; eassumption
    | right; left; eexists _, _, _, _, None;
      repeat split; try done; eassumption
    | right; right; eexists _, _, _; repeat split; try done; eassumption ].
Qed.

(** Every way [generatePlaywrightTest] can go, with what it leaves in the
    trace. *)
Lemma generate_cases w html scenario s0 :
  fst (generatePlaywrightTest w html scenario s0) = Ok tt /\
  exists r evs,
    trace (snd (generatePlaywrightTest w html scenario s0))
    = trace s0 ++ Create (request_of (prompt_of html scenario)) r :: evs /\
    ((exists m code more,
        r = Ok m /\ content m = VString code :: more /\
        includes code "async function test" = true /\
        evs = [WriteFileSync "src/generatedTest.ts" code (Ok tt);
               ConsoleLog
                 "Playwright test code generated and saved to generatedTest.ts"])
     \/
     (exists e,
        (r = Throw e \/
         (exists m, r = Ok m /\ content m = [] /\
            e = TypeError
                  "Cannot read properties of undefined (reading 'text')") \/
         (exists m more, r = Ok m /\ content m = VUndefined :: more /\
            e = TypeError
                  "Cannot read properties of undefined (reading 'includes')") \/
         (exists m code more, r = Ok m /\ content m = VString code :: more /\
            includes code "async function test" = false /\
            e = Error "Generated code is invalid or incomplete.")) /\
        evs = [ConsoleError generation_label e])
     \/
     (exists m code more e,
        r = Ok m /\ content m = VString code :: more /\
        includes code "async function test" = true /\
        evs = [WriteFileSync "src/generatedTest.ts" code (Throw e);
               ConsoleError generation_label e])).
Proof.
  wf_exec w (generatePlaywrightTest w html scenario s0).
  all: split; [done|].
  all: eexists _, _; split; [reflexivity|].
  all: first
    [ left; eexists _, _, _; by repeat split
    | right; right; eexists _, _, _, _; by repeat split
    | right; left; eexists; split; [|reflexivity];
      first
        [ by left
        | right; left; by eexists
        | right; right; left; by eexists _, _
        | right; right; right; by eexists _, _, _ ] ].
Qed.

End ExtractFacts.

Section MainFacts.

Import Workflow.

Lemma filterHTML_value_tag_criteria html criteria :
  forallb (fun R => needs_gt (source R)) criteria = true ->
  filterHTML_value html criteria = ""%string.
Proof.
  intros H. unfold filterHTML_value. by rewrite filterHTML_tag_criteria.
Qed.

(** What the workflow of [src/main.ts] does, whatever the page and the
    model: [extractSanitizedHTML] and then [generatePlaywrightTest], put
    together from what each does. *)
Lemma main_facts w fs :
  let rs := main w (initial_state fs) in
  let t := trace (snd rs) in
  fst rs = Ok tt /\
  (creates t = [] \/
   exists r, creates t = [(request_of (prompt_of "" testScenario), r)]) /\
  (forall p d r, In (p, d, r) (writes t) ->
     p = "sanitized.html"%string \/
     (p = "src/generatedTest.ts"%string /\
      includes d "async function test" = true)) /\
  (forall e, In (extraction_label, e) (errors t) ->
     creates t = [] /\ In (workflow_label, e) (errors t) \/
     exists e', In (workflow_label, e') (errors t) /\
                (In (PageClose (Throw e')) t \/ In (BrowserClose (Throw e')) t)).
Proof.
  cbv zeta. unfold main, try_catch, bind.
  pose proof (extract_facts w url interactionSteps filterCriteria fs) as He.
  cbv zeta in He.
  destruct (extractSanitizedHTML w url interactionSteps filterCriteria
              (initial_state fs)) as [[out|e] s1]; cbn [fst snd] in *.
  - destruct He as (Hok & _ & _ & Hc & Hw).
    destruct (Hok out eq_refl) as (raw & _ & Hout & Hwr & _ & Herr).
    rewrite filterHTML_value_tag_criteria in Hout by reflexivity. subst out.
    pose proof (generate_facts w "" testScenario s1) as Hg. cbv zeta in Hg.
    destruct (generatePlaywrightTest w "" testScenario s1) as [r2 s2].
    cbn [fst snd] in Hg |- *.
    destruct Hg as (-> & _ & _ & r & evs & Ht & Hcr & Hlab & Hcases).
    cbn [fst snd]. rewrite Ht. split; [done|].
    rewrite creates_app, writes_app, errors_app, Hc, Hwr, Herr.
    cbn [creates writes errors app]. rewrite Hcr.
    split; [right; by eexists|].
    split.
    + intros p d r' [[= <- <- <-]|Hin]; [by left|].
      destruct Hcases as [(Hn & _)|[(m & code & more & e & res & _ & _ & Hi
                                      & Hwe & _)
                                   |(m & code & more & _ & _ & Hi & Hwe & _)]];
        rewrite ?Hn, ?Hwe in Hin; [done|..];
        destruct Hin as [[= <- <- <-]|[]]; by right.
    + intros e Hin. apply Hlab in Hin. discriminate.
  - destruct He as (_ & Hthrow & Hshape & Hc & Hw).
    cbv [console_error emit record]. cbn [fst snd trace].
    split; [done|].
    rewrite creates_app, writes_app, errors_app, Hc.
    cbn [creates writes errors app]. rewrite app_nil_r.
    split; [by left|].
    split; [intros p d r Hin; left; by eapply Hw|].
    intros e' Hin. apply in_app_or in Hin as [Hin|[[=]|[]]].
    destruct (Hthrow e eq_refl) as [Herr|Hclose].
    + rewrite Herr in Hin. destruct Hin as [[= <-]|[]].
      left. split; [done|]. apply in_or_app. right. by left.
    + right. exists e. split; [apply in_or_app; right; by left|].
      destruct Hclose as [H|H]; [left|right]; apply in_or_app; by left.
Qed.

End MainFacts.

(** * The workflow: what a caller can rely on *)

Section WorkflowTheorems.

Import Workflow.

(** X21: when [extractSanitizedHTML] returns, the page was read once,
    the text returned is that page text sanitized and filtered, the same
    text is what [sanitized.html] now holds, and no error line was
    printed. *)
Theorem extractSanitizedHTML_returns_what_it_saved
    w url steps criteria fs out :
  fst (extractSanitizedHTML w url steps criteria (initial_state fs)) = Ok out ->
  exists raw,
    contents (trace (snd (extractSanitizedHTML w url steps criteria
                            (initial_state fs)))) = [Ok raw] /\
    out = filterHTML_value (sanitizeHTML raw) criteria /\
    files (snd (extractSanitizedHTML w url steps criteria (initial_state fs)))
      !! "sanitized.html"%string = Some out /\
    errors (trace (snd (extractSanitizedHTML w url steps criteria
                          (initial_state fs)))) = [].
Proof.
  intros Hout.
  destruct (extract_facts w url steps criteria fs) as (Hok & _).
  destruct (Hok out Hout) as (raw & Hraw & Heq & _ & Hfiles & Herr).
  exists raw. rewrite Hfiles, lookup_insert_eq. done.
Qed.

(** X22: what [extractSanitizedHTML] throws is either the error of
    its [try] block, printed once under its label before it is thrown
    again, or an error of one of the two close calls of its [finally]
    block. *)
Theorem extractSanitizedHTML_rethrows w url steps criteria fs e :
  fst (extractSanitizedHTML w url steps criteria (initial_state fs))
    = Throw e ->
  errors (trace (snd (extractSanitizedHTML w url steps criteria
                        (initial_state fs))))
    = [(extraction_label, e)] \/
  In (PageClose (Throw e))
     (trace (snd (extractSanitizedHTML w url steps criteria
                    (initial_state fs)))) \/
  In (BrowserClose (Throw e))
     (trace (snd (extractSanitizedHTML w url steps criteria
                    (initial_state fs)))).
Proof.
  intros He.
  destruct (extract_facts w url steps criteria fs) as (_ & Hthrow & _).
  by apply Hthrow.
Qed.

(** X23: [extractSanitizedHTML] never calls the model and writes no
    file but [sanitized.html], whatever the interaction steps are. *)
Theorem extractSanitizedHTML_touches_one_file w url steps criteria fs :
  creates (trace (snd (extractSanitizedHTML w url steps criteria
                         (initial_state fs)))) = [] /\
  forall p d r,
    In (p, d, r)
       (writes (trace (snd (extractSanitizedHTML w url steps criteria
                              (initial_state fs))))) ->
    p = "sanitized.html"%string.
Proof.
  destruct (extract_facts w url steps criteria fs) as (_ & _ & _ & Hc & Hw).
  split; [exact Hc|exact Hw].
Qed.

(** X24: [generatePlaywrightTest] never throws.  It makes one call to the
    model, first, with the prompt built from its two arguments.  When the
    answer passes, the code is written and a line says so; whatever fails
    (the call, an answer without a block or without a text, the validation,
    the write) is printed by the handler under its label, once, as the last
    thing the function does, and is dropped. *)
Theorem generatePlaywrightTest_never_throws w html scenario s0 :
  fst (generatePlaywrightTest w html scenario s0) = Ok tt /\
  exists r evs,
    trace (snd (generatePlaywrightTest w html scenario s0))
    = trace s0 ++ Create (request_of (prompt_of html scenario)) r :: evs /\
    ((exists m code more,
        r = Ok m /\ content m = VString code :: more /\
        includes code "async function test" = true /\
        evs = [WriteFileSync "src/generatedTest.ts" code (Ok tt);
               ConsoleLog
                 "Playwright test code generated and saved to generatedTest.ts"])
     \/
     (exists e,
        (r = Throw e \/
         (exists m, r = Ok m /\ content m = [] /\
            e = TypeError
                  "Cannot read properties of undefined (reading 'text')") \/
         (exists m more, r = Ok m /\ content m = VUndefined :: more /\
            e = TypeError
                  "Cannot read properties of undefined (reading 'includes')") \/
         (exists m code more, r = Ok m /\ content m = VString code :: more /\
            includes code "async function test" = false /\
            e = Error "Generated code is invalid or incomplete.")) /\
        evs = [ConsoleError generation_label e])
     \/
     (exists m code more e,
        r = Ok m /\ content m = VString code :: more /\
        includes code "async function test" = true /\
        evs = [WriteFileSync "src/generatedTest.ts" code (Throw e);
               ConsoleError generation_label e])).
Proof. apply generate_cases. Qed.

(** X25: a file that [generatePlaywrightTest] writes is
    [src/generatedTest.ts], and the text written is the first block of the
    model's answer and has [async function test] in it; no other answer
    reaches the disk. *)
Theorem generatePlaywrightTest_writes_validated_code w html scenario fs p d r :
  In (p, d, r)
     (writes (trace (snd (generatePlaywrightTest w html scenario
                            (initial_state fs))))) ->
  p = "src/generatedTest.ts"%string /\
  includes d "async function test" = true /\
  exists m more,
    creates (trace (snd (generatePlaywrightTest w html scenario
                           (initial_state fs))))
    = [(request_of (prompt_of html scenario), Ok m)] /\
    content m = VString d :: more.
Proof.
  destruct (generate_facts w html scenario (initial_state fs))
    as (_ & _ & _ & r0 & evs & Ht & Hc & _ & Hcases).
  rewrite Ht. cbn [initial_state trace app creates writes]. rewrite Hc.
  destruct Hcases as [(Hn & _)|[(m & code & more & e & res & -> & Hm & Hi
                                  & Hwe & _)
                               |(m & code & more & -> & Hm & Hi & Hwe & _)]];
    rewrite ?Hn, ?Hwe; [done|..];
    intros [[= <- <- <-]|[]]; split; [done| |done|]; split; try done;
    by exists m, more.
Qed.

(** X26: the validation rejects the example of the prompt itself: a
    model that answers with the example output, which has
    [const test = async] and not [async function test], gets nothing
    saved and an error printed. *)
Theorem generatePlaywrightTest_rejects_its_own_example
    w html scenario s0 m more :
  create_result w (trace s0) (request_of (prompt_of html scenario)) = Ok m ->
  content m = VString example_output :: more ->
  generatePlaywrightTest w html scenario s0
  = (Ok tt,
     mkState (trace s0 ++
              [Create (request_of (prompt_of html scenario)) (Ok m);
               ConsoleError generation_label
                 (Error "Generated code is invalid or incomplete.")])
             (files s0) (browser s0) (page s0)).
Proof.
  intros Hm Hc. destruct s0 as [t f b p]. cbn [trace] in Hm.
  cbv [generatePlaywrightTest try_catch bind messages_create call record
       content_0_text validate ret throw console_error emit
       trace files browser page].
  rewrite Hm, Hc.
  change (includes example_output "async function test") with false.
  cbv iota beta. cbn [trace files browser page].
  by rewrite <- app_assoc.
Qed.

(** X27: the workflow of [src/main.ts] never throws: an error of
    either step, the close calls of the first included, ends in its
    handler. *)
Theorem main_never_throws w fs : fst (main w (initial_state fs)) = Ok tt.
Proof. by destruct (main_facts w fs) as (H & _). Qed.

(** X28: with the filter criteria of [src/main.ts] the workflow asks
    the model at most once, and the prompt it sends has an empty text in
    the place of the page: nothing of the page reaches the model, whatever
    the page is. *)
Theorem main_sends_no_html w fs q r :
  In (q, r) (creates (trace (snd (main w (initial_state fs))))) ->
  q = request_of (prompt_of "" testScenario) /\
  length (creates (trace (snd (main w (initial_state fs))))) = 1.
Proof.
  destruct (main_facts w fs) as (_ & [->|[r' ->]] & _); [done|].
  by intros [[= <- <-]|[]].
Qed.

(** X29: the workflow of [src/main.ts] writes two files at most:
    [sanitized.html], and [src/generatedTest.ts] with a text that has
    [async function test] in it. *)
Theorem main_writes_two_files w fs p d r :
  In (p, d, r) (writes (trace (snd (main w (initial_state fs))))) ->
  p = "sanitized.html"%string \/
  (p = "src/generatedTest.ts"%string /\
   includes d "async function test" = true).
Proof.
  destruct (main_facts w fs) as (_ & _ & H & _). apply H.
Qed.

End WorkflowTheorems.

(** * The workflow at test points *)

(** X18 at the step of [src/main.ts] with its quotes left out. *)
Lemma performInteraction_needs_quotes_witness :
  Workflow.performInteraction
    (Workflow.sample_world (Ok tt) Workflow.modal_page Workflow.test_answer)
    "Click the Open Modal button." (Workflow.initial_state ∅)
  = (Ok tt, Workflow.initial_state ∅).
Proof. apply performInteraction_needs_quotes. reflexivity. Defined.

(** X20 at the step of [src/main.ts]. *)
Lemma performInteraction_clicks_the_quoted_text_witness :
  Workflow.performInteraction
    (Workflow.sample_world (Ok tt) Workflow.modal_page Workflow.test_answer)
    (string_of ([] ++ chars_of "Click the " ++ dquote :: chars_of "Open Modal"
                ++ dquote :: chars_of " button" ++ chars_of "."))
    (Workflow.initial_state ∅)
  = Workflow.bind
      (Workflow.page_click
         (Workflow.sample_world (Ok tt) Workflow.modal_page
            Workflow.test_answer)
         ("button:text(" +:+ dq +:+ string_of (chars_of "Open Modal") +:+ dq
          +:+ ")"))
      (fun _ => Workflow.console_log
                  ("Clicked button with text: "
                   +:+ string_of (chars_of "Open Modal")))
      (Workflow.initial_state ∅).
Proof.
  apply performInteraction_clicks_the_quoted_text;
    first [reflexivity | discriminate].
Defined.

(** X21 at a page with a script and a form, under the default
    criteria. *)
Lemma extractSanitizedHTML_returns_what_it_saved_witness :
  exists raw,
    Workflow.contents
      (Workflow.trace
         (snd (Workflow.extractSanitizedHTML
                 (Workflow.sample_world (Ok tt) Workflow.modal_page
                    Workflow.test_answer)
                 Workflow.url Workflow.interactionSteps []
                 (Workflow.initial_state ∅)))) = [Ok raw] /\
    filterHTML_value (sanitizeHTML Workflow.modal_page) []
    = filterHTML_value (sanitizeHTML raw) [] /\
    Workflow.files
      (snd (Workflow.extractSanitizedHTML
              (Workflow.sample_world (Ok tt) Workflow.modal_page
                 Workflow.test_answer)
              Workflow.url Workflow.interactionSteps []
              (Workflow.initial_state ∅)))
      !! "sanitized.html"%string
    = Some (filterHTML_value (sanitizeHTML Workflow.modal_page) []) /\
    Workflow.errors
      (Workflow.trace
         (snd (Workflow.extractSanitizedHTML
                 (Workflow.sample_world (Ok tt) Workflow.modal_page
                    Workflow.test_answer)
                 Workflow.url Workflow.interactionSteps []
                 (Workflow.initial_state ∅)))) = [].
Proof.
  apply extractSanitizedHTML_returns_what_it_saved.
  vm_compute. reflexivity.
Defined.

(** X22 where the navigation fails. *)
Lemma extractSanitizedHTML_rethrows_witness :
  Workflow.errors
    (Workflow.trace
       (snd (Workflow.extractSanitizedHTML
               (Workflow.sample_world (Throw Workflow.no_route)
                  Workflow.modal_page Workflow.test_answer)
               Workflow.url Workflow.interactionSteps []
               (Workflow.initial_state ∅))))
    = [(extraction_label, Workflow.no_route)] \/
  In (Workflow.PageClose (Throw Workflow.no_route))
     (Workflow.trace
        (snd (Workflow.extractSanitizedHTML
                (Workflow.sample_world (Throw Workflow.no_route)
                   Workflow.modal_page Workflow.test_answer)
                Workflow.url Workflow.interactionSteps []
                (Workflow.initial_state ∅)))) \/
  In (Workflow.BrowserClose (Throw Workflow.no_route))
     (Workflow.trace
        (snd (Workflow.extractSanitizedHTML
                (Workflow.sample_world (Throw Workflow.no_route)
                   Workflow.modal_page Workflow.test_answer)
                Workflow.url Workflow.interactionSteps []
                (Workflow.initial_state ∅)))).
Proof.
  apply extractSanitizedHTML_rethrows. vm_compute. reflexivity.
Defined.

(** X25 with an answer that passes the validation. *)
Lemma generatePlaywrightTest_writes_validated_code_witness :
  "src/generatedTest.ts"%string = "src/generatedTest.ts"%string /\
  includes "export async function test() {}" "async function test" = true /\
  exists m more,
    Workflow.creates
      (Workflow.trace
         (snd (Workflow.generatePlaywrightTest
                 (Workflow.sample_world (Ok tt) Workflow.modal_page
                    Workflow.test_answer)
                 "<form>" Workflow.testScenario (Workflow.initial_state ∅))))
    = [(Workflow.request_of (Workflow.prompt_of "<form>" Workflow.testScenario),
        Ok m)] /\
    content m = VString "export async function test() {}" :: more.
Proof.
  apply (generatePlaywrightTest_writes_validated_code
           (Workflow.sample_world (Ok tt) Workflow.modal_page
              Workflow.test_answer)
           "<form>" Workflow.testScenario ∅
           "src/generatedTest.ts" "export async function test() {}" (Ok tt)).
  vm_compute. left. reflexivity.
Defined.

(** X26 with a model that repeats the example. *)
Lemma generatePlaywrightTest_rejects_its_own_example_witness :
  Workflow.generatePlaywrightTest
    (Workflow.sample_world (Ok tt) Workflow.modal_page
       (VString Workflow.example_output))
    "<form>" Workflow.testScenario (Workflow.initial_state ∅)
  = (Ok tt,
     Workflow.mkState
       (Workflow.trace (Workflow.initial_state ∅) ++
        [Workflow.Create
           (Workflow.request_of
              (Workflow.prompt_of "<form>" Workflow.testScenario))
           (Ok (mkMessage [VString Workflow.example_output]));
         Workflow.ConsoleError generation_label
           (Error "Generated code is invalid or incomplete.")])
       (Workflow.files (Workflow.initial_state ∅))
       (Workflow.browser (Workflow.initial_state ∅))
       (Workflow.page (Workflow.initial_state ∅))).
Proof.
  apply (generatePlaywrightTest_rejects_its_own_example
           (Workflow.sample_world (Ok tt) Workflow.modal_page
              (VString Workflow.example_output))
           "<form>" Workflow.testScenario (Workflow.initial_state ∅)
           (mkMessage [VString Workflow.example_output]) []);
    reflexivity.
Defined.

(** X28 at a page with a form and a button that carries a test id. *)
Lemma main_sends_no_html_witness :
  Workflow.request_of (Workflow.prompt_of "" Workflow.testScenario)
  = Workflow.request_of (Workflow.prompt_of "" Workflow.testScenario) /\
  length
    (Workflow.creates
       (Workflow.trace
          (snd (Workflow.main
                  (Workflow.sample_world (Ok tt) Workflow.modal_page
                     Workflow.test_answer)
                  (Workflow.initial_state ∅))))) = 1.
Proof.
  apply (main_sends_no_html
           (Workflow.sample_world (Ok tt) Workflow.modal_page
              Workflow.test_answer)
           ∅ (Workflow.request_of (Workflow.prompt_of "" Workflow.testScenario))
           (Ok (mkMessage [Workflow.test_answer]))).
  vm_compute. left. reflexivity.
Defined.

(** X29 at the second write of a run in which every call returns. *)
Lemma main_writes_two_files_witness :
  "src/generatedTest.ts"%string = "sanitized.html"%string \/
  ("src/generatedTest.ts"%string = "src/generatedTest.ts"%string /\
   includes "export async function test() {}" "async function test" = true).
Proof.
  apply (main_writes_two_files
           (Workflow.sample_world (Ok tt) Workflow.modal_page
              Workflow.test_answer)
           ∅ "src/generatedTest.ts" "export async function test() {}" (Ok tt)).
  vm_compute. right. left. reflexivity.
Defined.

(** * One pass of [replace] *)

Lemma span_shift d x y : span (shift d x) (shift d y) = span x y.
Proof.
  unfold span, shift. cbn [seen]. rewrite !length_app.
  replace (length (seen y) + length d - (length (seen x) + length d))
    with (length (seen y) - length (seen x)) by lia.
  rewrite firstn_app.
  replace (length (seen y) - length (seen x) - length (seen y)) with 0 by lia.
  cbn [firstn]. by rewrite app_nil_r.
Qed.

Lemma star_shift ic g c d k k' :
  (forall y, k' (shift d y) = option_map (shift d) (k y)) ->
  forall l x, star ic g c k' l (shift d x)
              = option_map (shift d) (star ic g c k l x).
Proof.
  intros Hk. induction l as [|a t IH]; intros x; cbn [star]; [apply Hk|].
  destruct (cls_match ic c a); [|apply Hk].
  change (advance a t (shift d x)) with (shift d (advance a t x)).
  destruct g.
  - rewrite IH. destruct (star ic true c k t (advance a t x)); [done|].
    apply Hk.
  - rewrite Hk. destruct (k x); [done|]. apply IH.
Qed.

(** A pattern without a word boundary matches the same way whatever came
    before the position. *)
Lemma m_shift ic d r : no_wordb r = true ->
  forall k k' x,
    (forall y, k' (shift d y) = option_map (shift d) (k y)) ->
    m ic r k' (shift d x) = option_map (shift d) (m ic r k x).
Proof.
  induction r as [|c|r1 IH1 r2 IH2|r1 IH1 r2 IH2|g c|n r1 IH1|];
    intros Hr k k' x Hk; cbn [m no_wordb] in *.
  - apply Hk.
  - change (rest (shift d x)) with (rest x).
    destruct (rest x) as [|a t]; [done|].
    destruct (cls_match ic c a); [|done].
    change (advance a t (shift d x)) with (shift d (advance a t x)).
    apply Hk.
  - apply andb_prop in Hr as [H1 H2].
    apply IH1; [done|]. intros y. by apply IH2.
  - apply andb_prop in Hr as [H1 H2].
    rewrite (IH1 H1 k k' x Hk). destruct (m ic r1 k x); [done|].
    by apply IH2.
  - change (rest (shift d x)) with (rest x). by apply star_shift.
  - apply IH1; [done|]. intros y.
    replace (set_cap n (shift d x) (shift d y)) with (shift d (set_cap n x y));
      [apply Hk|].
    unfold set_cap. cbn [shift seen rest caps]. by rewrite span_shift.
  - done.
Qed.

Lemma match_at_shift ic r d sn rs : no_wordb r = true ->
  match_at ic r (sn ++ d) rs = option_map (shift d) (match_at ic r sn rs).
Proof.
  intros Hr. unfold match_at.
  change (MState (sn ++ d) rs []) with (shift d (MState sn rs [])).
  by apply m_shift.
Qed.

Lemma remove_shift ic r d : no_wordb r = true ->
  forall rs skip sn,
    remove_matches ic r skip (sn ++ d) rs = remove_matches ic r skip sn rs.
Proof.
  intros Hr. induction rs as [|a t IH]; intros skip sn; [done|].
  cbn [remove_matches].
  destruct skip as [|n]; [|apply (IH n (a :: sn))].
  rewrite match_at_shift by done.
  destruct (match_at ic r sn (a :: t)) as [y|]; cbn [option_map].
  - cbn [shift seen]. rewrite !length_app.
    replace (length (seen y) + length d - (length sn + length d))
      with (length (seen y) - length sn) by lia.
    destruct (length (seen y) - length sn) as [|n].
    + f_equal. apply (IH 0 (a :: sn)).
    + apply (IH n (a :: sn)).
  - f_equal. apply (IH 0 (a :: sn)).
Qed.

(** Dropping the rest of a match is moving on to its end. *)
Lemma remove_skip ic r : forall n rs sn,
  remove_matches ic r n sn rs
  = remove_matches ic r 0 (rev (firstn n rs) ++ sn) (skipn n rs).
Proof.
  induction n as [|n IH]; intros rs sn; [done|].
  destruct rs as [|a t]; [done|].
  cbn [remove_matches firstn skipn rev]. rewrite IH.
  by rewrite <- app_assoc.
Qed.

(** One more match: the text before the leftmost match is kept, the match
    is dropped, and what follows it is treated as a text of its own. *)
Lemma remove_pass ic r :
  1 <= min_len r -> no_wordb r = true ->
  forall rs sn j y,
    search ic r sn rs = Some (j, y) ->
    remove_matches ic r 0 sn rs
    = firstn (j - length sn) rs ++ remove_matches ic r 0 [] (rest y).
Proof.
  intros Hmin Hr. induction rs as [|a t IH]; intros sn j y Hs.
  - cbn [search] in Hs. destruct (match_at ic r sn []) as [y0|] eqn:Hm; [|done].
    apply match_at_text in Hm as (w & Hw & _ & Hl).
    destruct w; [simpl in Hl; lia|done].
  - cbn [search] in Hs. cbn [remove_matches].
    destruct (match_at ic r sn (a :: t)) as [y0|] eqn:Hm.
    + injection Hs as <- <-. rewrite Nat.sub_diag. cbn [firstn app].
      apply match_at_text in Hm as (w & Hw & Hseen & Hl).
      destruct w as [|b w]; [simpl in Hl; lia|].
      injection Hw as <- ->.
      rewrite Hseen. cbn [rev]. rewrite !length_app, length_rev. cbn [length].
      replace (length w + 1 + length sn - length sn) with (S (length w)) by lia.
      rewrite remove_skip.
      rewrite firstn_app, Nat.sub_diag, firstn_all. cbn [firstn].
      rewrite app_nil_r, skipn_app, Nat.sub_diag, skipn_all. cbn [skipn app].
      apply (remove_shift ic r _ Hr (rest y0) 0 []).
    + pose proof Hs as Hj. apply search_Some in Hj as (pre & post & _ & Hj & _).
      cbn [length] in Hj.
      rewrite (IH _ _ _ Hs). cbn [length].
      replace (j - length sn) with (S (j - S (length sn))) by lia.
      done.
Qed.

(** ** More text behind *)

Lemma reach_extend ic l r : no_wordb r = true ->
  forall x y, reach ic r x y -> reach ic r (extend l x) (extend l y).
Proof.
  induction r as [|c|r1 IH1 r2 IH2|r1 IH1 r2 IH2|g c|n r1 IH1|];
    intros Hr x y H; cbn [reach no_wordb] in *.
  - by subst.
  - destruct H as (a & t & Hx & Ha & ->).
    exists a, (t ++ l). cbn [extend rest]. rewrite Hx. done.
  - apply andb_prop in Hr as [H1 H2]. destruct H as (z & Hz1 & Hz2).
    exists (extend l z). split; [by apply IH1|by apply IH2].
  - apply andb_prop in Hr as [H1 H2].
    destruct H as [H|H]; [left; by apply IH1|right; by apply IH2].
  - destruct H as (w & Hw & Hrest & Hseen & Hcaps). exists w.
    cbn [extend rest seen caps]. rewrite Hrest, <- app_assoc. done.
  - destruct H as (z & Hz & ->). exists (extend l z).
    split; [by apply IH1|done].
  - done.
Qed.

(** A match at a position is still one when more text follows. *)
Lemma match_at_extend ic r sn rs l y : no_wordb r = true ->
  match_at ic r sn rs = Some y -> is_Some (match_at ic r sn (rs ++ l)).
Proof.
  intros Hr H%match_at_reach. apply (reach_extend ic l r Hr) in H.
  by apply (m_complete ic r Some _ _ H).
Qed.

(** No match lies inside the text before the leftmost match. *)
Lemma search_prefix_none ic r :
  1 <= min_len r -> no_wordb r = true ->
  forall rs sn j y,
    search ic r sn rs = Some (j, y) ->
    search ic r sn (firstn (j - length sn) rs) = None.
Proof.
  intros Hmin Hr.
  assert (forall sn, match_at ic r sn [] = None) as Hnil.
  { intros sn. destruct (match_at ic r sn []) as [y0|] eqn:Hm; [|done].
    apply match_at_text in Hm as (w & Hw & _ & Hl).
    destruct w; [simpl in Hl; lia|done]. }
  induction rs as [|a t IH]; intros sn j y Hs.
  - rewrite firstn_nil. cbn [search]. by rewrite Hnil.
  - cbn [search] in Hs.
    destruct (match_at ic r sn (a :: t)) as [y0|] eqn:Hm.
    + injection Hs as <- <-. rewrite Nat.sub_diag. cbn [firstn search].
      by rewrite Hnil.
    + pose proof Hs as Hj. apply search_Some in Hj as (pre & post & _ & Hj & _).
      cbn [length] in Hj.
      replace (j - length sn) with (S (j - S (length sn))) by lia.
      cbn [firstn search].
      destruct (match_at ic r sn (a :: firstn (j - S (length sn)) t))
        as [y1|] eqn:Hm1.
      * apply (match_at_extend ic r sn _ (skipn (j - S (length sn)) t))
          in Hm1 as [z Hz]; [|done].
        cbn [app] in Hz. rewrite firstn_skipn in Hz. congruence.
      * apply (IH (a :: sn) j y Hs).
Qed.

(** [R.exec(s)] and [s.replace(R, '')] for a fresh global pattern that has no
    word boundary and no empty match. *)
Lemma replace_all_pass R s :
  global R = true -> lastIndex R = 0 ->
  1 <= min_len (source R) -> no_wordb (source R) = true ->
  match fst (exec R s) with
  | None => contains_match R s = false /\ replace_all R s = s
  | Some mt =>
      m_index mt < m_end mt <= length s /\
      contains_match R (firstn (m_index mt) s) = false /\
      replace_all R s
      = firstn (m_index mt) s ++ replace_all R (skipn (m_end mt) s)
  end.
Proof.
  intros Hg Hi Hmin Hr. unfold exec. rewrite Hg, Hi.
  change (Nat.ltb (length s) 0) with false.
  change (rev (firstn 0 s)) with (@nil ascii). change (skipn 0 s) with s.
  destruct (search (ignoreCase R) (source R) [] s) as [[j y]|] eqn:Hs;
    cbn [fst m_index m_end].
  - pose proof (search_prefix_none _ _ Hmin Hr _ _ _ _ Hs) as Hpre.
    pose proof (remove_pass _ _ Hmin Hr _ _ _ _ Hs) as Hpass.
    rewrite Nat.sub_0_r in Hpre, Hpass.
    apply search_Some in Hs as (pre & post & -> & -> & Hm).
    rewrite app_nil_r in Hm.
    apply match_at_text in Hm as (w & -> & Hseen & Hl).
    cbn [length] in *. rewrite Nat.add_0_l in *.
    rewrite Hseen, length_app, !length_rev, !length_app.
    split; [lia|].
    split; [unfold contains_match; by rewrite Hpre|].
    unfold replace_all. rewrite Hpass. f_equal. f_equal.
    rewrite app_assoc.
    rewrite skipn_app, length_app.
    replace (length w + length pre - (length pre + length w)) with 0 by lia.
    rewrite skipn_all2 by (rewrite length_app; lia). done.
  - split; [unfold contains_match; by rewrite Hs|].
    unfold replace_all. by apply remove_no_match.
Qed.

Lemma removal_patterns_fresh R :
  In R removal_patterns ->
  global R = true /\ lastIndex R = 0 /\ no_wordb (source R) = true.
Proof. intros [<-|[<-|[<-|[<-|[<-|[]]]]]]; by vm_compute. Qed.

(** C9, as amended: [sanitizeHTML] is five passes, one for each pattern in
    the order of the source.  A pass finds the leftmost match of its pattern,
    keeps the text before it, in which no match lies, drops the match and
    goes on behind it; a text without a match is left as it is.  So every
    match a pass finds is removed, and a match in the result can only lie
    across a place where something was dropped.  The fixed points of
    [sanitizeHTML] are the texts in which none of the five patterns finds a
    match, and sanitizing twice gives what sanitizing once gives exactly when
    the first result holds no such match. *)
Theorem sanitizeHTML_pass_by_pass h :
  chars_of (sanitizeHTML h)
  = fold_left (fun s R => replace_all R s) removal_patterns (chars_of h) /\
  (forall R s, In R removal_patterns ->
     match fst (exec R s) with
     | None => contains_match R s = false /\ replace_all R s = s
     | Some mt =>
         m_index mt < m_end mt <= length s /\
         contains_match R (firstn (m_index mt) s) = false /\
         replace_all R s
         = firstn (m_index mt) s ++ replace_all R (skipn (m_end mt) s)
     end) /\
  (sanitizeHTML h = h <->
   forall R, In R removal_patterns -> contains_match R (chars_of h) = false) /\
  (sanitizeHTML (sanitizeHTML h) = sanitizeHTML h <->
   forall R, In R removal_patterns ->
             contains_match R (chars_of (sanitizeHTML h)) = false).
Proof.
  split; [unfold sanitizeHTML; by rewrite chars_of_string_of|].
  split.
  { intros R s HR.
    destruct (removal_patterns_fresh R HR) as (Hg & Hi & Hw).
    apply replace_all_pass; try done. by apply removal_patterns_min. }
  assert (forall s, sanitizeHTML s = s <->
            forall R, In R removal_patterns ->
                      contains_match R (chars_of s) = false) as H.
  { intros s. rewrite <- sanitize_chars_fixed. unfold sanitizeHTML. split.
    - intros Heq. rewrite <- Heq at 2. by rewrite chars_of_string_of.
    - intros ->. apply string_of_chars_of. }
  split; apply H.
Qed.
